(** * AgentLab: prompt fitting and the validated retry driver

    A shallow embedding of [src/agentlab/llm/llm_utils.py] and
    [src/agentlab/agents/dynamic_prompting.py], with the properties of the
    specification proved (or refuted) against it.

    Conventions of the embedding.
    - A Python [str] is a [string]; its characters are the code points below
      256, so the line boundaries of [str.splitlines] and the white space of
      [str.strip] are the ones of that range.
    - A Python [int] is a [Z].  A Python [float] is a binary64 [float], with
      the rounding of the machine.  The waits of [retry], where [int]s and
      [float]s mix, are numbers of any type with the operations of [Number];
      the exact rationals are one such type.
    - A Python exception is a value of [exn]; code that can raise returns a
      [result].
    - A [dict] is a [gmap]; a [list] is a [list].
    - [logging] calls have no effect on any value and are left out, except the
      diagnostic of [fit_tokens], which is returned. *)

From Stdlib Require Import String Ascii List ZArith QArith Qround Lia Bool.
From Stdlib Require Import DecimalString Floats Uint63.
From stdpp Require Import gmap strings.
Import ListNotations.

Local Open Scope string_scope.
Local Open Scope list_scope.
Local Open Scope Z_scope.

(** ** Python values and primitives *)

Inductive exn :=
| TypeError
| AttributeError
| IndexError
| UnboundLocalError
| ValueError
| OverflowError
| ParseError (msg : string)
| RetryError (msg : string)
| RateLimitError (msg : string).

Inductive result (A : Type) :=
| Ok (a : A)
| Raise (e : exn).
Arguments Ok {A} a.
Arguments Raise {A} e.

#[global] Instance result_ret : MRet result := fun A a => Ok a.
#[global] Instance result_bind : MBind result := fun A B k r =>
  match r with
  | Ok a => k a
  | Raise e => Raise e
  end.

(** [len(s)] on a [str]. *)
Definition len (s : string) : Z := Z.of_nat (String.length s).

(** [str(n)] on an [int]. *)
Definition str_of_Z (n : Z) : string := NilZero.string_of_int (Z.to_int n).

(** [sep.join(parts)]. *)
Definition str_join (sep : string) (parts : list string) : string :=
  String.concat sep parts.

(** The line boundaries of [str.splitlines] below code point 256:
    LF, VT, FF, CR, FS, GS, RS and NEL. *)
Definition is_linebreak (c : ascii) : bool :=
  match nat_of_ascii c with
  | 10%nat | 11%nat | 12%nat | 13%nat | 28%nat | 29%nat | 30%nat | 133%nat => true
  | _ => false
  end.

Definition is_cr (c : ascii) : bool := (nat_of_ascii c =? 13)%nat.
Definition is_lf (c : ascii) : bool := (nat_of_ascii c =? 10)%nat.

(** [s.splitlines()]: the lines of [s] without their boundaries; CR LF is one
    boundary, and a final boundary opens no empty last line. *)
Fixpoint splitlines (s : string) : list string :=
  match s with
  | EmptyString => []
  | String c rest =>
      if is_linebreak c then
        match rest with
        | String c' rest' =>
            if is_cr c && is_lf c' then EmptyString :: splitlines rest'
            else EmptyString :: splitlines rest
        | EmptyString => [EmptyString]
        end
      else
        match splitlines rest with
        | [] => [String c EmptyString]
        | l :: ls => String c l :: ls
        end
  end.

(** [str.isspace] on one character below code point 256. *)
Definition is_space (c : ascii) : bool :=
  match nat_of_ascii c with
  | 9%nat | 10%nat | 11%nat | 12%nat | 13%nat
  | 28%nat | 29%nat | 30%nat | 31%nat | 32%nat | 133%nat | 160%nat => true
  | _ => false
  end.

Fixpoint lstrip (s : string) : string :=
  match s with
  | EmptyString => EmptyString
  | String c rest => if is_space c then lstrip rest else s
  end.

Fixpoint rstrip (s : string) : string :=
  match s with
  | EmptyString => EmptyString
  | String c rest =>
      match rstrip rest with
      | EmptyString => if is_space c then EmptyString else String c EmptyString
      | r => String c r
      end
  end.

(** [s.strip()]. *)
Definition strip (s : string) : string := lstrip (rstrip s).

(** If [s] starts with [p], what follows [p] in [s]. *)
Fixpoint strip_prefix (p s : string) : option string :=
  match p with
  | EmptyString => Some s
  | String a p' =>
      match s with
      | EmptyString => None
      | String b s' => if Ascii.eqb a b then strip_prefix p' s' else None
      end
  end.

(** [s.startswith(p)]. *)
Definition startswith (s p : string) : bool :=
  match strip_prefix p s with Some _ => true | None => false end.

(** The leftmost occurrence of a non-empty [p] in [s]: what stands before it
    and what follows it. *)
Fixpoint str_find (p s : string) : option (string * string) :=
  match strip_prefix p s with
  | Some after => Some (EmptyString, after)
  | None =>
      match s with
      | EmptyString => None
      | String c s' =>
          match str_find p s' with
          | Some (before, after) => Some (String c before, after)
          | None => None
          end
      end
  end.

(** [xs[:k]] for an [int] [k], negative [k] counting from the end. *)
Definition slice_to {A} (xs : list A) (k : Z) : list A :=
  if k <? 0 then firstn (Z.to_nat (Z.of_nat (length xs) + k)) xs
  else firstn (Z.to_nat k) xs.

(** [float(n)] on an [int] from 0 to 2^63 - 1: the nearest binary64 number,
    [n] itself below 2^53. *)
Definition float_of_int (n : Z) : float := PrimFloat.of_uint63 (Uint63.of_Z n).

(** [int(x)] on a [float]: truncation towards zero; [ValueError] on a NaN and
    [OverflowError] on an infinity.  A finite float is [m * 2^e], with its
    sign: the shifts take the integer part. *)
Definition int_of_float (x : float) : result Z :=
  match Prim2SF x with
  | S754_nan => Raise ValueError
  | S754_infinity _ => Raise OverflowError
  | S754_zero _ => Ok 0
  | S754_finite sign m e =>
      let a :=
        if 0 <=? e then Z.shiftl (Z.pos m) e else Z.shiftr (Z.pos m) (- e) in
      Ok (if sign then - a else a)
  end.

(** The numbers of a computation where [int]s and [float]s mix: the [int] 0,
    [a + b], [a < b], [a >= b] and [float(text)]. *)
Class Number (F : Type) := {
  num_zero : F;
  num_add : F -> F -> F;
  num_lt : F -> F -> bool;
  num_ge : F -> F -> bool;
  num_of_text : string -> F
}.

(** [max(a, b)] on numbers: [b] only when it is strictly greater. *)
Definition py_max {F} `{Number F} (a b : F) : F := if num_lt a b then b else a.

Definition is_digit (c : ascii) : bool :=
  let n := nat_of_ascii c in (48 <=? n)%nat && (n <=? 57)%nat.

(** The longest prefix of decimal digits, and the rest. *)
Fixpoint span_digits (s : string) : string * string :=
  match s with
  | EmptyString => (EmptyString, EmptyString)
  | String c rest =>
      if is_digit c then
        let (ds, r) := span_digits rest in (String c ds, r)
      else (EmptyString, s)
  end.

Fixpoint digits_value (acc : Z) (s : string) : Z :=
  match s with
  | EmptyString => acc
  | String c rest => digits_value (10 * acc + (Z.of_nat (nat_of_ascii c) - 48)) rest
  end.

(** The exact value of a text [digits] or [digits.digits]. *)
Definition float_of_decimal (text : string) : Q :=
  let (ip, r) := span_digits text in
  match r with
  | String _ fp =>
      let (fd, _) := span_digits fp in
      Qmake (digits_value (digits_value 0 ip) fd) (Z.to_pos (10 ^ len fd))
  | EmptyString => inject_Z (digits_value 0 ip)
  end.

(** The exact rationals as numbers: what Python computes as long as binary64
    holds every value exactly. *)
Definition Qltb (a b : Q) : bool := negb (Qle_bool b a).

#[global] Instance Q_Number : Number Q := {
  num_zero := 0%Q;
  num_add := Qplus;
  num_lt := Qltb;
  num_ge a b := Qle_bool b a;
  num_of_text := float_of_decimal
}.

(** The string holding one LF, Python's ["\n"]. *)
Definition nl : string := String (ascii_of_nat 10) EmptyString.

(** ** llm_utils.py: the rate-limit wait hint *)

(** A match of [(\d+(\.\d+)?)s] at the start of [s], as group 1.  [\d+] is
    greedy and can give nothing back (what follows a shorter run of digits is
    a digit), so the match is decided by what follows the digits. *)
Definition match_decimal_s (s : string) : option string :=
  let (ds, r1) := span_digits s in
  match ds, r1 with
  | EmptyString, _ => None
  | _, String c r2 =>
      if Ascii.eqb c "." then
        let (fs, r3) := span_digits r2 in
        match fs with
        | EmptyString => None
        | _ => if startswith r3 "s" then Some (ds +:+ "." +:+ fs) else None
        end
      else if Ascii.eqb c "s" then Some ds
      else None
  | _, EmptyString => None
  end.

Definition match_wait_hint (s : string) : option string :=
  match strip_prefix "try again in " s with
  | Some r => match_decimal_s r
  | None => None
  end.

(** [re.search(r"try again in (\d+(\.\d+)?)s", s)]: group 1 of the leftmost
    match. *)
Fixpoint search_wait_hint (s : string) : option string :=
  match match_wait_hint s with
  | Some g => Some g
  | None =>
      match s with
      | EmptyString => None
      | String _ s' => search_wait_hint s'
      end
  end.

Definition _extract_wait_time {F} `{Number F}
    (error_message : string) (min_retry_wait_time : F) : F :=
  match search_wait_hint error_message with
  | Some g => py_max min_retry_wait_time (num_of_text g)
  | None => min_retry_wait_time
  end.

(** ** llm_utils.py: the retry driver *)

Inductive role := System | Human | AI.

Record message := Message { role_of : role; content : string }.

Definition HumanMessage (c : string) : message := Message Human c.

(** What [chat.invoke(messages)] does: it returns an answer, or raises a
    [RateLimitError] whose [args[0]] is the error text. *)
Inductive reply :=
| Answer (answer : message)
| RateLimited (error_text : string).

(** The variables of [retry], and what a run leaves behind: the conversation
    (the caller's list, appended to in place), the state of the endpoint and of
    the parser, the durations slept, in order, and the number of calls of
    [chat.invoke]. *)
Record retry_state (F W : Type) := RetryState {
  tries : Z;
  rate_limit_total_delay : F;
  messages : list message;
  world : W;
  slept : list F;
  invocations : Z
}.
Arguments RetryState {F W}.
Arguments tries {F W}.
Arguments rate_limit_total_delay {F W}.
Arguments messages {F W}.
Arguments world {F W}.
Arguments slept {F W}.
Arguments invocations {F W}.

Definition retry_error (n_retry : Z) : exn :=
  RetryError ("Could not parse a valid value after " +:+ str_of_Z n_retry +:+ " retries.").

Section Retry.
(** The endpoint and the parser are any callables: [W] is the state they
    keep between calls, [V] the type of parsed values. *)
Context {F W V : Type} `{Number F}.
Variable chat : list message -> W -> reply * W.
Variable n_retry : Z.
Variable parser : string -> W -> (V * bool * string) * W.
Variable min_retry_wait_time : F.
Variable rate_limit_max_wait_time : F.

(** The [while] loop of [retry]; [fuel] bounds the number of iterations. *)
Fixpoint retry_loop (fuel : nat) (st : retry_state F W)
  : option (result V * retry_state F W) :=
  match fuel with
  | O => None
  | S fuel' =>
      if (tries st <? n_retry)
         && num_lt (rate_limit_total_delay st) rate_limit_max_wait_time
      then
        let (r, w1) := chat (messages st) (world st) in
        match r with
        | RateLimited e =>
            let wait_time := _extract_wait_time e min_retry_wait_time in
            let st1 :=
              RetryState (tries st)
                (num_add (rate_limit_total_delay st) wait_time)
                (messages st) w1
                (slept st ++ [wait_time]) (invocations st + 1) in
            if num_ge (rate_limit_total_delay st1) rate_limit_max_wait_time
            then Some (Raise (RateLimitError e), st1)
            else retry_loop fuel' st1
        | Answer answer =>
            let msgs := messages st ++ [answer] in
            let '(value, valid, retry_message, w2) := parser (content answer) w1 in
            if valid : bool then
              Some (Ok value,
                    RetryState (tries st) (rate_limit_total_delay st) msgs w2
                      (slept st) (invocations st + 1))
            else
              retry_loop fuel'
                (RetryState (tries st + 1) (rate_limit_total_delay st)
                   (msgs ++ [HumanMessage retry_message]) w2
                   (slept st) (invocations st + 1))
        end
      else Some (Raise (retry_error n_retry), st)
  end.

Definition retry_init (messages : list message) (w : W) : retry_state F W :=
  RetryState 0 num_zero messages w [] 0.

Definition retry (fuel : nat) (messages : list message) (w : W)
  : option (result V * retry_state F W) :=
  retry_loop fuel (retry_init messages w).
End Retry.

(** ** llm_utils.py: the structured response parser *)

(** The characters with a meaning of their own in a regular expression. *)
Definition regex_special (c : ascii) : bool :=
  existsb (Ascii.eqb c) (list_ascii_of_string ".^$*+?{}[]\|()").

Definition is_literal (key : string) : bool :=
  forallb (fun c => negb (regex_special c)) (list_ascii_of_string key).

(** A key of the parser.  [extract_html_tags] splices the key into the
    pattern [<key>(.*?)</key>] as it is; the keys of the embedding are the
    strings without a special character, for which the pattern is the tag
    pair itself. *)
Record tag_key := TagKey {
  key_name :> string;
  key_literal : is_literal key_name = true
}.

(** [re.findall] of [open(.*?)close] with [re.DOTALL], for literal [open] and
    [close]: from the leftmost [open], up to the nearest [close] after it;
    then on from behind that [close]. *)
Fixpoint findall_tag (fuel : nat) (open close text : string) : list string :=
  match fuel with
  | O => []
  | S fuel' =>
      match str_find open text with
      | None => []
      | Some (_, r) =>
          match str_find close r with
          | None => []
          | Some (inner, r') => inner :: findall_tag fuel' open close r'
          end
      end
  end.

Definition open_tag (key : string) : string := "<" +:+ key +:+ ">".
Definition close_tag (key : string) : string := "</" +:+ key +:+ ">".

Definition re_findall_tag (key : tag_key) (text : string) : list string :=
  findall_tag (String.length text) (open_tag key) (close_tag key) text.

Definition extract_html_tags (text : string) (keys : list tag_key)
  : gmap string (list string) :=
  fold_left
    (fun content_dict key =>
       match re_findall_tag key text with
       | [] => content_dict
       | matches => <[key_name key := map strip matches]> content_dict
       end)
    keys ∅.

(** A value of [content_dict] while [parse_html_tags] rewrites it: the list of
    matches that [extract_html_tags] stored, or the string put in its place. *)
Inductive pyval :=
| PList (items : list string)
| PStr (s : string).

(** [val[0]]. *)
Definition index0 (val : pyval) : result pyval :=
  match val with
  | PList (x :: _) => Ok (PStr x)
  | PStr (String c _) => Ok (PStr (String c EmptyString))
  | _ => Raise IndexError
  end.

(** [len(val)]. *)
Definition pylen (val : pyval) : Z :=
  match val with
  | PList items => Z.of_nat (length items)
  | PStr s => len s
  end.

(** [sep.join(val)]; a string is joined character by character. *)
Definition join_val (sep : string) (val : pyval) : string :=
  match val with
  | PList items => str_join sep items
  | PStr s => str_join sep (map (fun c => String c EmptyString) (list_ascii_of_string s))
  end.

Definition key_in (key : string) (keys : list tag_key) : bool :=
  existsb (fun k => String.eqb key (key_name k)) keys.

Definition missing_message (key : string) : string :=
  "Missing the key <" +:+ key +:+ "> in the answer.".

Definition multiple_message (key : string) : string :=
  "Found multiple instances of the key " +:+ key
  +:+ ". You should have only one of them.".

(** One turn of the loop [for key in all_keys] of [parse_html_tags]. *)
Definition parse_key (optional_keys : list tag_key) (merge_multiple : bool)
    (st : gmap string pyval * list string) (key : tag_key)
  : result (gmap string pyval * list string) :=
  let (content_dict, retry_messages) := st in
  match content_dict !! key_name key with
  | None =>
      if negb (key_in key optional_keys)
      then Ok (content_dict, retry_messages ++ [missing_message key])
      else Ok (content_dict, retry_messages)
  | Some val =>
      v0 ← index0 val;
      let content_dict := <[key_name key := v0]> content_dict in
      if 1 <? pylen val then
        if negb merge_multiple
        then Ok (content_dict, retry_messages ++ [multiple_message key])
        else Ok (<[key_name key := PStr (join_val nl val)]> content_dict,
                 retry_messages)
      else Ok (content_dict, retry_messages)
  end.

Fixpoint parse_keys (optional_keys : list tag_key) (merge_multiple : bool)
    (all_keys : list tag_key) (st : gmap string pyval * list string)
  : result (gmap string pyval * list string) :=
  match all_keys with
  | [] => Ok st
  | key :: rest =>
      st' ← parse_key optional_keys merge_multiple st key;
      parse_keys optional_keys merge_multiple rest st'
  end.

(** The dictionary and the messages when the loop of [parse_html_tags] ends. *)
Definition parse_html_tags_loop (text : string) (keys optional_keys : list tag_key)
    (merge_multiple : bool) : result (gmap string pyval * list string) :=
  let all_keys := keys ++ optional_keys in
  let content_dict := PList <$> extract_html_tags text all_keys in
  parse_keys optional_keys merge_multiple all_keys (content_dict, []).

Definition parse_html_tags (text : string) (keys optional_keys : list tag_key)
    (merge_multiple : bool) : result (gmap string pyval * bool * string) :=
  '(content_dict, retry_messages) ← parse_html_tags_loop text keys optional_keys merge_multiple;
  let valid := Z.of_nat (length retry_messages) =? 0 in
  let retry_message := str_join nl retry_messages in
  Ok (content_dict, valid, retry_message).

Definition parse_html_tags_raise (text : string) (keys optional_keys : list tag_key)
    (merge_multiple : bool) : result (gmap string pyval) :=
  '(content_dict, valid, retry_message) ← parse_html_tags text keys optional_keys merge_multiple;
  if negb valid then Raise (ParseError retry_message)
  else Ok content_dict.

(** ** dynamic_prompting.py: flags and visibility *)

Record ObsFlags := {
  use_html : bool;
  use_ax_tree : bool;
  use_focused_element : bool;
  use_error_logs : bool;
  use_history : bool;
  use_past_error_logs : bool;
  use_action_history : bool;
  use_think_history : bool;
  use_diff : bool;
  html_type : string;
  use_screenshot : bool;
  use_som : bool;
  extract_visible_tag : bool;
  extract_clickable_tag : bool;
  extract_coords : string;
  filter_visible_elements_only : bool
}.

(** The [visible] argument of a prompt element: a [bool], or a callable
    without arguments.  The callables of this module read the flags object
    they close over ([lambda: flags.use_html]); the flags current at the
    access are passed in, and the result is taken by its truth value. *)
Inductive Visible :=
| VBool (b : bool)
| VCallable (f : ObsFlags -> bool).

(** [PromptElement.is_visible]. *)
Definition is_visible (flags : ObsFlags) (visible : Visible) : bool :=
  match visible with
  | VBool b => b
  | VCallable f => f flags
  end.

(** [PromptElement._hide]. *)
Definition _hide (flags : ObsFlags) (visible : Visible) (value : string) : string :=
  if is_visible flags visible then value else EmptyString.

Module PromptElement.
Record t := {
  _visible : Visible;
  _prompt : string;
  _abstract_ex : string;
  _concrete_ex : string
}.

Definition prompt (flags : ObsFlags) (self : t) : string :=
  _hide flags (_visible self) (_prompt self).
Definition abstract_ex (flags : ObsFlags) (self : t) : string :=
  _hide flags (_visible self) (_abstract_ex self).
Definition concrete_ex (flags : ObsFlags) (self : t) : string :=
  _hide flags (_visible self) (_concrete_ex self).
End PromptElement.

(** [Error(error, visible, prefix)]. *)
Definition Error (error : string) (visible : Visible) (prefix : string)
  : PromptElement.t :=
  {| PromptElement._visible := visible;
     PromptElement._prompt :=
       nl +:+ prefix +:+ "Error from previous action:" +:+ nl +:+ error +:+ nl;
     PromptElement._abstract_ex := EmptyString;
     PromptElement._concrete_ex := EmptyString |}.

(** ** dynamic_prompting.py: Trunkater *)

(** The default [shrink_speed], [0.3]: the binary64 number nearest to 3/10. *)
Definition default_shrink_speed : float := 0x1.3333333333333p-2.

Module Trunkater.
Record t := {
  _visible : Visible;
  _prompt : string;
  shrink_speed : float;
  start_trunkate_iteration : Z;
  shrink_calls : Z;
  deleted_lines : Z
}.

(** [Trunkater.__init__]; [_prompt] is the class attribute until a subclass
    sets it. *)
Definition init (visible : Visible) (shrink_speed : float)
    (start_trunkate_iteration : Z) : t :=
  {| _visible := visible; _prompt := EmptyString;
     shrink_speed := shrink_speed;
     start_trunkate_iteration := start_trunkate_iteration;
     shrink_calls := 0; deleted_lines := 0 |}.

Definition set_prompt (self : t) (p : string) : t :=
  {| _visible := _visible self; _prompt := p;
     shrink_speed := shrink_speed self;
     start_trunkate_iteration := start_trunkate_iteration self;
     shrink_calls := shrink_calls self; deleted_lines := deleted_lines self |}.

(** [int(len(lines) * (1 - self.shrink_speed))], for [n] lines. *)
Definition new_line_count (n : Z) (shrink_speed : float) : result Z :=
  int_of_float (float_of_int n * (1 - shrink_speed))%float.

(** What a truncating call appends to the kept lines. *)
Definition marker (deleted_lines : Z) : string :=
  nl +:+ "... Deleted " +:+ str_of_Z deleted_lines
  +:+ " lines to reduce prompt size.".

(** [Trunkater.shrink]: the object after the call.  [int] is the one
    operation that can raise, and it comes before any assignment: a call
    that raises leaves the object as it was. *)
Definition shrink (flags : ObsFlags) (self : t) : result t :=
  if is_visible flags (_visible self)
     && (start_trunkate_iteration self <=? shrink_calls self)
  then
    let lines := splitlines (_prompt self) in
    new_line_count ←
      new_line_count (Z.of_nat (length lines)) (shrink_speed self);
    let deleted_lines :=
      deleted_lines self + (Z.of_nat (length lines) - new_line_count) in
    Ok {| _visible := _visible self;
          _prompt :=
            str_join nl (slice_to lines new_line_count) +:+ marker deleted_lines;
          shrink_speed := shrink_speed self;
          start_trunkate_iteration := start_trunkate_iteration self;
          shrink_calls := shrink_calls self + 1;
          deleted_lines := deleted_lines |}
  else
    Ok {| _visible := _visible self; _prompt := _prompt self;
          shrink_speed := shrink_speed self;
          start_trunkate_iteration := start_trunkate_iteration self;
          shrink_calls := shrink_calls self + 1;
          deleted_lines := deleted_lines self |}.

Definition prompt (flags : ObsFlags) (self : t) : string :=
  _hide flags (_visible self) (_prompt self).
Definition abstract_ex (flags : ObsFlags) (self : t) : string :=
  _hide flags (_visible self) EmptyString.
Definition concrete_ex (flags : ObsFlags) (self : t) : string :=
  _hide flags (_visible self) EmptyString.
End Trunkater.

Definition visible_elements_note (visible_elements_only : bool) : string :=
  if visible_elements_only then
    "Note: only elements that are visible in the viewport are presented. You might need to sroll the page, or open tabs or menus to see more."
    +:+ nl +:+ nl
  else EmptyString.

(** [HTML(html, visible_elements_only, visible, prefix)]. *)
Definition HTML (html : string) (visible_elements_only : bool)
    (visible : Visible) (prefix : string) : Trunkater.t :=
  Trunkater.set_prompt (Trunkater.init visible default_shrink_speed 5)
    (nl +:+ prefix +:+ "HTML:" +:+ nl
     +:+ visible_elements_note visible_elements_only +:+ html +:+ nl).

Definition coord_note (coord_type : string) : string :=
  if String.eqb coord_type "center" then
    "Note: center coordinates are provided in parenthesis and are relative to the top left corner of the page."
    +:+ nl +:+ nl
  else if String.eqb coord_type "box" then
    "Note: bounding box of each object are provided in parenthesis and are relative to the top left corner of the page."
    +:+ nl +:+ nl
  else EmptyString.

(** [AXTree(ax_tree, visible_elements_only, visible, coord_type, prefix)]. *)
Definition AXTree (ax_tree : string) (visible_elements_only : bool)
    (visible : Visible) (coord_type : string) (prefix : string) : Trunkater.t :=
  Trunkater.set_prompt (Trunkater.init visible default_shrink_speed 10)
    (nl +:+ prefix +:+ "AXTree:" +:+ nl +:+ coord_note coord_type
     +:+ visible_elements_note visible_elements_only +:+ ax_tree +:+ nl).

(** ** dynamic_prompting.py: fit_tokens *)

(** A part of a structured prompt: [{"type": "text", "text": ...}], or a part
    of another type (an image reference). *)
Inductive part :=
| TextPart (text : string)
| ImagePart (image_url : string).

(** What [shrinkable.prompt] is: a [str], a [list] of parts, or an object of
    another type. *)
Inductive fragment :=
| FStr (s : string)
| FList (parts : list part)
| FOther.

(** [[p["text"] for p in prompt if p["type"] == "text"]]. *)
Fixpoint text_parts (parts : list part) : list string :=
  match parts with
  | [] => []
  | TextPart text :: rest => text :: text_parts rest
  | ImagePart _ :: rest => text_parts rest
  end.

(** [prompt_str] of [fit_tokens]. *)
Definition prompt_str_of (prompt : fragment) : result string :=
  match prompt with
  | FStr s => Ok s
  | FList parts => Ok (str_join nl (text_parts parts))
  | FOther => Raise ValueError
  end.

(** The root handed to [fit_tokens]: any object with a [prompt] property and
    a [shrink] method, both over its state [E]. *)
Record Shrinkable (E : Type) := {
  prompt : E -> fragment;
  shrink : E -> result E
}.
Arguments prompt {E}.
Arguments shrink {E}.

(** The default of [count_tokens(text, model="openai/gpt-4")]. *)
Definition default_model : string := "openai/gpt-4".

(** The message [fit_tokens] logs when the loop runs out. *)
Definition fit_diagnostic (max_iterations n_token max_prompt_tokens : Z) : string :=
  "After " +:+ str_of_Z max_iterations
  +:+ " shrink iterations, the prompt is still" +:+ nl
  +:+ str_of_Z n_token +:+ " tokens (greater than "
  +:+ str_of_Z max_prompt_tokens +:+ "). Returning the prompt as is.".

(** What a call of [fit_tokens] yields: the value returned or the exception
    raised, the root's state afterwards, the number of [shrink] calls made,
    and the diagnostics logged. *)
Record fit_outcome (E : Type) := FitOutcome {
  fit_value : result fragment;
  fit_state : E;
  fit_shrink_calls : Z;
  fit_logged : list string
}.
Arguments FitOutcome {E}.
Arguments fit_value {E}.
Arguments fit_state {E}.
Arguments fit_shrink_calls {E}.
Arguments fit_logged {E}.

(** How the [for] loop of [fit_tokens] ends: by its [return], by an
    exception, or by running out, with the last values of [prompt] and
    [prompt_str] if any were bound. *)
Inductive fit_exit :=
| FitReturn (prompt : fragment)
| FitRaise (e : exn)
| FitExhausted (last : option (fragment * string)).

Section FitTokens.
Context {E : Type}.
(** [count_tokens(text, model)]: the tokenizer is outside the repository. *)
Variable count_tokens : string -> string -> Z.
Variable shrinkable : Shrinkable E.

Fixpoint fit_loop (iterations : nat) (max_prompt_tokens : Z)
    (model_name : string) (st : E) (last : option (fragment * string))
    (calls : Z) : fit_exit * E * Z :=
  match iterations with
  | O => (FitExhausted last, st, calls)
  | S iterations' =>
      let prompt := prompt shrinkable st in
      match prompt_str_of prompt with
      | Raise e => (FitRaise e, st, calls)
      | Ok prompt_str =>
          let n_token := count_tokens prompt_str model_name in
          if n_token <=? max_prompt_tokens then (FitReturn prompt, st, calls)
          else
            match shrink shrinkable st with
            | Raise e => (FitRaise e, st, calls + 1)
            | Ok st' =>
                fit_loop iterations' max_prompt_tokens model_name
                  st' (Some (prompt, prompt_str)) (calls + 1)
            end
      end
  end.

Definition fit_tokens (st : E) (max_prompt_tokens : option Z)
    (max_iterations : Z) (model_name : string) : fit_outcome E :=
  match max_prompt_tokens with
  | None => FitOutcome (Ok (prompt shrinkable st)) st 0 []
  | Some max_prompt_tokens =>
      match fit_loop (Z.to_nat max_iterations) max_prompt_tokens model_name
              st None 0 with
      | (FitReturn prompt, st', calls) => FitOutcome (Ok prompt) st' calls []
      | (FitRaise e, st', calls) => FitOutcome (Raise e) st' calls []
      | (FitExhausted (Some (prompt, prompt_str)), st', calls) =>
          FitOutcome (Ok prompt) st' calls
            [fit_diagnostic max_iterations
               (count_tokens prompt_str default_model) max_prompt_tokens]
      | (FitExhausted None, st', calls) =>
          (* [prompt_str] is read in the message before it was ever bound *)
          FitOutcome (Raise UnboundLocalError) st' calls []
      end
  end.
End FitTokens.

(** ** dynamic_prompting.py: diff and Diff *)

(** [len(x)] where [x] may be [None]. *)
Definition len_opt (x : option string) : result Z :=
  match x with
  | Some s => Ok (len s)
  | None => Raise TypeError
  end.

(** [x.splitlines()] where [x] may be [None]. *)
Definition splitlines_opt (x : option string) : result (list string) :=
  match x with
  | Some s => Ok (splitlines s)
  | None => Raise AttributeError
  end.

(** [x is None]. *)
Definition is_None {A} (x : option A) : bool :=
  match x with
  | None => true
  | Some _ => false
  end.

(** [previous == new] on values that are a [str] or [None]. *)
Definition py_eq (x y : option string) : bool :=
  match x, y with
  | Some a, Some b => String.eqb a b
  | None, None => true
  | _, _ => false
  end.

(** The loop of [diff] over the lines of the delta: the kept lines and the two
    counters. *)
Fixpoint diff_scan (diff_gen : list string) (diff_lines : list string)
    (plus_count minus_count : Z) : list string * Z * Z :=
  match diff_gen with
  | [] => (diff_lines, plus_count, minus_count)
  | line :: rest =>
      if startswith (strip line) "+" then
        diff_scan rest (diff_lines ++ [line]) (plus_count + 1) minus_count
      else if startswith (strip line) "-" then
        diff_scan rest (diff_lines ++ [line]) plus_count (minus_count + 1)
      else diff_scan rest diff_lines plus_count minus_count
  end.

Definition diff_header (plus_count minus_count : Z) : string :=
  str_of_Z plus_count +:+ " lines added and " +:+ str_of_Z minus_count
  +:+ " lines removed:".

Section DiffFunction.
(** [difflib.ndiff(a, b)], as the list it generates: the Python standard
    library is outside the repository. *)
Variable ndiff : list string -> list string -> list string.

Definition diff (previous new : option string) : result (string * list string) :=
  if py_eq previous new then Ok ("Identical", [])
  else
    n ← len_opt previous;
    if (n =? 0) || is_None previous then Ok ("previous is empty", [])
    else
      a ← splitlines_opt previous;
      b ← splitlines_opt new;
      let '(diff_lines, plus_count, minus_count) := diff_scan (ndiff a b) [] 0 0 in
      Ok (diff_header plus_count minus_count, diff_lines).
End DiffFunction.

Module Diff.
Record t := {
  _visible : Visible;
  max_line_diff : Z;
  header : string;
  diff_lines : list string;
  shrink_speed : Z;
  prefix : string
}.

(** [Diff.__init__]; it raises what [diff] raises. *)
Definition init (ndiff : list string -> list string -> list string)
    (previous new : option string) (prefix : string) (max_line_diff : Z)
    (shrink_speed : Z) (visible : Visible) : result t :=
  '(header, diff_lines) ← diff ndiff previous new;
  Ok {| _visible := visible; max_line_diff := max_line_diff;
        header := header; diff_lines := diff_lines;
        shrink_speed := shrink_speed; prefix := prefix |}.

Definition shrink (self : t) : t :=
  {| _visible := _visible self;
     max_line_diff := Z.max 1 (max_line_diff self - shrink_speed self);
     header := header self; diff_lines := diff_lines self;
     shrink_speed := shrink_speed self; prefix := prefix self |}.

Definition truncation_notice (hidden : Z) : string :=
  nl +:+ "Diff truncated, " +:+ str_of_Z hidden +:+ " changes now shown.".

Definition diff_str (self : t) : string :=
  let diff_str := str_join nl (slice_to (diff_lines self) (max_line_diff self)) in
  if max_line_diff self <? Z.of_nat (length (diff_lines self)) then
    let original_count := Z.of_nat (length (diff_lines self)) in
    diff_str +:+ truncation_notice (original_count - max_line_diff self)
  else diff_str.

Definition _prompt (self : t) : string :=
  prefix self +:+ header self +:+ nl +:+ diff_str self +:+ nl.

Definition prompt (flags : ObsFlags) (self : t) : string :=
  _hide flags (_visible self) (_prompt self).
Definition abstract_ex (flags : ObsFlags) (self : t) : string :=
  _hide flags (_visible self) EmptyString.
Definition concrete_ex (flags : ObsFlags) (self : t) : string :=
  _hide flags (_visible self) EmptyString.
End Diff.

(** ** dynamic_prompting.py: the composites *)

(** [Observation]: the constructor builds the four children from the
    observation and the flags; the record holds them. *)
Module Observation.
Record t := {
  _visible : Visible;
  html : Trunkater.t;
  ax_tree : Trunkater.t;
  error : PromptElement.t;
  focused_element : PromptElement.t
}.

Definition shrink (flags : ObsFlags) (self : t) : result t :=
  ax_tree ← Trunkater.shrink flags (ax_tree self);
  html ← Trunkater.shrink flags (html self);
  Ok {| _visible := _visible self; html := html; ax_tree := ax_tree;
        error := error self; focused_element := focused_element self |}.

Definition _prompt (flags : ObsFlags) (self : t) : string :=
  nl +:+ "# Observation of current step:" +:+ nl
  +:+ Trunkater.prompt flags (html self)
  +:+ Trunkater.prompt flags (ax_tree self)
  +:+ PromptElement.prompt flags (focused_element self)
  +:+ PromptElement.prompt flags (error self)
  +:+ nl +:+ nl.

Definition prompt (flags : ObsFlags) (self : t) : string :=
  _hide flags (_visible self) (_prompt flags self).
Definition abstract_ex (flags : ObsFlags) (self : t) : string :=
  _hide flags (_visible self) EmptyString.
Definition concrete_ex (flags : ObsFlags) (self : t) : string :=
  _hide flags (_visible self) EmptyString.
End Observation.

Module HistoryStep.
Record t := {
  _visible : Visible;
  html_diff : Diff.t;
  ax_tree_diff : Diff.t;
  error : PromptElement.t;
  shrink_speed : Z;
  action : string;
  memory : option string;
  thought : string
}.

(** [super().shrink()] runs the empty body of [Shrinkable.shrink]. *)
Definition shrink (self : t) : t :=
  let html_diff := Diff.shrink (html_diff self) in
  let ax_tree_diff := Diff.shrink (ax_tree_diff self) in
  {| _visible := _visible self; html_diff := html_diff;
     ax_tree_diff := ax_tree_diff; error := error self;
     shrink_speed := shrink_speed self; action := action self;
     memory := memory self; thought := thought self |}.

Definition _prompt (flags : ObsFlags) (self : t) : string :=
  let prompt := EmptyString in
  let prompt :=
    if use_think_history flags
    then prompt +:+ nl +:+ "### Think:" +:+ nl +:+ thought self +:+ nl
    else prompt in
  let prompt :=
    if use_action_history flags
    then prompt +:+ nl +:+ "### Action:" +:+ nl +:+ action self +:+ nl
    else prompt in
  let prompt :=
    prompt +:+ PromptElement.prompt flags (error self)
    +:+ Diff.prompt flags (html_diff self)
    +:+ Diff.prompt flags (ax_tree_diff self) in
  match memory self with
  | Some m => prompt +:+ nl +:+ "### Memory:" +:+ nl +:+ m +:+ nl
  | None => prompt
  end.

Definition prompt (flags : ObsFlags) (self : t) : string :=
  _hide flags (_visible self) (_prompt flags self).
Definition abstract_ex (flags : ObsFlags) (self : t) : string :=
  _hide flags (_visible self) EmptyString.
Definition concrete_ex (flags : ObsFlags) (self : t) : string :=
  _hide flags (_visible self) EmptyString.
End HistoryStep.

Module History.
Record t := {
  _visible : Visible;
  shrink_speed : Z;
  history_steps : list HistoryStep.t
}.

Definition shrink (self : t) : t :=
  {| _visible := _visible self; shrink_speed := shrink_speed self;
     history_steps := map HistoryStep.shrink (history_steps self) |}.

(** The entries appended for the steps from index [i] on. *)
Fixpoint step_prompts (flags : ObsFlags) (i : Z) (steps : list HistoryStep.t)
  : list string :=
  match steps with
  | [] => []
  | step :: rest =>
      ("## step " +:+ str_of_Z i) :: HistoryStep.prompt flags step
      :: step_prompts flags (i + 1) rest
  end.

Definition _prompt (flags : ObsFlags) (self : t) : string :=
  let prompts :=
    ("# History of interaction with the task:" +:+ nl)
    :: step_prompts flags 0 (history_steps self) in
  str_join nl prompts +:+ nl.

Definition prompt (flags : ObsFlags) (self : t) : string :=
  _hide flags (_visible self) (_prompt flags self).
Definition abstract_ex (flags : ObsFlags) (self : t) : string :=
  _hide flags (_visible self) EmptyString.
Definition concrete_ex (flags : ObsFlags) (self : t) : string :=
  _hide flags (_visible self) EmptyString.
End History.

(** ** Vocabulary of the statements *)

(** No character of [s] is a line boundary. *)
Fixpoint no_break (s : string) : bool :=
  match s with
  | EmptyString => true
  | String c rest => negb (is_linebreak c) && no_break rest
  end.

(** The line a truncating call appends. *)
Definition marker_line (deleted_lines : Z) : string :=
  "... Deleted " +:+ str_of_Z deleted_lines +:+ " lines to reduce prompt size.".

(** The number a finite float stands for. *)
Definition exact_value (x : float) : Q :=
  match Prim2SF x with
  | S754_finite sign m e =>
      let a := if 0 <=? e then inject_Z (Z.pos m * 2 ^ e)
               else Qmake (Z.pos m) (Z.to_pos (2 ^ (- e))) in
      if sign then Qopp a else a
  | _ => 0%Q
  end.

(** The speed takes lines off every prompt of up to [bound] lines: at least
    one when there is one, and no more than there are. *)
Definition truncates (bound : Z) (shrink_speed : float) : Prop :=
  forall n, 0 <= n <= bound ->
    exists k, Trunkater.new_line_count n shrink_speed = Ok k
              /\ 0 <= k <= n /\ (1 <= n -> k < n).

(** A Trunkater is well formed, for a bound of at least 2 lines, when its
    speed truncates up to the bound and its prompt has no more lines. *)
Definition Trunkater_wf (bound : Z) (t : Trunkater.t) : Prop :=
  2 <= bound
  /\ truncates bound (Trunkater.shrink_speed t)
  /\ Z.of_nat (length (splitlines (Trunkater._prompt t))) <= bound.

(** Whether the counts kept of [n], [n + 1], ... lines, [count] of them, are
    each the floor of 7/10 of the lines or one less, and not negative. *)
Fixpoint near_seven_tenths_from (count : nat) (n : Z) (shrink_speed : float)
  : bool :=
  match count with
  | O => true
  | S count' =>
      match Trunkater.new_line_count n shrink_speed with
      | Ok k =>
          (0 <=? k) && (7 * n / 10 - 1 <=? k) && (k <=? 7 * n / 10)
          && near_seven_tenths_from count' (n + 1) shrink_speed
      | Raise _ => false
      end
  end.

(** What the loop of [diff] computes: the delta lines that start, after
    stripping, with [+] or [-], and how many there are of each. *)
Definition is_plus (line : string) : bool := startswith (strip line) "+".
Definition is_minus (line : string) : bool :=
  negb (is_plus line) && startswith (strip line) "-".

(** A Diff is well formed when its speed is not negative and its ceiling is
    at least 1, as it is from the first call of [shrink] on. *)
Definition Diff_wf (d : Diff.t) : Prop :=
  0 <= Diff.shrink_speed d /\ 1 <= Diff.max_line_diff d.

(** The number of diff lines a Diff hides. *)
Definition Diff_hidden (d : Diff.t) : Z :=
  Z.of_nat (length (Diff.diff_lines d)) - Diff.max_line_diff d.

(** A history step is well formed when its two Diffs are. *)
Definition HistoryStep_wf (s : HistoryStep.t) : Prop :=
  Diff_wf (HistoryStep.html_diff s) /\ Diff_wf (HistoryStep.ax_tree_diff s).

(** The length of the truncation notices of a history step. *)
Definition HistoryStep_notices (s : HistoryStep.t) : nat :=
  (String.length
     (Diff.truncation_notice (Diff_hidden (HistoryStep.html_diff s)))
   + String.length
       (Diff.truncation_notice (Diff_hidden (HistoryStep.ax_tree_diff s))))%nat.

(** The length of the truncation notices of a history. *)
Definition History_notices (h : History.t) : nat :=
  list_sum (map HistoryStep_notices (History.history_steps h)).

(** [p] stands in [s] between [a] and [b], and nowhere further left. *)
Definition first_occurrence (p s a b : string) : Prop :=
  s = a +:+ p +:+ b
  /\ forall a' b', s = a' +:+ p +:+ b' -> (String.length a <= String.length a')%nat.

(** [p] stands nowhere in [s]. *)
Definition no_occurrence (p s : string) : Prop :=
  forall a b, s <> a +:+ p +:+ b.

(** The matches of the tag pair of [name] in [text]. *)
Definition findall_name (name text : string) : list string :=
  findall_tag (String.length text) (open_tag name) (close_tag name) text.

(** One turn of the loop of [extract_html_tags]. *)
Definition extract_step (text : string) (content_dict : gmap string (list string))
    (key : tag_key) : gmap string (list string) :=
  match re_findall_tag key text with
  | [] => content_dict
  | matches => <[key_name key := map strip matches]> content_dict
  end.

(** The messages a key adds, given the matches found for it. *)
Definition key_messages (optional_keys : list tag_key) (merge_multiple : bool)
    (found : option (list string)) (key : tag_key) : list string :=
  match found with
  | None =>
      if negb (key_in key optional_keys) then [missing_message key] else []
  | Some matches =>
      if (1 <? Z.of_nat (length matches)) && negb merge_multiple
      then [multiple_message key] else []
  end.

(** The value a key ends with, given its matches: the first, or all of them
    joined when there are several and they are to be merged. *)
Definition key_value (merge_multiple : bool) (matches : list string) : pyval :=
  match matches with
  | [] => PList []
  | first :: _ =>
      if (1 <? Z.of_nat (length matches)) && merge_multiple
      then PStr (str_join nl matches) else PStr first
  end.

(** The messages of [parse_html_tags], key by key. *)
Definition all_messages (text : string) (keys optional_keys : list tag_key)
    (merge_multiple : bool) : list string :=
  flat_map
    (fun k => key_messages optional_keys merge_multiple
                (extract_html_tags text (keys ++ optional_keys) !! key_name k) k)
    (keys ++ optional_keys).

(** [text] is made of tag pairs of [name] with the contents [contents], one
    after the other: each opening tag is the leftmost in what is left of the
    text, each closing tag the nearest behind its opening tag, and no opening
    tag follows the last pair. *)
Inductive tagged (name : string) : list string -> string -> Prop :=
| tagged_end text :
    no_occurrence (open_tag name) text -> tagged name [] text
| tagged_pair text pre rest inner post contents :
    first_occurrence (open_tag name) text pre rest ->
    first_occurrence (close_tag name) rest inner post ->
    tagged name contents post ->
    tagged name (inner :: contents) text.

(** One more turn when the value was parsed. *)
Definition reply_kept {V} (r : result V) : Z :=
  match r with
  | Ok _ => 1
  | Raise _ => 0
  end.

Section RetryVocabulary.
Context {F W V : Type} `{Number F}.
Variable chat : list message -> W -> reply * W.
Variable n_retry : Z.
Variable parser : string -> W -> (V * bool * string) * W.
Variable min_retry_wait_time : F.
Variable rate_limit_max_wait_time : F.

(** The condition of the [while] loop. *)
Definition retry_guard (st : retry_state F W) : bool :=
  (tries st <? n_retry)
  && num_lt (rate_limit_total_delay st) rate_limit_max_wait_time.

(** The state after a rate-limit error with text [e]. *)
Definition after_rate_limit (st : retry_state F W) (e : string) (w1 : W)
  : retry_state F W :=
  let wait_time := _extract_wait_time e min_retry_wait_time in
  RetryState (tries st) (num_add (rate_limit_total_delay st) wait_time)
    (messages st) w1 (slept st ++ [wait_time]) (invocations st + 1).

(** The state after a reply that did not parse. *)
Definition after_parse_failure (st : retry_state F W) (answer : message)
    (retry_message : string) (w2 : W) : retry_state F W :=
  RetryState (tries st + 1) (rate_limit_total_delay st)
    (messages st ++ [answer; HumanMessage retry_message]) w2
    (slept st) (invocations st + 1).

(** The state after a reply that parsed. *)
Definition after_success (st : retry_state F W) (answer : message) (w2 : W)
  : retry_state F W :=
  RetryState (tries st) (rate_limit_total_delay st) (messages st ++ [answer])
    w2 (slept st) (invocations st + 1).

(** The endpoint always answers. *)
Definition always_answers : Prop :=
  forall ms w, exists answer w', chat ms w = (Answer answer, w').

(** The parser rejects every reply. *)
Definition always_fails : Prop :=
  forall s w, exists value retry_message w',
    parser s w = (value, false, retry_message, w').
End RetryVocabulary.

(** Splits a conjunction of seven. *)
Ltac split7 :=
  split; [|split; [|split; [|split; [|split; [|split]]]]].

(** ** Sequences of calls *)

(** A sequence of [shrink] calls on a Trunkater, each under the flags current
    at the call. *)
Fixpoint Trunkater_shrinks (calls : list ObsFlags) (t : Trunkater.t)
  : result Trunkater.t :=
  match calls with
  | [] => Ok t
  | flags :: rest => t' ← Trunkater.shrink flags t; Trunkater_shrinks rest t'
  end.

(** ** Inputs of the examples *)

(** The defaults of [ObsFlags]. *)
Definition default_flags : ObsFlags :=
  {| use_html := true; use_ax_tree := false; use_focused_element := false;
     use_error_logs := false; use_history := false;
     use_past_error_logs := false; use_action_history := false;
     use_think_history := false; use_diff := false;
     html_type := "pruned_html"; use_screenshot := true; use_som := false;
     extract_visible_tag := false; extract_clickable_tag := false;
     extract_coords := "False"; filter_visible_elements_only := false |}.

(** The longest common head of two lists, and what is left of each. *)
Fixpoint common_head (a b : list string) : list string * list string * list string :=
  match a, b with
  | x :: a', y :: b' =>
      if String.eqb x y then
        let '(h, ra, rb) := common_head a' b' in (x :: h, ra, rb)
      else ([], a, b)
  | _, _ => ([], a, b)
  end.

(** A plain line differ in the output format of [difflib.ndiff], standing in
    for it in examples: the common head and the common tail are kept, the
    lines between them are removed, then added. *)
Definition ndiff_plain (a b : list string) : list string :=
  let '(h, ra, rb) := common_head a b in
  let '(t, ma, mb) := common_head (rev ra) (rev rb) in
  map (String.append "  ") h
  ++ map (String.append "- ") (rev ma)
  ++ map (String.append "+ ") (rev mb)
  ++ map (String.append "  ") (rev t).

Definition abc : string := "a" +:+ nl +:+ "b" +:+ nl +:+ "c".
Definition axc : string := "a" +:+ nl +:+ "x" +:+ nl +:+ "c".

(** A prompt of 20 lines, and a Trunkater that holds it, visible and past its
    grace period. *)
Definition twenty_lines : string :=
  str_join nl ["1"; "2"; "3"; "4"; "5"; "6"; "7"; "8"; "9"; "10"; "11"; "12";
               "13"; "14"; "15"; "16"; "17"; "18"; "19"; "20"].

Definition trunkater20 : Trunkater.t :=
  Trunkater.set_prompt (Trunkater.init (VBool true) default_shrink_speed 0)
    twenty_lines.

(** The lines [1] to [n]. *)
Definition numbered_lines (n : nat) : string :=
  str_join nl (map (fun i => str_of_Z (Z.of_nat i)) (seq 1 n)).

(** A Trunkater that holds 90 lines, visible and past its grace period. *)
Definition trunkater90 : Trunkater.t :=
  Trunkater.set_prompt (Trunkater.init (VBool true) default_shrink_speed 0)
    (numbered_lines 90).

(** A Trunkater of two lines with the speed [-1.0]. *)
Definition growing_trunkater : Trunkater.t :=
  Trunkater.set_prompt (Trunkater.init (VBool true) (-1)%float 0)
    (numbered_lines 2).

(** The HTML element of a small page, and what it is after the five calls of
    its grace period. *)
Definition fresh_html : Trunkater.t :=
  HTML "<p>hi</p>" false (VCallable use_html) "## ".

Definition small_html : Trunkater.t :=
  {| Trunkater._visible := Trunkater._visible fresh_html;
     Trunkater._prompt := Trunkater._prompt fresh_html;
     Trunkater.shrink_speed := Trunkater.shrink_speed fresh_html;
     Trunkater.start_trunkate_iteration := 5;
     Trunkater.shrink_calls := 5;
     Trunkater.deleted_lines := 0 |}.

(** A root that is a text, rendered as it is, which [shrink] leaves alone;
    and a tokenizer that counts characters. *)
Definition text_root : Shrinkable string :=
  {| prompt := FStr; shrink := Ok |}.

Definition count_characters (text model : string) : Z := len text.

(** A Diff of three changed lines, all shown. *)
Definition small_diff : Diff.t :=
  {| Diff._visible := VBool true; Diff.max_line_diff := 3;
     Diff.header := "2 lines added and 1 lines removed:";
     Diff.diff_lines := ["+ x"; "- y"; "+ z"];
     Diff.shrink_speed := 2; Diff.prefix := EmptyString |}.

(** The key [action]. *)
Definition action_key : tag_key := TagKey "action" eq_refl.

(** The key [think]. *)
Definition think_key : tag_key := TagKey "think" eq_refl.

(** An endpoint that reads its replies off a script; its state is the number
    of calls made so far. *)
Definition scripted_chat (script : list reply) (ms : list message) (calls : nat)
  : reply * nat :=
  (nth calls script (Answer (Message AI EmptyString)), S calls).

(** A parser for [retry] made of [parse_html_tags] with the key [action]. *)
Definition action_parser (text : string) (w : nat)
  : (gmap string pyval * bool * string) * nat :=
  match parse_html_tags text [action_key] [] false with
  | Ok r => (r, w)
  | Raise _ => ((∅, false, EmptyString), w)
  end.

(** Three replies: one without the tag, one with the tag twice, one as asked. *)
Definition reply_without_tag : message := Message AI "I will click the button.".
Definition reply_with_two_tags : message :=
  Message AI "<action>click</action><action>scroll</action>".
Definition reply_as_asked : message := Message AI "<action>click</action>".

Definition three_replies : list reply :=
  [Answer reply_without_tag; Answer reply_with_two_tags; Answer reply_as_asked].

Definition first_turn : list message := [HumanMessage "What next?"].

(** * More of the code *)

From Stdlib Require Import Lqa.

(** ** llm_utils.py: retry_raise *)

Section RetryRaise.
(** As for [retry]; here the parser returns the parsed value or raises, and
    [str] of a [ParseError] it raises is the text the exception carries. *)
Context {F W V : Type} `{Number F}.
Variable chat : list message -> W -> reply * W.
Variable n_retry : Z.
Variable parser : string -> W -> result V * W.
Variable min_retry_wait_time : F.
Variable rate_limit_max_wait_time : F.

(** The [while] loop of [retry_raise]; [fuel] bounds the number of
    iterations. *)
Fixpoint retry_raise_loop (fuel : nat) (st : retry_state F W)
  : option (result V * retry_state F W) :=
  match fuel with
  | O => None
  | S fuel' =>
      if (tries st <? n_retry)
         && num_lt (rate_limit_total_delay st) rate_limit_max_wait_time
      then
        let (r, w1) := chat (messages st) (world st) in
        match r with
        | RateLimited e =>
            let wait_time := _extract_wait_time e min_retry_wait_time in
            let st1 :=
              RetryState (tries st)
                (num_add (rate_limit_total_delay st) wait_time)
                (messages st) w1
                (slept st ++ [wait_time]) (invocations st + 1) in
            if num_ge (rate_limit_total_delay st1) rate_limit_max_wait_time
            then Some (Raise (RateLimitError e), st1)
            else retry_raise_loop fuel' st1
        | Answer answer =>
            let msgs := messages st ++ [answer] in
            let (parsed, w2) := parser (content answer) w1 in
            match parsed with
            | Ok value =>
                Some (Ok value,
                      RetryState (tries st) (rate_limit_total_delay st) msgs w2
                        (slept st) (invocations st + 1))
            | Raise (ParseError parsing_error) =>
                retry_raise_loop fuel'
                  (RetryState (tries st + 1) (rate_limit_total_delay st)
                     (msgs ++ [HumanMessage parsing_error]) w2
                     (slept st) (invocations st + 1))
            | Raise e =>
                Some (Raise e,
                      RetryState (tries st) (rate_limit_total_delay st) msgs w2
                        (slept st) (invocations st + 1))
            end
        end
      else Some (Raise (retry_error n_retry), st)
  end.

Definition retry_raise (fuel : nat) (messages : list message) (w : W)
  : option (result V * retry_state F W) :=
  retry_raise_loop fuel (retry_init messages w).
End RetryRaise.

(** The parser in the style of [retry_raise] that does what a parser in the
    style of [retry] does: it returns the value when it is valid and raises a
    [ParseError] with the retry message when it is not. *)
Definition raising {W V} (parser : string -> W -> (V * bool * string) * W)
    (text : string) (w : W) : result V * W :=
  let '(value, valid, retry_message, w') := parser text w in
  (if valid : bool then Ok value else Raise (ParseError retry_message), w').

(** The endpoint raises a rate-limit error with the text [e] at every
    call. *)
Definition always_rate_limited {W} (chat : list message -> W -> reply * W)
    (e : string) : Prop :=
  forall ms w, exists w', chat ms w = (RateLimited e, w').

(** An endpoint that is rate limited at every call, with a text that names no
    duration. *)
Definition busy_chat (ms : list message) (calls : nat) : reply * nat :=
  (RateLimited "Rate limit reached.", S calls).

(** The parser of [retry_raise] made of [parse_html_tags_raise] with the key
    [action]. *)
Definition action_parser_r (text : string) (w : nat)
  : result (gmap string pyval) * nat :=
  (parse_html_tags_raise text [action_key] [] false, w).

(** ** Vocabulary: the wait hint *)

(** [s] is a run of one or more decimal digits: what [\d+] matches, below
    code point 256. *)
Definition is_digits (s : string) : bool :=
  negb (String.eqb s EmptyString)
  && forallb is_digit (list_ascii_of_string s).

(** A text [digits] or [digits.digits]: what [(\d+(\.\d+)?)] matches. *)
Inductive decimal_text : string -> Prop :=
| decimal_whole ip : is_digits ip = true -> decimal_text ip
| decimal_point ip fp :
    is_digits ip = true -> is_digits fp = true ->
    decimal_text (ip +:+ "." +:+ fp).

(** What [try again in (\d+(\.\d+)?)s] matches, for the group [g]. *)
Definition wait_hint (g : string) : string := "try again in " +:+ g +:+ "s".

(** ** Vocabulary: the ends of a text *)

Definition first_char (s : string) : option ascii :=
  match s with
  | EmptyString => None
  | String c _ => Some c
  end.

Fixpoint last_char (s : string) : option ascii :=
  match s with
  | EmptyString => None
  | String c EmptyString => Some c
  | String _ rest => last_char rest
  end.

(** No white space at either end: what [str.strip] leaves. *)
Definition stripped (s : string) : Prop :=
  (forall c, first_char s = Some c -> is_space c = false)
  /\ (forall c, last_char s = Some c -> is_space c = false).

(** ** dynamic_prompting.py: the parsers of the prompt elements *)

(** The exceptions of the interpreter met below that [exn] does not name. *)
Inductive exc :=
| Exn (e : exn)
| KeyError (key : string)
| AssertionError
| RecursionError.

Inductive outcome (A : Type) :=
| Returns (a : A)
| Raises (e : exc).
Arguments Returns {A} a.
Arguments Raises {A} e.

#[global] Instance outcome_ret : MRet outcome := fun A a => Returns a.
#[global] Instance outcome_bind : MBind outcome := fun A B k r =>
  match r with
  | Returns a => k a
  | Raises e => Raises e
  end.

(** What a computation that raises an [exn] only is as an [outcome]. *)
Definition of_result {A} (r : result A) : outcome A :=
  match r with
  | Ok a => Returns a
  | Raise e => Raises (Exn e)
  end.

(** [PromptElement._parse_answer]: on a visible element the method calls
    itself.  [depth] is the number of calls the interpreter still allows
    before it raises [RecursionError]. *)
Fixpoint PromptElement_parse_answer (depth : nat) (flags : ObsFlags)
    (self : PromptElement.t) (text_answer : string)
  : outcome (gmap string pyval) :=
  match depth with
  | O => Raises RecursionError
  | S depth' =>
      if is_visible flags (PromptElement._visible self)
      then PromptElement_parse_answer depth' flags self text_answer
      else Returns ∅
  end.

Module Think.
(** [Think._parse_answer]. *)
Definition _parse_answer (text_answer : string) : result (gmap string pyval) :=
  parse_html_tags_raise text_answer [] [think_key] true.
End Think.

Module ActionSpace.
(** The text of the [ParseError] raised for an action that cannot be mapped
    to code, [e] being [str] of the exception met. *)
Definition parsing_error_message (e : string) : string :=
  "Error while parsing action" +:+ nl +:+ ": " +:+ e +:+ nl
  +:+ "Make sure your answer is restricted to the allowed actions.".

Section ParseAnswer.
(** [self.action_set.to_python_code(action)], of a class outside the
    repository: [None] when it returns, and [str(e)] for the exception [e],
    an [Exception], when it raises. *)
Variable to_python_code : pyval -> option string.

(** [ActionSpace._parse_answer]; a [KeyError] of [ans_dict["action"]] would
    be caught with the rest, [str] of it being the quoted key. *)
Definition _parse_answer (text_answer : string) : result (gmap string pyval) :=
  ans_dict ← parse_html_tags_raise text_answer [action_key] [] true;
  match ans_dict !! "action" with
  | None => Raise (ParseError (parsing_error_message "'action'"))
  | Some action =>
      match to_python_code action with
      | Some e => Raise (ParseError (parsing_error_message e))
      | None => Ok ans_dict
      end
  end.
End ParseAnswer.
End ActionSpace.

(** ** llm_utils.py: extract_code_blocks *)

Definition in_range (lo hi n : nat) : bool := ((lo <=? n) && (n <=? hi))%nat.

(** [\w] on one character below code point 256: the digits, the letters and
    the underscore of ASCII, and the letters and numerals of Latin-1. *)
Definition is_word (c : ascii) : bool :=
  let n := nat_of_ascii c in
  in_range 48 57 n || in_range 65 90 n || (n =? 95)%nat || in_range 97 122 n
  || (n =? 170)%nat || in_range 178 179 n || (n =? 181)%nat
  || in_range 185 186 n || in_range 188 190 n || in_range 192 214 n
  || in_range 216 246 n || in_range 248 255 n.

(** The longest prefix of word characters, and the rest: what a greedy [\w*]
    takes when a character that is no word character must follow. *)
Fixpoint span_word (s : string) : string * string :=
  match s with
  | EmptyString => (EmptyString, EmptyString)
  | String c rest =>
      if is_word c then
        let (ws, r) := span_word rest in (String c ws, r)
      else (EmptyString, s)
  end.

Definition fence : string := "```".

(** The pattern of [extract_code_blocks], with [re.DOTALL], at the start of
    [s]: a fence, a greedy group of word characters, a line feed, a lazy
    group of any characters, a fence.  The two groups, and what follows the
    match. *)
Definition match_code_block (s : string) : option (string * string * string) :=
  match strip_prefix fence s with
  | None => None
  | Some r =>
      let (lang, r1) := span_word r in
      match r1 with
      | EmptyString => None
      | String c r2 =>
          if Ascii.eqb c (ascii_of_nat 10) then
            match str_find fence r2 with
            | Some (body, r3) => Some (lang, body, r3)
            | None => None
            end
          else None
      end
  end.

(** [pattern.findall(text)]: a match at the start, and on from behind it; or
    on from the next character. *)
Fixpoint findall_code_blocks (fuel : nat) (text : string)
  : list (string * string) :=
  match fuel with
  | O => []
  | S fuel' =>
      match match_code_block text with
      | Some (lang, body, rest) => (lang, body) :: findall_code_blocks fuel' rest
      | None =>
          match text with
          | EmptyString => []
          | String _ rest => findall_code_blocks fuel' rest
          end
      end
  end.

Definition extract_code_blocks (text : string) : list (string * string) :=
  map (fun m : string * string => (fst m, strip (snd m)))
    (findall_code_blocks (String.length text) text).

(** ** Vocabulary: code blocks *)

Definition is_words (s : string) : bool :=
  forallb is_word (list_ascii_of_string s).

Definition is_spaces (s : string) : bool :=
  forallb is_space (list_ascii_of_string s).

(** [text] holds the block: a fence, [lang], a line feed, [body] within
    white space, and a fence. *)
Definition code_block_in (text lang body : string) : Prop :=
  exists pre a b post,
    text = pre +:+ fence +:+ lang +:+ nl +:+ a +:+ body +:+ b +:+ fence +:+ post
    /\ is_spaces a = true /\ is_spaces b = true.

(** ** dynamic_prompting.py: the constructors of the composites *)

(** An observation: a [dict] with [str] keys, whose values read here are a
    [str] or [None]. *)
Definition obs_dict := gmap string (option string).

(** [obs[key]]. *)
Definition getitem (obs : obs_dict) (key : string) : outcome (option string) :=
  match obs !! key with
  | Some v => Returns v
  | None => Raises (KeyError key)
  end.

(** [xs[i]] for an index that is not negative. *)
Definition getindex {A} (xs : list A) (i : nat) : outcome A :=
  match xs !! i with
  | Some x => Returns x
  | None => Raises (Exn IndexError)
  end.

(** A value in an f-string. *)
Definition format (v : option string) : string :=
  match v with
  | Some s => s
  | None => "None"
  end.

(** The truth value of a [str] or [None]. *)
Definition truth (v : option string) : bool :=
  match v with
  | Some s => negb (String.eqb s EmptyString)
  | None => false
  end.

Section Constructors.
(** [difflib.ndiff] and the builtin [repr] on a [str]. *)
Variable ndiff : list string -> list string -> list string.
Variable repr : string -> string.

(** [FocusedElement(bid, visible, prefix)]. *)
Definition FocusedElement (bid : option string) (visible : Visible)
    (prefix : string) : PromptElement.t :=
  {| PromptElement._visible := visible;
     PromptElement._prompt :=
       nl +:+ prefix +:+ "Focused element:" +:+ nl
       +:+ (if truth bid then "bid=" +:+ repr (format bid) +:+ nl
            else "None" +:+ nl);
     PromptElement._abstract_ex := EmptyString;
     PromptElement._concrete_ex := EmptyString |}.

(** [Observation.__init__]: the element built from [obs] and [flags].  The
    callables read the flags at each access; [flags.html_type],
    [flags.filter_visible_elements_only], [flags.extract_coords] and
    [flags.use_focused_element] are read once, here. *)
Definition Observation_init (obs : obs_dict) (flags : ObsFlags)
  : outcome Observation.t :=
  html ← getitem obs (html_type flags);
  ax_tree ← getitem obs "axtree_txt";
  error ← getitem obs "last_action_error";
  bid ← getitem obs "focused_element_bid";
  Returns
    {| Observation._visible := VBool true;
       Observation.html :=
         HTML (format html) (filter_visible_elements_only flags)
           (VCallable use_html) "## ";
       Observation.ax_tree :=
         AXTree (format ax_tree) (filter_visible_elements_only flags)
           (VCallable use_ax_tree) (extract_coords flags) "## ";
       Observation.error :=
         Error (format error)
           (VCallable (fun flags => use_error_logs flags && truth error)) "## ";
       Observation.focused_element :=
         FocusedElement bid (VBool (use_focused_element flags)) "## " |}.

(** [HistoryStep.__init__]; the two [Diff]s get the ceiling of 20 lines that
    [Diff.__init__] has by default. *)
Definition HistoryStep_init (previous_obs current_obs : obs_dict)
    (action : string) (memory : option string) (thought : string)
    (flags : ObsFlags) (shrink_speed : Z) : outcome HistoryStep.t :=
  previous_html ← getitem previous_obs (html_type flags);
  current_html ← getitem current_obs (html_type flags);
  html_diff ←
    of_result
      (Diff.init ndiff previous_html current_html
         (nl +:+ "### HTML diff:" +:+ nl) 20 shrink_speed
         (VCallable (fun flags => use_html flags && use_diff flags)));
  previous_ax_tree ← getitem previous_obs "axtree_txt";
  current_ax_tree ← getitem current_obs "axtree_txt";
  ax_tree_diff ←
    of_result
      (Diff.init ndiff previous_ax_tree current_ax_tree
         (nl +:+ "### Accessibility tree diff:" +:+ nl) 20 shrink_speed
         (VCallable (fun flags => use_ax_tree flags && use_diff flags)));
  error ← getitem current_obs "last_action_error";
  Returns
    {| HistoryStep._visible := VBool true;
       HistoryStep.html_diff := html_diff;
       HistoryStep.ax_tree_diff := ax_tree_diff;
       HistoryStep.error :=
         Error (format error)
           (VCallable (fun flags =>
                         use_error_logs flags && truth error
                         && use_past_error_logs flags))
           "### ";
       HistoryStep.shrink_speed := shrink_speed;
       HistoryStep.action := action;
       HistoryStep.memory := memory;
       HistoryStep.thought := thought |}.

Section HistoryInit.
Variable history_obs : list obs_dict.
Variable actions : list string.
Variable memories : list (option string).
Variable thoughts : list string.
Variable flags : ObsFlags.

(** The step appended at the turn [i] of the loop of [History.__init__]: no
    [shrink_speed] is passed on, the step takes its default, 1. *)
Definition History_step (i : nat) : outcome HistoryStep.t :=
  previous_obs ← getindex history_obs (i - 1);
  current_obs ← getindex history_obs i;
  action ← getindex actions (i - 1);
  memory ← getindex memories (i - 1);
  thought ← getindex thoughts (i - 1);
  HistoryStep_init previous_obs current_obs action memory thought flags 1.

Fixpoint History_loop (indices : list nat) (history_steps : list HistoryStep.t)
  : outcome (list HistoryStep.t) :=
  match indices with
  | [] => Returns history_steps
  | i :: rest =>
      step ← History_step i;
      History_loop rest (history_steps ++ [step])
  end.
End HistoryInit.

(** [History.__init__]; [memories] may be [None]. *)
Definition History_init (history_obs : list obs_dict) (actions : list string)
    (memories : option (list (option string))) (thoughts : list string)
    (flags : ObsFlags) (shrink_speed : Z) : outcome History.t :=
  let memories :=
    match memories with
    | None => repeat None (length actions)
    | Some memories => memories
    end in
  if negb (length history_obs =? length actions + 1)%nat
  then Raises AssertionError
  else if negb (length history_obs =? length memories + 1)%nat
  then Raises AssertionError
  else
    history_steps ←
      History_loop history_obs actions memories thoughts flags
        (seq 1 (length history_obs - 1)) [];
    Returns {| History._visible := VCallable use_history;
               History.shrink_speed := shrink_speed;
               History.history_steps := history_steps |}.
End Constructors.

(** The memories [History.__init__] works with. *)
Definition memories_of (actions : list string)
    (memories : option (list (option string))) : list (option string) :=
  match memories with
  | None => repeat None (length actions)
  | Some memories => memories
  end.

(** A sequence of [shrink] calls on an Observation, each under the flags
    current at the call. *)
Fixpoint Observation_shrinks (calls : list ObsFlags) (o : Observation.t)
  : result Observation.t :=
  match calls with
  | [] => Ok o
  | flags :: rest => o' ← Observation.shrink flags o; Observation_shrinks rest o'
  end.

(** Two observations of a page, before and after a click. *)
Definition page_before : obs_dict :=
  {[ "pruned_html" := Some "<p>one</p>";
     "axtree_txt" := Some "paragraph one";
     "last_action_error" := Some EmptyString;
     "focused_element_bid" := Some "12" ]}.

Definition page_after : obs_dict :=
  {[ "pruned_html" := Some "<p>two</p>";
     "axtree_txt" := Some "paragraph two";
     "last_action_error" := Some EmptyString;
     "focused_element_bid" := Some "12" ]}.

(** ** Vocabulary: idle calls of shrink *)

(** The Trunkater after [n] calls of [shrink] that did not truncate. *)
Definition Trunkater_called (n : Z) (t : Trunkater.t) : Trunkater.t :=
  {| Trunkater._visible := Trunkater._visible t;
     Trunkater._prompt := Trunkater._prompt t;
     Trunkater.shrink_speed := Trunkater.shrink_speed t;
     Trunkater.start_trunkate_iteration := Trunkater.start_trunkate_iteration t;
     Trunkater.shrink_calls := Trunkater.shrink_calls t + n;
     Trunkater.deleted_lines := Trunkater.deleted_lines t |}.

(** The Observation after [n] calls of [shrink] that truncated neither
    child. *)
Definition Observation_called (n : Z) (o : Observation.t) : Observation.t :=
  {| Observation._visible := Observation._visible o;
     Observation.html := Trunkater_called n (Observation.html o);
     Observation.ax_tree := Trunkater_called n (Observation.ax_tree o);
     Observation.error := Observation.error o;
     Observation.focused_element := Observation.focused_element o |}.

(** An Observation as the root of [fit_tokens], under flags that stay as they
    are during the call. *)
Definition Observation_root (flags : ObsFlags) : Shrinkable Observation.t :=
  {| prompt := fun o => FStr (Observation.prompt flags o);
     shrink := Observation.shrink flags |}.

(** A history of one step: the click that led from [page_before] to
    [page_after]. *)
Definition one_click : outcome History.t :=
  History_init ndiff_plain [page_before; page_after] ["click('12')"] None
    ["I click the button."] default_flags 5.

(** [repr] on a text without quote, backslash or control character: the text
    in single quotes. *)
Definition repr_plain (s : string) : string := "'" +:+ s +:+ "'".

(** ** llm_utils.py: get_tokenizer_old *)

(** [s.split(sep)] for a separator of one character: [s] is cut at every
    occurrence, and empty parts are kept. *)
Fixpoint split_char (sep : ascii) (s : string) : list string :=
  match s with
  | EmptyString => [EmptyString]
  | String c rest =>
      if Ascii.eqb c sep then EmptyString :: split_char sep rest
      else
        match split_char sep rest with
        | [] => [String c EmptyString]
        | part :: parts => String c part :: parts
        end
  end.

(** What [get_tokenizer_old] asks of the libraries, which are outside the
    repository: [tiktoken.encoding_for_model(model)] or
    [AutoTokenizer.from_pretrained(model_name)]. *)
Inductive tokenizer_request :=
| Tiktoken (model : string)
| AutoTokenizer (model_name : string).

Definition reka_warning : string :=
  "Reka models don't have a tokenizer implemented yet. Using the default one.".

(** [get_tokenizer_old], without its cache: the request made, and the
    warnings logged. *)
Definition get_tokenizer_old (model_name : string)
  : result (tokenizer_request * list string) :=
  if startswith model_name "test" then Ok (Tiktoken "gpt-4", [])
  else if startswith model_name "openai" then
    Ok (Tiktoken (List.last (split_char "/" model_name) EmptyString), [])
  else if startswith model_name "azure" then
    match nth_error (split_char "/" model_name) 1 with
    | Some model => Ok (Tiktoken model, [])
    | None => Raise IndexError
    end
  else if startswith model_name "reka" then
    Ok (Tiktoken "gpt-4", [reka_warning])
  else Ok (AutoTokenizer model_name, []).

(** ** Vocabulary: a character in a text *)

Fixpoint has_char (c : ascii) (s : string) : bool :=
  match s with
  | EmptyString => false
  | String d rest => Ascii.eqb d c || has_char c rest
  end.

(** A root that is a text, rendered as it is, which [shrink] cuts by its last
    character. *)
Definition chopped (s : string) : string :=
  String.substring 0 (String.length s - 1) s.

Definition chopping_root : Shrinkable string :=
  {| prompt := FStr; shrink := fun s => Ok (chopped s) |}.

(** * Properties *)

(** ** Strings and slices *)

Lemma append_nil_l s : EmptyString +:+ s = s.
Proof. reflexivity. Qed.

Lemma append_cons c s t : String c s +:+ t = String c (s +:+ t).
Proof. reflexivity. Qed.

Lemma append_nil_r s : s +:+ EmptyString = s.
Proof.
  induction s as [|c s IH]; [reflexivity |].
  now rewrite append_cons, IH.
Qed.

Lemma append_assoc s t u : (s +:+ t) +:+ u = s +:+ (t +:+ u).
Proof.
  induction s as [|c s IH]; [reflexivity |].
  now rewrite !append_cons, IH.
Qed.

Lemma length_append s t :
  String.length (s +:+ t) = (String.length s + String.length t)%nat.
Proof.
  induction s as [|c s IH]; [reflexivity |].
  rewrite append_cons. simpl. now rewrite IH.
Qed.

Lemma slice_to_nonneg {A} (xs : list A) k :
  0 <= k -> slice_to xs k = firstn (Z.to_nat k) xs.
Proof.
  intros Hk. unfold slice_to.
  destruct (k <? 0) eqn:E; [apply Z.ltb_lt in E; lia | reflexivity].
Qed.

Lemma slice_to_all {A} (xs : list A) k :
  Z.of_nat (length xs) <= k -> slice_to xs k = xs.
Proof.
  intros Hk. rewrite slice_to_nonneg by lia.
  apply firstn_all2. lia.
Qed.

(** ** Hidden elements *)

Lemma _hide_hidden flags visible value :
  is_visible flags visible = false -> _hide flags visible value = EmptyString.
Proof. unfold _hide. intros ->. reflexivity. Qed.

Lemma _hide_shown flags visible value :
  is_visible flags visible = true -> _hide flags visible value = value.
Proof. unfold _hide. intros ->. reflexivity. Qed.

(** The two ways [Trunkater.shrink] returns. *)
Lemma Trunkater_shrink_Ok flags t t' :
  Trunkater.shrink flags t = Ok t' ->
  let lines := splitlines (Trunkater._prompt t) in
  let n := Z.of_nat (length lines) in
  (is_visible flags (Trunkater._visible t)
   && (Trunkater.start_trunkate_iteration t <=? Trunkater.shrink_calls t) = true
   /\ exists k,
       Trunkater.new_line_count n (Trunkater.shrink_speed t) = Ok k
       /\ t' = {| Trunkater._visible := Trunkater._visible t;
                  Trunkater._prompt :=
                    str_join nl (slice_to lines k)
                    +:+ Trunkater.marker (Trunkater.deleted_lines t + (n - k));
                  Trunkater.shrink_speed := Trunkater.shrink_speed t;
                  Trunkater.start_trunkate_iteration :=
                    Trunkater.start_trunkate_iteration t;
                  Trunkater.shrink_calls := Trunkater.shrink_calls t + 1;
                  Trunkater.deleted_lines :=
                    Trunkater.deleted_lines t + (n - k) |})
  \/ (is_visible flags (Trunkater._visible t)
      && (Trunkater.start_trunkate_iteration t <=? Trunkater.shrink_calls t) = false
      /\ t' = {| Trunkater._visible := Trunkater._visible t;
                 Trunkater._prompt := Trunkater._prompt t;
                 Trunkater.shrink_speed := Trunkater.shrink_speed t;
                 Trunkater.start_trunkate_iteration :=
                   Trunkater.start_trunkate_iteration t;
                 Trunkater.shrink_calls := Trunkater.shrink_calls t + 1;
                 Trunkater.deleted_lines := Trunkater.deleted_lines t |}).
Proof.
  unfold Trunkater.shrink. destruct (_ && _).
  - destruct (Trunkater.new_line_count _ _) as [k|e] eqn:Ek; simpl;
      [|discriminate].
    intros [= <-]. left. split; [reflexivity |]. now exists k.
  - intros [= <-]. now right.
Qed.

(** [shrink] never touches [_visible] nor [shrink_speed]. *)
Lemma Trunkater_shrink_visible flags t t' :
  Trunkater.shrink flags t = Ok t' ->
  Trunkater._visible t' = Trunkater._visible t.
Proof.
  intros H. destruct (Trunkater_shrink_Ok _ _ _ H) as [(_ & k & _ & ->) | (_ & ->)];
    reflexivity.
Qed.

Lemma Diff_shrink_visible d : Diff._visible (Diff.shrink d) = Diff._visible d.
Proof. reflexivity. Qed.

Lemma Trunkater_shrinks_visible (earlier : list ObsFlags) t t' :
  Trunkater_shrinks earlier t = Ok t' ->
  Trunkater._visible t' = Trunkater._visible t.
Proof.
  revert t. induction earlier as [|f fs IH]; intros t; simpl.
  - now intros [= <-].
  - destruct (Trunkater.shrink f t) as [t1|e] eqn:E1; simpl; [|discriminate].
    intros H. rewrite (IH _ H). now apply (Trunkater_shrink_visible f).
Qed.

Lemma Diff_shrinks_visible n d :
  Diff._visible (Nat.iter n Diff.shrink d) = Diff._visible d.
Proof. induction n; simpl; auto. Qed.

(** C9. An element whose visibility (a flag, or a predicate read at the
    access) is false renders the empty string as its prompt, its abstract
    example and its concrete example, whatever its other fields hold: a plain
    element, a Trunkater or a Diff in any state (shrinking changes their state
    and leaves the visibility alone), and the composites. *)
Theorem hidden_element_renders_empty (flags : ObsFlags) :
  (forall e : PromptElement.t,
      is_visible flags (PromptElement._visible e) = false ->
      PromptElement.prompt flags e = EmptyString
      /\ PromptElement.abstract_ex flags e = EmptyString
      /\ PromptElement.concrete_ex flags e = EmptyString)
  /\ (forall (t t' : Trunkater.t) (earlier : list ObsFlags),
      is_visible flags (Trunkater._visible t) = false ->
      Trunkater_shrinks earlier t = Ok t' ->
      Trunkater.prompt flags t' = EmptyString
      /\ Trunkater.abstract_ex flags t' = EmptyString
      /\ Trunkater.concrete_ex flags t' = EmptyString)
  /\ (forall (d : Diff.t) (n : nat),
      is_visible flags (Diff._visible d) = false ->
      let d' := Nat.iter n Diff.shrink d in
      Diff.prompt flags d' = EmptyString
      /\ Diff.abstract_ex flags d' = EmptyString
      /\ Diff.concrete_ex flags d' = EmptyString)
  /\ (forall o : Observation.t,
      is_visible flags (Observation._visible o) = false ->
      Observation.prompt flags o = EmptyString
      /\ Observation.abstract_ex flags o = EmptyString
      /\ Observation.concrete_ex flags o = EmptyString)
  /\ (forall s : HistoryStep.t,
      is_visible flags (HistoryStep._visible s) = false ->
      HistoryStep.prompt flags s = EmptyString
      /\ HistoryStep.abstract_ex flags s = EmptyString
      /\ HistoryStep.concrete_ex flags s = EmptyString)
  /\ (forall h : History.t,
      is_visible flags (History._visible h) = false ->
      History.prompt flags h = EmptyString
      /\ History.abstract_ex flags h = EmptyString
      /\ History.concrete_ex flags h = EmptyString).
Proof.
  split; [|split; [|split]].
  - intros e He. repeat split; now apply _hide_hidden.
  - intros t t' earlier Ht Hrun.
    apply Trunkater_shrinks_visible in Hrun. rewrite <- Hrun in Ht.
    repeat split; now apply _hide_hidden.
  - intros d n Hd d'.
    unfold Diff.prompt, Diff.abstract_ex, Diff.concrete_ex.
    subst d'. rewrite Diff_shrinks_visible.
    repeat split; now apply _hide_hidden.
  - repeat split; now apply _hide_hidden.
Qed.

Lemma hidden_element_renders_empty_witness :
  let e := Error "timeout" (VCallable use_error_logs) "## " in
  is_visible default_flags (PromptElement._visible e) = false
  /\ PromptElement.prompt default_flags e = EmptyString
  /\ PromptElement.abstract_ex default_flags e = EmptyString
  /\ PromptElement.concrete_ex default_flags e = EmptyString.
Proof.
  split; [reflexivity |].
  apply (proj1 (hidden_element_renders_empty default_flags)). reflexivity.
Defined.

(** ** The diff function *)

(** [str(n)] starts with a digit or with the sign. *)
Lemma str_of_Z_head n :
  exists c rest, str_of_Z n = String c rest
                 /\ (is_digit c = true \/ c = "-"%char).
Proof.
  unfold str_of_Z, NilZero.string_of_int, NilZero.string_of_uint.
  destruct (Z.to_int n) as [d|d]; destruct d; simpl; eauto 6.
Qed.

Lemma diff_header_not_empty_marker p m : diff_header p m <> "previous is empty".
Proof.
  unfold diff_header. destruct (str_of_Z_head p) as (c & rest & -> & Hc).
  simpl. intros [= -> _]. destruct Hc as [Hc | Hc]; discriminate Hc.
Qed.

Lemma py_eq_refl x : py_eq x x = true.
Proof. destruct x; simpl; [apply String.eqb_refl | reflexivity]. Qed.

Lemma py_eq_true x y : py_eq x y = true -> x = y.
Proof.
  destruct x, y; simpl; try discriminate; try reflexivity.
  intros H. apply String.eqb_eq in H. now subst.
Qed.

Lemma py_eq_false x y : x <> y -> py_eq x y = false.
Proof.
  intros H. destruct (py_eq x y) eqn:E; [|reflexivity].
  apply py_eq_true in E. contradiction.
Qed.

Lemma diff_scan_spec diff_gen diff_lines plus_count minus_count :
  diff_scan diff_gen diff_lines plus_count minus_count
  = (diff_lines ++ List.filter (fun l => is_plus l || is_minus l) diff_gen,
     plus_count + Z.of_nat (length (List.filter is_plus diff_gen)),
     minus_count + Z.of_nat (length (List.filter is_minus diff_gen))).
Proof.
  revert diff_lines plus_count minus_count.
  induction diff_gen as [|line rest IH]; intros dl pc mc.
  - simpl. now rewrite app_nil_r, !Z.add_0_r.
  - cbn [diff_scan List.filter].
    change (startswith (strip line) "+") with (is_plus line).
    assert (Hm : is_minus line
                 = negb (is_plus line) && startswith (strip line) "-")
      by reflexivity.
    rewrite Hm. destruct (is_plus line); cbn [negb andb orb].
    + rewrite IH, <- app_assoc. cbn [length app].
      rewrite Nat2Z.inj_succ. apply (f_equal2 pair); [apply (f_equal2 pair)|]; try reflexivity; lia.
    + destruct (startswith (strip line) "-"); cbn [negb andb orb].
      * rewrite IH, <- app_assoc. cbn [length app].
        rewrite Nat2Z.inj_succ. apply (f_equal2 pair); [apply (f_equal2 pair)|]; try reflexivity; lia.
      * rewrite IH. reflexivity.
Qed.

Section DiffProperties.
Variable ndiff : list string -> list string -> list string.

(** The three ways [diff] returns. *)
Lemma diff_cases previous new header lines :
  diff ndiff previous new = Ok (header, lines) ->
  (header = "Identical" /\ lines = [] /\ previous = new)
  \/ (header = "previous is empty" /\ lines = [] /\ previous = Some EmptyString)
  \/ (exists p m, header = diff_header p m).
Proof.
  unfold diff. destruct (py_eq previous new) eqn:E.
  - intros [= <- <-]. left. auto using py_eq_true.
  - destruct previous as [p|]; simpl; [|discriminate].
    destruct (len p =? 0) eqn:Hl; simpl.
    + intros [= <- <-]. right; left. repeat split.
      unfold len in Hl. destruct p; [reflexivity | discriminate].
    + destruct new as [n|]; simpl; [|discriminate].
      destruct (diff_scan _ _ _ _) as [[dl pc] mc].
      intros [= <- <-]. right; right. eauto.
Qed.

(** C10. With [previous] [None] and [new] anything else, [diff] raises a
    [TypeError]: [len] is applied to [previous] before [previous is None] is
    looked at.  The test [previous is None] is therefore only reached with a
    [previous] that is not [None], and the result "previous is empty" comes
    from an empty string only. *)
Theorem diff_None_raises_TypeError :
  (forall new, new <> None -> diff ndiff None new = Raise TypeError)
  /\ (forall previous n, len_opt previous = Ok n -> is_None previous = false)
  /\ (forall previous new lines,
         diff ndiff previous new = Ok ("previous is empty", lines) ->
         previous = Some EmptyString).
Proof.
  split; [|split].
  - intros new Hnew. unfold diff. rewrite py_eq_false by congruence.
    reflexivity.
  - intros [p|] n; simpl; [reflexivity | discriminate].
  - intros previous new lines H.
    destruct (diff_cases _ _ _ _ H) as [(E & _) | [(_ & _ & E) | (p & m & E)]].
    + discriminate E.
    + exact E.
    + symmetry in E. now apply diff_header_not_empty_marker in E.
Qed.
End DiffProperties.

Lemma diff_None_raises_TypeError_witness :
  Some "x" <> None /\ diff ndiff_plain None (Some "x") = Raise TypeError.
Proof.
  split; [discriminate |].
  apply (proj1 (diff_None_raises_TypeError ndiff_plain)). discriminate.
Defined.

Section DiffExamples.
Variable ndiff : list string -> list string -> list string.

(** What [diff] returns when the two texts differ and the previous one is
    not empty: the lines of the delta marked [+] or [-], and a header with
    the number of each. *)
Lemma diff_changed p n :
  p <> n -> p <> EmptyString ->
  let delta := ndiff (splitlines p) (splitlines n) in
  diff ndiff (Some p) (Some n)
  = Ok (diff_header (Z.of_nat (length (List.filter is_plus delta)))
                    (Z.of_nat (length (List.filter is_minus delta))),
        List.filter (fun l => is_plus l || is_minus l) delta).
Proof.
  intros Hpn Hp delta. unfold diff.
  rewrite py_eq_false by congruence. simpl.
  assert (Hl : (len p =? 0) = false).
  { destruct p; [contradiction | reflexivity]. }
  rewrite Hl. simpl. fold delta. rewrite diff_scan_spec. reflexivity.
Qed.

(** C8. [diff] of a text with itself is the header "Identical" and no
    lines; [diff] of the empty string with another text is the header
    "previous is empty" and no lines; and for "a\nb\nc" against "a\nx\nc",
    whose delta is the line [b] removed and the line [x] added, the header
    states 1 line added and 1 line removed, and those two lines are kept. *)
Theorem diff_marks_identical_empty_and_changed :
  (forall x, diff ndiff x x = Ok ("Identical", []))
  /\ (forall new,
         new <> Some EmptyString ->
         diff ndiff (Some EmptyString) new = Ok ("previous is empty", []))
  /\ (ndiff ["a"; "b"; "c"] ["a"; "x"; "c"] = ["  a"; "- b"; "+ x"; "  c"] ->
      diff ndiff (Some abc) (Some axc)
      = Ok ("1 lines added and 1 lines removed:", ["- b"; "+ x"])).
Proof.
  split; [|split].
  - intros x. unfold diff. now rewrite py_eq_refl.
  - intros new Hnew. unfold diff. rewrite py_eq_false by congruence.
    reflexivity.
  - intros Hdelta. rewrite diff_changed by discriminate.
    change (splitlines abc) with ["a"; "b"; "c"].
    change (splitlines axc) with ["a"; "x"; "c"].
    rewrite Hdelta. reflexivity.
Qed.
End DiffExamples.

Lemma diff_marks_identical_empty_and_changed_witness :
  ndiff_plain ["a"; "b"; "c"] ["a"; "x"; "c"] = ["  a"; "- b"; "+ x"; "  c"]
  /\ diff ndiff_plain (Some abc) (Some axc)
     = Ok ("1 lines added and 1 lines removed:", ["- b"; "+ x"]).
Proof.
  split; [reflexivity |].
  apply (proj2 (proj2 (diff_marks_identical_empty_and_changed ndiff_plain))).
  reflexivity.
Defined.

(** ** Diff *)

Lemma filter_filter_implied {A} (f g : A -> bool) (xs : list A) :
  (forall x, f x = true -> g x = true) ->
  List.filter f (List.filter g xs) = List.filter f xs.
Proof.
  intros H. induction xs as [|x xs IH]; [reflexivity |]. simpl.
  destruct (g x) eqn:Hg; simpl.
  - now rewrite IH.
  - destruct (f x) eqn:Hf; [|exact IH].
    apply H in Hf. congruence.
Qed.

Lemma Diff_prompt_full d :
  Z.of_nat (length (Diff.diff_lines d)) <= Diff.max_line_diff d ->
  Diff._prompt d
  = Diff.prefix d +:+ Diff.header d +:+ nl
    +:+ str_join nl (Diff.diff_lines d) +:+ nl.
Proof.
  intros H. unfold Diff._prompt, Diff.diff_str.
  rewrite slice_to_all by exact H.
  destruct (Diff.max_line_diff d <? _) eqn:E; [apply Z.ltb_lt in E; lia |].
  reflexivity.
Qed.

Lemma Diff_prompt_truncated d :
  0 <= Diff.max_line_diff d ->
  Diff.max_line_diff d < Z.of_nat (length (Diff.diff_lines d)) ->
  Diff._prompt d
  = Diff.prefix d +:+ Diff.header d +:+ nl
    +:+ str_join nl (firstn (Z.to_nat (Diff.max_line_diff d)) (Diff.diff_lines d))
    +:+ nl +:+ "Diff truncated, "
    +:+ str_of_Z (Z.of_nat (length (Diff.diff_lines d)) - Diff.max_line_diff d)
    +:+ " changes now shown." +:+ nl.
Proof.
  intros H0 H. unfold Diff._prompt, Diff.diff_str, Diff.truncation_notice.
  rewrite slice_to_nonneg by exact H0.
  apply Z.ltb_lt in H. rewrite H.
  now rewrite !append_assoc.
Qed.

Section DiffElement.
Variable ndiff : list string -> list string -> list string.

(** C6. A shrink call lowers the ceiling [max_line_diff] by [shrink_speed]
    and clamps it at 1, and changes nothing else.  The rendering is the
    prefix, the header, and the first [max_line_diff] diff lines; the notice
    with the number of hidden lines, the total minus the ceiling, follows
    exactly when the total exceeds the ceiling.  The header of a Diff built
    from two different texts states the numbers of added and of removed
    lines among its diff lines. *)
Theorem Diff_shrink_lowers_ceiling_and_render_truncates (d : Diff.t) :
  let m := Diff.max_line_diff d in
  let n := Z.of_nat (length (Diff.diff_lines d)) in
  Diff.max_line_diff (Diff.shrink d) = Z.max 1 (m - Diff.shrink_speed d)
  /\ 1 <= Diff.max_line_diff (Diff.shrink d)
  /\ (1 <= m - Diff.shrink_speed d ->
      Diff.max_line_diff (Diff.shrink d) = m - Diff.shrink_speed d)
  /\ (Diff.header (Diff.shrink d) = Diff.header d
      /\ Diff.diff_lines (Diff.shrink d) = Diff.diff_lines d
      /\ Diff.prefix (Diff.shrink d) = Diff.prefix d
      /\ Diff.shrink_speed (Diff.shrink d) = Diff.shrink_speed d)
  /\ (n <= m ->
      Diff._prompt d
      = Diff.prefix d +:+ Diff.header d +:+ nl
        +:+ str_join nl (Diff.diff_lines d) +:+ nl)
  /\ (0 <= m -> m < n ->
      Diff._prompt d
      = Diff.prefix d +:+ Diff.header d +:+ nl
        +:+ str_join nl (firstn (Z.to_nat m) (Diff.diff_lines d))
        +:+ nl +:+ "Diff truncated, " +:+ str_of_Z (n - m)
        +:+ " changes now shown." +:+ nl)
  /\ (forall p q prefix max_line_diff shrink_speed visible,
         p <> q -> p <> EmptyString ->
         Diff.init ndiff (Some p) (Some q) prefix max_line_diff shrink_speed visible
         = Ok d ->
         Diff.header d
         = diff_header (Z.of_nat (length (List.filter is_plus (Diff.diff_lines d))))
                       (Z.of_nat (length (List.filter is_minus (Diff.diff_lines d))))).
Proof.
  intros m n. repeat split.
  - simpl. lia.
  - simpl. intros H. fold m. lia.
  - apply Diff_prompt_full.
  - apply Diff_prompt_truncated.
  - intros p q prefix mld speed visible Hpq Hp.
    unfold Diff.init. rewrite diff_changed by assumption. simpl.
    intros [= <-]. simpl.
    rewrite !filter_filter_implied; [reflexivity | |];
      intros l Hl; rewrite Hl; auto using orb_true_r.
Qed.
End DiffElement.

Lemma Diff_shrink_lowers_ceiling_and_render_truncates_witness :
  0 <= Diff.max_line_diff (Diff.shrink small_diff)
  /\ Diff.max_line_diff (Diff.shrink small_diff) < 3
  /\ Diff._prompt (Diff.shrink small_diff)
     = "2 lines added and 1 lines removed:" +:+ nl +:+ "+ x" +:+ nl
       +:+ "Diff truncated, 2 changes now shown." +:+ nl.
Proof.
  split; [simpl; lia | split; [simpl; lia |]].
  apply (Diff_shrink_lowers_ceiling_and_render_truncates ndiff_plain
           (Diff.shrink small_diff)); simpl; lia.
Defined.

(** ** Lines *)

Lemma no_break_append s t : no_break (s +:+ t) = no_break s && no_break t.
Proof.
  induction s as [|c s IH]; [reflexivity |].
  rewrite append_cons. simpl. now rewrite IH, andb_assoc.
Qed.

Lemma splitlines_nil_inv s : splitlines s = [] -> s = EmptyString.
Proof.
  destruct s as [|c rest]; [reflexivity |]. simpl.
  destruct (is_linebreak c).
  - destruct rest as [|c' rest']; [discriminate |].
    destruct (is_cr c && is_lf c'); discriminate.
  - destruct (splitlines rest); discriminate.
Qed.

(** A text without line boundary is its own only line. *)
Lemma splitlines_one_line s :
  no_break s = true -> s <> EmptyString -> splitlines s = [s].
Proof.
  induction s as [|c rest IH]; [contradiction |]. simpl.
  intros H _. apply andb_true_iff in H as [Hc Hrest].
  apply negb_true_iff in Hc. rewrite Hc.
  destruct rest as [|c' rest']; [reflexivity |].
  rewrite IH by (assumption || discriminate). reflexivity.
Qed.

(** A first line closed by LF. *)
Lemma splitlines_first_line l rest :
  no_break l = true -> splitlines (l +:+ nl +:+ rest) = l :: splitlines rest.
Proof.
  induction l as [|c l IH]; intros H.
  - rewrite append_nil_l. destruct rest; reflexivity.
  - simpl in H. apply andb_true_iff in H as [Hc Hl].
    apply negb_true_iff in Hc.
    rewrite append_cons. simpl. rewrite Hc, IH by assumption. reflexivity.
Qed.

(** The lines of joined lines followed by one more, non-empty line. *)
Lemma splitlines_join_then_line ls m :
  ls <> [] -> forallb no_break ls = true ->
  no_break m = true -> m <> EmptyString ->
  splitlines (str_join nl ls +:+ nl +:+ m) = ls ++ [m].
Proof.
  intros Hne Hls Hm Hm'. induction ls as [|l ls IH]; [contradiction |].
  simpl in Hls. apply andb_true_iff in Hls as [Hl Hls].
  destruct ls as [|l' ls'].
  - simpl. rewrite splitlines_first_line by assumption.
    now rewrite splitlines_one_line.
  - change (str_join nl (l :: l' :: ls'))
      with (l +:+ nl +:+ str_join nl (l' :: ls')).
    rewrite !append_assoc, splitlines_first_line by assumption.
    rewrite IH by (assumption || discriminate). reflexivity.
Qed.

Lemma splitlines_cons c rest :
  splitlines (String c rest)
  = if is_linebreak c then
      match rest with
      | String c' rest' =>
          if is_cr c && is_lf c' then EmptyString :: splitlines rest'
          else EmptyString :: splitlines rest
      | EmptyString => [EmptyString]
      end
    else
      match splitlines rest with
      | [] => [String c EmptyString]
      | l :: ls => String c l :: ls
      end.
Proof. reflexivity. Qed.

(** The lines of a text hold no line boundary. *)
Lemma splitlines_no_break s : forallb no_break (splitlines s) = true.
Proof.
  assert (H : forall n s, (String.length s <= n)%nat ->
                          forallb no_break (splitlines s) = true).
  { clear s. induction n as [|n IH]; intros s Hs.
    - destruct s; [reflexivity | simpl in Hs; lia].
    - destruct s as [|c rest]; [reflexivity |]. simpl in Hs.
      rewrite splitlines_cons.
      destruct (is_linebreak c) eqn:Hc.
      + destruct rest as [|c' rest']; [reflexivity |]. simpl in Hs.
        destruct (is_cr c && is_lf c'); cbn [forallb no_break andb];
          apply IH; simpl; lia.
      + specialize (IH rest ltac:(lia)).
        destruct (splitlines rest) as [|l ls]; cbn [forallb no_break] in *.
        * now rewrite Hc.
        * now rewrite Hc. }
  apply (H (String.length s)). lia.
Qed.

Lemma forallb_firstn {A} (f : A -> bool) n xs :
  forallb f xs = true -> forallb f (firstn n xs) = true.
Proof.
  revert n. induction xs as [|x xs IH]; intros [|n] H; try reflexivity.
  simpl in *. apply andb_true_iff in H as [-> H]. now rewrite IH.
Qed.

(** ** Trunkater *)

Lemma no_break_uint d : no_break (NilEmpty.string_of_uint d) = true.
Proof. induction d; simpl; auto. Qed.

Lemma no_break_str_of_Z n : no_break (str_of_Z n) = true.
Proof.
  unfold str_of_Z, NilZero.string_of_int, NilZero.string_of_uint.
  destruct (Z.to_int n) as [d|d]; destruct d; simpl; auto using no_break_uint.
Qed.

Lemma marker_is_a_line d :
  Trunkater.marker d = nl +:+ marker_line d
  /\ no_break (marker_line d) = true /\ marker_line d <> EmptyString.
Proof.
  split; [reflexivity | split; [|discriminate]].
  unfold marker_line. now rewrite !no_break_append, no_break_str_of_Z.
Qed.

(** [int] of a finite float [m * 2^e]: the integer part of its magnitude,
    with its sign. *)
Lemma int_of_float_finite x sign m e :
  Prim2SF x = S754_finite sign m e ->
  let a := if 0 <=? e then Z.pos m * 2 ^ e else Z.pos m / 2 ^ (- e) in
  int_of_float x = Ok (if sign then - a else a).
Proof.
  intros H. unfold int_of_float. rewrite H. cbv beta iota zeta.
  destruct (0 <=? e) eqn:E.
  - apply Z.leb_le in E. now rewrite Z.shiftl_mul_pow2.
  - apply Z.leb_gt in E. now rewrite Z.shiftr_div_pow2 by lia.
Qed.

Lemma near_seven_tenths_from_spec count n shrink_speed :
  near_seven_tenths_from count n shrink_speed = true ->
  forall m, n <= m < n + Z.of_nat count ->
    exists k, Trunkater.new_line_count m shrink_speed = Ok k
              /\ 0 <= k /\ 7 * m / 10 - 1 <= k <= 7 * m / 10.
Proof.
  revert n. induction count as [|count IH]; intros n H m Hm; [lia |].
  cbn [near_seven_tenths_from] in H.
  destruct (Trunkater.new_line_count n shrink_speed) as [k|e] eqn:Ek;
    [|discriminate].
  apply andb_true_iff in H as [H Hrest].
  apply andb_true_iff in H as [H H3]. apply andb_true_iff in H as [H1 H2].
  destruct (Z.eq_dec m n) as [-> | Hne].
  - exists k. apply Z.leb_le in H1, H2, H3. auto.
  - apply (IH (n + 1) Hrest). lia.
Qed.

(** The count kept at the default speed, of up to 100000 lines: the floor of
    7/10 of the lines, or one less. *)
Lemma default_speed_near_seven_tenths n :
  0 <= n <= 100000 ->
  exists k, Trunkater.new_line_count n default_shrink_speed = Ok k
            /\ 0 <= k /\ 7 * n / 10 - 1 <= k <= 7 * n / 10.
Proof.
  intros Hn.
  apply (near_seven_tenths_from_spec (Z.to_nat 100001) 0 default_shrink_speed);
    [vm_compute; reflexivity | lia].
Qed.

Lemma default_speed_truncates : truncates 100000 default_shrink_speed.
Proof.
  intros n Hn.
  destruct (default_speed_near_seven_tenths n Hn) as (k & Hk & H0 & H1).
  exists k. split; [exact Hk |].
  assert (H7 : 7 * n / 10 <= n) by (apply Z.div_le_upper_bound; lia).
  split; [lia |]. intros Hn1.
  assert (7 * n / 10 < n) by (apply Z.div_lt_upper_bound; lia). lia.
Qed.

(** A call that truncates: the element is visible, the grace period is over,
    and [int] returns. *)
Lemma Trunkater_shrink_past_grace flags t k :
  is_visible flags (Trunkater._visible t) = true ->
  Trunkater.start_trunkate_iteration t <= Trunkater.shrink_calls t ->
  let lines := splitlines (Trunkater._prompt t) in
  let n := Z.of_nat (length lines) in
  Trunkater.new_line_count n (Trunkater.shrink_speed t) = Ok k ->
  exists t',
    Trunkater.shrink flags t = Ok t'
    /\ Trunkater._prompt t'
       = str_join nl (slice_to lines k) +:+ nl
         +:+ marker_line (Trunkater.deleted_lines t + (n - k))
    /\ Trunkater.deleted_lines t' = Trunkater.deleted_lines t + (n - k)
    /\ Trunkater.shrink_calls t' = Trunkater.shrink_calls t + 1.
Proof.
  intros Hv Hg lines n Hk. unfold Trunkater.shrink.
  apply Z.leb_le in Hg. rewrite Hv, Hg. fold lines n. rewrite Hk.
  simpl. eexists. split; [reflexivity |]. simpl. auto.
Qed.

(** A call that does not truncate: hidden, or within the grace period. *)
Lemma Trunkater_shrink_idle flags t :
  is_visible flags (Trunkater._visible t) = false
  \/ Trunkater.shrink_calls t < Trunkater.start_trunkate_iteration t ->
  exists t',
    Trunkater.shrink flags t = Ok t'
    /\ Trunkater._prompt t' = Trunkater._prompt t
    /\ Trunkater.deleted_lines t' = Trunkater.deleted_lines t
    /\ Trunkater.shrink_calls t' = Trunkater.shrink_calls t + 1.
Proof.
  intros H. unfold Trunkater.shrink.
  assert (E : is_visible flags (Trunkater._visible t)
              && (Trunkater.start_trunkate_iteration t
                  <=? Trunkater.shrink_calls t) = false).
  { destruct H as [-> | H]; [reflexivity |].
    apply Z.leb_gt in H. rewrite H. apply andb_false_r. }
  rewrite E. eexists. split; [reflexivity |]. simpl. auto.
Qed.

(** The lines of kept lines followed by the marker: the kept lines and the
    marker line; with no line kept, an empty line and the marker line. *)
Lemma splitlines_kept_then_marker lines k d :
  0 <= k <= Z.of_nat (length lines) ->
  forallb no_break lines = true ->
  splitlines (str_join nl (slice_to lines k) +:+ nl +:+ marker_line d)
  = if k =? 0 then [EmptyString; marker_line d]
    else firstn (Z.to_nat k) lines ++ [marker_line d].
Proof.
  intros Hk Hlines. rewrite slice_to_nonneg by lia.
  destruct (marker_is_a_line d) as (_ & Hm & Hm').
  destruct (k =? 0) eqn:E.
  - apply Z.eqb_eq in E. subst k. simpl firstn. simpl str_join.
    rewrite append_nil_l.
    change (nl +:+ marker_line d) with (EmptyString +:+ nl +:+ marker_line d).
    rewrite splitlines_first_line by reflexivity.
    now rewrite splitlines_one_line.
  - apply Z.eqb_neq in E.
    apply splitlines_join_then_line; try assumption.
    + intros F. apply (f_equal (@length _)) in F.
      rewrite length_firstn in F. simpl in F. lia.
    + now apply forallb_firstn.
Qed.

(** The lines after a truncating call that keeps at least one line. *)
Lemma Trunkater_lines_after_shrink flags t t' k :
  is_visible flags (Trunkater._visible t) = true ->
  Trunkater.start_trunkate_iteration t <= Trunkater.shrink_calls t ->
  let lines := splitlines (Trunkater._prompt t) in
  let n := Z.of_nat (length lines) in
  Trunkater.new_line_count n (Trunkater.shrink_speed t) = Ok k ->
  Trunkater.shrink flags t = Ok t' ->
  1 <= k <= n ->
  splitlines (Trunkater._prompt t')
  = firstn (Z.to_nat k) lines
    ++ [marker_line (Trunkater.deleted_lines t + (n - k))].
Proof.
  intros Hv Hg lines n Hk Hs Hk1.
  destruct (Trunkater_shrink_past_grace flags t k Hv Hg Hk)
    as (t1 & Hs1 & Hp & _).
  rewrite Hs1 in Hs. injection Hs as <-. rewrite Hp. fold lines n.
  rewrite splitlines_kept_then_marker
    by (fold n; try lia; apply splitlines_no_break).
  destruct (k =? 0) eqn:E; [apply Z.eqb_eq in E; lia | reflexivity].
Qed.

(** A call on a well-formed Trunkater returns a well-formed Trunkater, with
    no fewer deleted lines. *)
Lemma Trunkater_shrink_wf bound flags t :
  Trunkater_wf bound t ->
  exists t',
    Trunkater.shrink flags t = Ok t'
    /\ Trunkater_wf bound t'
    /\ Trunkater.deleted_lines t <= Trunkater.deleted_lines t'.
Proof.
  intros (Hb & Hs & Hn).
  destruct (is_visible flags (Trunkater._visible t)
            && (Trunkater.start_trunkate_iteration t
                <=? Trunkater.shrink_calls t)) eqn:E.
  - apply andb_true_iff in E as [Hv Hg]. apply Z.leb_le in Hg.
    destruct (Hs _ (conj (Nat2Z.is_nonneg _) Hn)) as (k & Hk & Hk0 & Hk1).
    destruct (Trunkater_shrink_past_grace flags t k Hv Hg Hk)
      as (t' & Hrun & Hp & Hd & _).
    exists t'. split; [exact Hrun | split; [|lia]].
    split; [exact Hb | split].
    + destruct (Trunkater_shrink_Ok _ _ _ Hrun) as [(_ & k' & _ & ->) | (_ & ->)];
        exact Hs.
    + rewrite Hp, splitlines_kept_then_marker
        by (try lia; apply splitlines_no_break).
      destruct (k =? 0) eqn:Ek0; [simpl; lia |].
      apply Z.eqb_neq in Ek0.
      rewrite length_app, length_firstn. simpl length. lia.
  - destruct (Trunkater_shrink_idle flags t) as (t' & Hrun & Hp & Hd & _).
    { apply andb_false_iff in E as [E | E]; [now left | right].
      now apply Z.leb_gt in E. }
    exists t'. split; [exact Hrun | split; [|lia]].
    split; [exact Hb | split].
    + destruct (Trunkater_shrink_Ok _ _ _ Hrun) as [(_ & k' & _ & ->) | (_ & ->)];
        exact Hs.
    + now rewrite Hp.
Qed.

(** Any sequence of calls on a well-formed Trunkater returns, and the number
    of deleted lines does not decrease. *)
Lemma Trunkater_shrinks_wf bound (calls : list ObsFlags) t :
  Trunkater_wf bound t ->
  exists t',
    Trunkater_shrinks calls t = Ok t'
    /\ Trunkater_wf bound t'
    /\ Trunkater.deleted_lines t <= Trunkater.deleted_lines t'.
Proof.
  revert t. induction calls as [|f fs IH]; intros t Hwf.
  - exists t. split; [reflexivity | split; [exact Hwf | lia]].
  - destruct (Trunkater_shrink_wf bound f t Hwf) as (t1 & H1 & Hwf1 & Hd1).
    destruct (IH t1 Hwf1) as (t' & H' & Hwf' & Hd').
    exists t'. simpl. rewrite H1. simpl.
    split; [exact H' | split; [exact Hwf' | lia]].
Qed.

(** A Trunkater with the default speed and up to 100000 lines is well
    formed. *)
Lemma default_speed_wf t :
  Trunkater.shrink_speed t = default_shrink_speed ->
  Z.of_nat (length (splitlines (Trunkater._prompt t))) <= 100000 ->
  Trunkater_wf 100000 t.
Proof.
  intros Hs Hn. split; [lia | split; [|exact Hn]].
  rewrite Hs. exact default_speed_truncates.
Qed.

(** C5, as stated, fails: the count kept is not the floor of
    [n * (1 - shrink_speed)].  Of 90 lines at the speed 0.3 a call keeps 62,
    and deletes 28; the floor is 63, whether the speed is read as 3/10 or as
    the binary64 number that [0.3] denotes.  And with a negative speed the
    number of deleted lines decreases. *)
Lemma Trunkater_does_not_keep_the_floor :
  (exists t',
      Trunkater.shrink default_flags trunkater90 = Ok t'
      /\ length (splitlines (Trunkater._prompt trunkater90)) = 90%nat
      /\ splitlines (Trunkater._prompt t')
         = firstn 62 (splitlines (Trunkater._prompt trunkater90))
           ++ ["... Deleted 28 lines to reduce prompt size."])
  /\ Qfloor (90 * (1 - (3 # 10))) = 63
  /\ Qfloor (90 * (1 - exact_value default_shrink_speed)) = 63
  /\ (exists t',
         Trunkater.shrink default_flags growing_trunkater = Ok t'
         /\ Trunkater.deleted_lines t'
            < Trunkater.deleted_lines growing_trunkater).
Proof.
  split; [|split; [|split]].
  - eexists. split; [vm_compute; reflexivity |]. split; reflexivity.
  - reflexivity.
  - reflexivity.
  - eexists. split; [vm_compute; reflexivity |]. reflexivity.
Qed.

(** C5, amended.  A shrink call on a visible Trunkater whose call counter has
    reached [start_trunkate_iteration] keeps the first
    [int(n * (1 - shrink_speed))] of the [n] lines of its prompt, the product
    taken in binary64 and cut to its integer part, and appends one line that
    states the running number of deleted lines.  At the default speed 0.3,
    and for up to 100000 lines, the count kept is the floor of 7/10 of the
    lines or one less; it is 14 of 20 lines, and the call then leaves the
    first 14 lines and the marker.  On a Trunkater whose speed takes lines
    off without taking more than there are (the default speed does), any
    sequence of calls returns and the number of deleted lines never
    decreases.  A call made before the counter has reached
    [start_trunkate_iteration] changes neither the prompt nor the number of
    deleted lines.  Every call counts. *)
Theorem Trunkater_shrink_truncates_tail (flags : ObsFlags) (t : Trunkater.t) :
  let lines := splitlines (Trunkater._prompt t) in
  let n := Z.of_nat (length lines) in
  let s := Trunkater.shrink_speed t in
  (* a call past the grace period *)
  (is_visible flags (Trunkater._visible t) = true ->
   Trunkater.start_trunkate_iteration t <= Trunkater.shrink_calls t ->
   forall k,
     Trunkater.new_line_count n s = Ok k ->
     exists t',
       Trunkater.shrink flags t = Ok t'
       /\ Trunkater._prompt t'
          = str_join nl (slice_to lines k) +:+ nl +:+ "... Deleted "
            +:+ str_of_Z (Trunkater.deleted_lines t')
            +:+ " lines to reduce prompt size."
       /\ Trunkater.deleted_lines t' = Trunkater.deleted_lines t + (n - k)
       /\ Trunkater.shrink_calls t' = Trunkater.shrink_calls t + 1
       /\ (0 <= k <= n ->
           slice_to lines k = firstn (Z.to_nat k) lines
           /\ Trunkater.deleted_lines t <= Trunkater.deleted_lines t')
       /\ (1 <= k <= n ->
           splitlines (Trunkater._prompt t')
           = firstn (Z.to_nat k) lines
             ++ ["... Deleted " +:+ str_of_Z (Trunkater.deleted_lines t')
                 +:+ " lines to reduce prompt size."]))
  (* the count kept *)
  /\ Trunkater.new_line_count n s = int_of_float (float_of_int n * (1 - s))
  /\ (s = default_shrink_speed -> n <= 100000 ->
      exists k,
        Trunkater.new_line_count n s = Ok k
        /\ 0 <= k <= n
        /\ 7 * n / 10 - 1 <= k <= 7 * n / 10
        /\ (n = 20 -> k = 14))
  (* 20 lines at the default speed *)
  /\ (is_visible flags (Trunkater._visible t) = true ->
      Trunkater.start_trunkate_iteration t <= Trunkater.shrink_calls t ->
      n = 20 -> s = default_shrink_speed ->
      exists t',
        Trunkater.shrink flags t = Ok t'
        /\ Trunkater.deleted_lines t' = Trunkater.deleted_lines t + 6
        /\ splitlines (Trunkater._prompt t')
           = firstn 14 lines
             ++ ["... Deleted " +:+ str_of_Z (Trunkater.deleted_lines t + 6)
                 +:+ " lines to reduce prompt size."])
  (* any sequence of calls *)
  /\ (forall bound (calls : list ObsFlags),
         Trunkater_wf bound t ->
         exists t',
           Trunkater_shrinks calls t = Ok t'
           /\ Trunkater_wf bound t'
           /\ Trunkater.deleted_lines t <= Trunkater.deleted_lines t')
  /\ (s = default_shrink_speed -> n <= 100000 -> Trunkater_wf 100000 t)
  (* a call before the grace period is over *)
  /\ (Trunkater.shrink_calls t < Trunkater.start_trunkate_iteration t ->
      exists t',
        Trunkater.shrink flags t = Ok t'
        /\ Trunkater._prompt t' = Trunkater._prompt t
        /\ Trunkater.deleted_lines t' = Trunkater.deleted_lines t
        /\ Trunkater.shrink_calls t' = Trunkater.shrink_calls t + 1).
Proof.
  intros lines n s.
  split; [|split; [|split; [|split; [|split; [|split]]]]].
  - intros Hv Hg k Hk.
    destruct (Trunkater_shrink_past_grace flags t k Hv Hg Hk)
      as (t' & Hrun & Hp & Hd & Hc).
    exists t'. fold lines n in Hp, Hd.
    split; [exact Hrun | split; [|split; [exact Hd | split; [exact Hc | split]]]].
    + rewrite Hp, Hd. reflexivity.
    + intros Hk0. split; [apply slice_to_nonneg; lia | lia].
    + intros Hk1. rewrite Hd.
      now apply (Trunkater_lines_after_shrink flags t t' k Hv Hg Hk Hrun).
  - reflexivity.
  - intros Hs Hn. rewrite Hs.
    destruct (default_speed_near_seven_tenths n ltac:(lia)) as (k & Hk & H0 & H1).
    exists k. split; [exact Hk | split; [|split; [exact H1 |]]].
    + assert (7 * n / 10 <= n) by (apply Z.div_le_upper_bound; lia). lia.
    + intros H20. rewrite H20 in Hk. vm_compute in Hk. now injection Hk.
  - intros Hv Hg Hn Hs.
    assert (Hk : Trunkater.new_line_count n s = Ok 14)
      by (rewrite Hn, Hs; reflexivity).
    destruct (Trunkater_shrink_past_grace flags t 14 Hv Hg Hk)
      as (t' & Hrun & _ & Hd & _).
    exists t'. fold lines n in Hd. split; [exact Hrun | split; [lia |]].
    rewrite (Trunkater_lines_after_shrink flags t t' 14 Hv Hg Hk Hrun);
      fold lines n; [|lia].
    rewrite Hn. reflexivity.
  - intros bound calls Hwf. now apply Trunkater_shrinks_wf.
  - intros Hs Hn. now apply default_speed_wf.
  - intros Hg. apply Trunkater_shrink_idle. now right.
Qed.

Lemma Trunkater_shrink_truncates_tail_witness :
  is_visible default_flags (Trunkater._visible trunkater20) = true
  /\ Trunkater.start_trunkate_iteration trunkater20
     <= Trunkater.shrink_calls trunkater20
  /\ exists t',
      Trunkater.shrink default_flags trunkater20 = Ok t'
      /\ Trunkater.deleted_lines t' = 6
      /\ splitlines (Trunkater._prompt t')
         = ["1"; "2"; "3"; "4"; "5"; "6"; "7"; "8"; "9"; "10"; "11"; "12"; "13";
            "14"; "... Deleted 6 lines to reduce prompt size."].
Proof.
  split; [reflexivity | split; [simpl; lia |]].
  apply (proj1 (proj2 (proj2 (proj2
           (Trunkater_shrink_truncates_tail default_flags trunkater20)))));
    [reflexivity | simpl; lia | reflexivity | reflexivity].
Defined.

(** ** Rendered sizes *)

Lemma length_join_cons x xs :
  String.length (str_join nl (x :: xs))
  = match xs with
    | [] => String.length x
    | _ => (String.length x + 1 + String.length (str_join nl xs))%nat
    end.
Proof.
  destruct xs as [|y ys]; [reflexivity |].
  change (str_join nl (x :: y :: ys)) with (x +:+ nl +:+ str_join nl (y :: ys)).
  rewrite !length_append. simpl. lia.
Qed.

(** The length of joined lines: their lengths and one separator between any
    two. *)
Lemma length_join xs :
  String.length (str_join nl xs)
  = (list_sum (map String.length xs) + pred (length xs))%nat.
Proof.
  induction xs as [|x xs IH]; [reflexivity |].
  rewrite length_join_cons. destruct xs as [|y ys]; [simpl; lia |].
  rewrite IH. simpl. lia.
Qed.

Lemma length_join_firstn j xs :
  (String.length (str_join nl (firstn j xs)) <= String.length (str_join nl xs))%nat.
Proof.
  revert j. induction xs as [|x xs IH]; intros j.
  - now rewrite firstn_nil.
  - destruct j as [|j]; [simpl; lia |].
    rewrite firstn_cons, !length_join_cons. specialize (IH j).
    destruct xs as [|y ys]; [now rewrite firstn_nil |].
    destruct (firstn j (y :: ys)); lia.
Qed.

(** The lines of a text, joined again, are no longer than the text. *)
Lemma length_join_splitlines p :
  (String.length (str_join nl (splitlines p)) <= String.length p)%nat.
Proof.
  assert (H : forall n p, (String.length p <= n)%nat ->
            (String.length (str_join nl (splitlines p)) <= String.length p)%nat).
  { clear p. induction n as [|n IH]; intros p Hp.
    - destruct p; [simpl; lia | simpl in Hp; lia].
    - destruct p as [|c rest]; [simpl; lia |]. simpl in Hp.
      rewrite splitlines_cons. destruct (is_linebreak c).
      + destruct rest as [|c' rest']; [simpl; lia |]. simpl in Hp.
        destruct (is_cr c && is_lf c'); rewrite length_join_cons.
        * specialize (IH rest' ltac:(lia)).
          destruct (splitlines rest'); simpl in *; lia.
        * specialize (IH (String c' rest') ltac:(simpl; lia)).
          destruct (splitlines (String c' rest')); simpl in *; lia.
      + specialize (IH rest ltac:(lia)).
        destruct (splitlines rest) as [|l ls]; [simpl; lia |].
        rewrite length_join_cons in *. simpl.
        destruct ls; simpl in *; lia. }
  apply (H (String.length p)). lia.
Qed.

Lemma slice_to_firstn {A} (xs : list A) k : exists j, slice_to xs k = firstn j xs.
Proof. unfold slice_to. destruct (k <? 0); eauto. Qed.

(** What a Trunkater holds after a call: its prompt as it was, or some first
    lines of it and the marker. *)
Lemma Trunkater_shrink_keeps_prefix flags t t' :
  Trunkater.shrink flags t = Ok t' ->
  Trunkater._prompt t' = Trunkater._prompt t
  \/ exists j,
      Trunkater._prompt t'
      = str_join nl (firstn j (splitlines (Trunkater._prompt t)))
        +:+ Trunkater.marker (Trunkater.deleted_lines t').
Proof.
  intros H.
  destruct (Trunkater_shrink_Ok _ _ _ H) as [(_ & k & _ & ->) | (_ & ->)];
    [right | now left].
  destruct (slice_to_firstn (splitlines (Trunkater._prompt t)) k) as [j Hj].
  exists j. simpl. now rewrite Hj.
Qed.

Lemma Trunkater_shrink_size flags t t' :
  Trunkater.shrink flags t = Ok t' ->
  (String.length (Trunkater.prompt flags t')
   <= String.length (Trunkater.prompt flags t)
      + String.length (Trunkater.marker (Trunkater.deleted_lines t')))%nat.
Proof.
  intros H. unfold Trunkater.prompt, _hide.
  rewrite (Trunkater_shrink_visible flags t t' H).
  destruct (is_visible flags (Trunkater._visible t)); [|simpl; lia].
  destruct (Trunkater_shrink_keeps_prefix flags t t' H) as [E | [j E]];
    rewrite E; [lia |].
  rewrite length_append.
  pose proof (length_join_firstn j (splitlines (Trunkater._prompt t))).
  pose proof (length_join_splitlines (Trunkater._prompt t)). lia.
Qed.

Lemma Diff_shrink_wf d : Diff_wf d -> Diff_wf (Diff.shrink d).
Proof. unfold Diff_wf. simpl. lia. Qed.

Lemma Diff_shrink_ceiling d :
  Diff_wf d -> 1 <= Diff.max_line_diff (Diff.shrink d) <= Diff.max_line_diff d.
Proof. unfold Diff_wf. simpl. lia. Qed.

Lemma Diff_shrink_fixed d :
  0 <= Diff.shrink_speed d -> Diff.max_line_diff d = 1 -> Diff.shrink d = d.
Proof.
  intros Hs Hm. destruct d as [v m h l s p]. simpl in *. unfold Diff.shrink.
  simpl. f_equal. lia.
Qed.

Lemma Diff_shrink_shows_prefix d :
  Diff_wf d ->
  slice_to (Diff.diff_lines d) (Diff.max_line_diff (Diff.shrink d))
  = firstn (Z.to_nat (Diff.max_line_diff (Diff.shrink d)))
      (slice_to (Diff.diff_lines d) (Diff.max_line_diff d)).
Proof.
  intros Hwf. pose proof (Diff_shrink_ceiling d Hwf) as Hc.
  rewrite !slice_to_nonneg by lia. rewrite firstn_firstn. f_equal. lia.
Qed.

Lemma Diff_shrink_size flags d :
  Diff_wf d ->
  (String.length (Diff.prompt flags (Diff.shrink d))
   <= String.length (Diff.prompt flags d)
      + String.length (Diff.truncation_notice (Diff_hidden (Diff.shrink d))))%nat.
Proof.
  intros Hwf. unfold Diff.prompt, _hide. rewrite Diff_shrink_visible.
  destruct (is_visible flags (Diff._visible d)); [|simpl; lia].
  unfold Diff._prompt. rewrite !length_append.
  change (Diff.prefix (Diff.shrink d)) with (Diff.prefix d).
  change (Diff.header (Diff.shrink d)) with (Diff.header d).
  assert (Hs : (String.length (Diff.diff_str (Diff.shrink d))
                <= String.length (Diff.diff_str d)
                   + String.length
                       (Diff.truncation_notice (Diff_hidden (Diff.shrink d))))%nat).
  { unfold Diff.diff_str at 1.
    change (Diff.diff_lines (Diff.shrink d)) with (Diff.diff_lines d).
    rewrite Diff_shrink_shows_prefix by assumption.
    pose proof (length_join_firstn
                  (Z.to_nat (Diff.max_line_diff (Diff.shrink d)))
                  (slice_to (Diff.diff_lines d) (Diff.max_line_diff d))) as Hj.
    assert (Hd : (String.length
                    (str_join nl (slice_to (Diff.diff_lines d) (Diff.max_line_diff d)))
                  <= String.length (Diff.diff_str d))%nat).
    { unfold Diff.diff_str. destruct (_ <? _); rewrite ?length_append; lia. }
    unfold Diff_hidden.
    change (Diff.diff_lines (Diff.shrink d)) with (Diff.diff_lines d).
    destruct (_ <? _); rewrite ?length_append; lia. }
  lia.
Qed.

(** [Observation.shrink] returns when the calls on its two children do, and
    holds what they return. *)
Lemma Observation_shrink_Ok flags o o' :
  Observation.shrink flags o = Ok o' <->
  exists ax_tree html,
    Trunkater.shrink flags (Observation.ax_tree o) = Ok ax_tree
    /\ Trunkater.shrink flags (Observation.html o) = Ok html
    /\ o' = {| Observation._visible := Observation._visible o;
               Observation.html := html; Observation.ax_tree := ax_tree;
               Observation.error := Observation.error o;
               Observation.focused_element := Observation.focused_element o |}.
Proof.
  unfold Observation.shrink.
  destruct (Trunkater.shrink flags (Observation.ax_tree o)) as [a|e]; simpl.
  - destruct (Trunkater.shrink flags (Observation.html o)) as [h|e]; simpl.
    + split.
      * intros [= <-]. now exists a, h.
      * intros (a' & h' & [= <-] & [= <-] & ->). reflexivity.
    + split; [discriminate |]. now intros (a' & h' & _ & [=] & _).
  - split; [discriminate |]. now intros (a' & h' & [=] & _).
Qed.

Lemma Observation_shrink_size flags o o' :
  Observation.shrink flags o = Ok o' ->
  (String.length (Observation.prompt flags o')
   <= String.length (Observation.prompt flags o)
      + String.length
          (Trunkater.marker (Trunkater.deleted_lines (Observation.html o')))
      + String.length
          (Trunkater.marker (Trunkater.deleted_lines (Observation.ax_tree o'))))%nat.
Proof.
  intros H. apply Observation_shrink_Ok in H as (a & h & Ha & Hh & ->).
  unfold Observation.prompt, _hide. cbn [Observation._visible].
  destruct (is_visible flags (Observation._visible o)); [|simpl; lia].
  unfold Observation._prompt. rewrite !length_append.
  cbn [Observation.html Observation.ax_tree Observation.focused_element
       Observation.error].
  pose proof (Trunkater_shrink_size flags _ _ Hh).
  pose proof (Trunkater_shrink_size flags _ _ Ha).
  lia.
Qed.

Lemma HistoryStep_shrink_wf s :
  HistoryStep_wf s -> HistoryStep_wf (HistoryStep.shrink s).
Proof. intros [H1 H2]. split; now apply Diff_shrink_wf. Qed.

Lemma HistoryStep_shrink_size flags s :
  HistoryStep_wf s ->
  (String.length (HistoryStep.prompt flags (HistoryStep.shrink s))
   <= String.length (HistoryStep.prompt flags s)
      + HistoryStep_notices (HistoryStep.shrink s))%nat.
Proof.
  intros [H1 H2]. unfold HistoryStep.prompt, _hide.
  change (HistoryStep._visible (HistoryStep.shrink s))
    with (HistoryStep._visible s).
  destruct (is_visible flags (HistoryStep._visible s)); [|simpl; lia].
  unfold HistoryStep._prompt, HistoryStep_notices.
  change (HistoryStep.memory (HistoryStep.shrink s)) with (HistoryStep.memory s).
  change (HistoryStep.thought (HistoryStep.shrink s)) with (HistoryStep.thought s).
  change (HistoryStep.action (HistoryStep.shrink s)) with (HistoryStep.action s).
  change (HistoryStep.error (HistoryStep.shrink s)) with (HistoryStep.error s).
  change (HistoryStep.html_diff (HistoryStep.shrink s))
    with (Diff.shrink (HistoryStep.html_diff s)).
  change (HistoryStep.ax_tree_diff (HistoryStep.shrink s))
    with (Diff.shrink (HistoryStep.ax_tree_diff s)).
  pose proof (Diff_shrink_size flags _ H1).
  pose proof (Diff_shrink_size flags _ H2).
  destruct (HistoryStep.memory s), (use_think_history flags),
    (use_action_history flags); rewrite !length_append; lia.
Qed.

Lemma list_sum_cons x xs : list_sum (x :: xs) = (x + list_sum xs)%nat.
Proof. reflexivity. Qed.

Lemma step_prompts_length flags i steps :
  length (History.step_prompts flags i steps) = (2 * length steps)%nat.
Proof.
  revert i. induction steps as [|s steps IH]; intros i; simpl; [reflexivity |].
  rewrite IH. lia.
Qed.

Lemma step_prompts_shrink_size flags i steps :
  Forall HistoryStep_wf steps ->
  (list_sum (map String.length
               (History.step_prompts flags i (map HistoryStep.shrink steps)))
   <= list_sum (map String.length (History.step_prompts flags i steps))
      + list_sum (map HistoryStep_notices (map HistoryStep.shrink steps)))%nat.
Proof.
  intros Hwf. revert i.
  induction Hwf as [|s steps Hs Hsteps IH]; intros i;
    cbn [map History.step_prompts]; [simpl; lia |].
  specialize (IH (i + 1)).
  pose proof (HistoryStep_shrink_size flags s Hs).
  rewrite !list_sum_cons. lia.
Qed.

Lemma History_shrink_size flags h :
  Forall HistoryStep_wf (History.history_steps h) ->
  (String.length (History.prompt flags (History.shrink h))
   <= String.length (History.prompt flags h)
      + History_notices (History.shrink h))%nat.
Proof.
  intros Hwf. unfold History.prompt, _hide.
  change (History._visible (History.shrink h)) with (History._visible h).
  destruct (is_visible flags (History._visible h)); [|simpl; lia].
  unfold History._prompt, History_notices.
  change (History.history_steps (History.shrink h))
    with (map HistoryStep.shrink (History.history_steps h)).
  rewrite !length_append, !length_join.
  pose proof (step_prompts_shrink_size flags 0 _ Hwf).
  cbn [map length]. rewrite !list_sum_cons, !step_prompts_length, length_map.
  lia.
Qed.

(** ** Repeated shrinking *)

(** C4, as stated, fails: a shrink call can make the rendering longer.  The
    HTML element of a small page, five calls after it was built, grows from
    20 to 52 characters at the next call, the first after its grace period;
    and a Diff of three short lines grows from 47 to 76 characters when its
    ceiling drops from 3 to 1.  And a call can raise: on a Trunkater built
    with an infinite speed, [int] is applied to a NaN. *)
Lemma shrink_can_enlarge_rendering :
  Trunkater_shrinks (repeat default_flags 5) fresh_html = Ok small_html
  /\ (exists t',
         Trunkater.shrink default_flags small_html = Ok t'
         /\ String.length (Trunkater.prompt default_flags small_html) = 20%nat
         /\ String.length (Trunkater.prompt default_flags t') = 52%nat)
  /\ String.length (Diff.prompt default_flags small_diff) = 47%nat
  /\ String.length (Diff.prompt default_flags (Diff.shrink small_diff)) = 76%nat
  /\ Trunkater.shrink default_flags (Trunkater.init (VBool true) infinity 0)
     = Raise ValueError.
Proof.
  split; [reflexivity | split; [|split; [|split]]; try reflexivity].
  eexists. split; [vm_compute; reflexivity |]. split; reflexivity.
Qed.

(** C4, amended.  A call of [shrink] never makes the rendering longer by
    more than the marker or the truncation notices it appends.  A Trunkater
    keeps its prompt or some first lines of it before the marker; its call
    returns as long as [int] does, and so does any sequence of calls on a
    well-formed Trunkater, as one with the default speed and up to 100000
    lines is.  [shrink] on a Diff is a total function: no operation in it
    can raise.  A Diff with a speed that is not negative and a ceiling of at
    least 1 stays so, its ceiling does not increase, at the ceiling 1 it does
    not change any more, and the diff lines it shows are the first of those
    it showed before.  The composites hand the
    call to their children: their rendering grows by no more than the
    markers and notices of these. *)
Theorem shrink_grows_rendering_by_markers_only (flags : ObsFlags) :
  (forall t t' : Trunkater.t,
      Trunkater.shrink flags t = Ok t' ->
      (String.length (Trunkater.prompt flags t')
       <= String.length (Trunkater.prompt flags t)
          + String.length (Trunkater.marker (Trunkater.deleted_lines t')))%nat
      /\ (Trunkater._prompt t' = Trunkater._prompt t
          \/ exists j,
              Trunkater._prompt t'
              = str_join nl (firstn j (splitlines (Trunkater._prompt t)))
                +:+ Trunkater.marker (Trunkater.deleted_lines t')))
  /\ (forall bound (t : Trunkater.t),
         Trunkater_wf bound t ->
         exists t', Trunkater.shrink flags t = Ok t' /\ Trunkater_wf bound t')
  /\ (forall t : Trunkater.t,
         Trunkater.shrink_speed t = default_shrink_speed ->
         Z.of_nat (length (splitlines (Trunkater._prompt t))) <= 100000 ->
         Trunkater_wf 100000 t)
  /\ (forall d : Diff.t,
         Diff_wf d ->
         let d' := Diff.shrink d in
         Diff_wf d'
         /\ 1 <= Diff.max_line_diff d' <= Diff.max_line_diff d
         /\ (Diff.max_line_diff d = 1 -> d' = d)
         /\ slice_to (Diff.diff_lines d') (Diff.max_line_diff d')
            = firstn (Z.to_nat (Diff.max_line_diff d'))
                (slice_to (Diff.diff_lines d) (Diff.max_line_diff d))
         /\ (String.length (Diff.prompt flags d')
             <= String.length (Diff.prompt flags d)
                + String.length (Diff.truncation_notice (Diff_hidden d')))%nat)
  /\ (forall o o' : Observation.t,
         Observation.shrink flags o = Ok o' ->
         Trunkater.shrink flags (Observation.html o) = Ok (Observation.html o')
         /\ Trunkater.shrink flags (Observation.ax_tree o)
            = Ok (Observation.ax_tree o')
         /\ (String.length (Observation.prompt flags o')
             <= String.length (Observation.prompt flags o)
                + String.length
                    (Trunkater.marker (Trunkater.deleted_lines (Observation.html o')))
                + String.length
                    (Trunkater.marker
                       (Trunkater.deleted_lines (Observation.ax_tree o'))))%nat)
  /\ (forall bound (o : Observation.t),
         Trunkater_wf bound (Observation.html o) ->
         Trunkater_wf bound (Observation.ax_tree o) ->
         exists o',
           Observation.shrink flags o = Ok o'
           /\ Trunkater_wf bound (Observation.html o')
           /\ Trunkater_wf bound (Observation.ax_tree o'))
  /\ (forall s : HistoryStep.t,
         HistoryStep_wf s ->
         let s' := HistoryStep.shrink s in
         HistoryStep_wf s'
         /\ HistoryStep.html_diff s' = Diff.shrink (HistoryStep.html_diff s)
         /\ HistoryStep.ax_tree_diff s' = Diff.shrink (HistoryStep.ax_tree_diff s)
         /\ (String.length (HistoryStep.prompt flags s')
             <= String.length (HistoryStep.prompt flags s)
                + HistoryStep_notices s')%nat)
  /\ (forall h : History.t,
         Forall HistoryStep_wf (History.history_steps h) ->
         let h' := History.shrink h in
         Forall HistoryStep_wf (History.history_steps h')
         /\ History.history_steps h'
            = map HistoryStep.shrink (History.history_steps h)
         /\ (String.length (History.prompt flags h')
             <= String.length (History.prompt flags h) + History_notices h')%nat).
Proof.
  split; [|split; [|split; [|split; [|split; [|split; [|split]]]]]].
  - intros t t' H. split.
    + now apply Trunkater_shrink_size.
    + now apply (Trunkater_shrink_keeps_prefix flags).
  - intros bound t Hwf.
    destruct (Trunkater_shrink_wf bound flags t Hwf) as (t' & H & Hwf' & _).
    now exists t'.
  - intros t. apply default_speed_wf.
  - intros d Hwf d'. split; [now apply Diff_shrink_wf |].
    split; [now apply Diff_shrink_ceiling |].
    split; [apply Diff_shrink_fixed, Hwf |].
    split; [exact (Diff_shrink_shows_prefix d Hwf) |].
    now apply Diff_shrink_size.
  - intros o o' H. pose proof (Observation_shrink_size flags o o' H) as Hsize.
    apply Observation_shrink_Ok in H as (a & h & Ha & Hh & ->).
    split; [exact Hh | split; [exact Ha | exact Hsize]].
  - intros bound o Hh Ha.
    destruct (Trunkater_shrink_wf bound flags _ Hh) as (h & Hrh & Hwh & _).
    destruct (Trunkater_shrink_wf bound flags _ Ha) as (a & Hra & Hwa & _).
    exists {| Observation._visible := Observation._visible o;
              Observation.html := h; Observation.ax_tree := a;
              Observation.error := Observation.error o;
              Observation.focused_element := Observation.focused_element o |}.
    split; [|split; [exact Hwh | exact Hwa]].
    apply Observation_shrink_Ok. now exists a, h.
  - intros s Hwf s'. split; [now apply HistoryStep_shrink_wf |].
    split; [reflexivity | split; [reflexivity |]].
    now apply HistoryStep_shrink_size.
  - intros h Hwf h'. split; [|split; [reflexivity |]].
    + simpl. induction Hwf; simpl; constructor;
        auto using HistoryStep_shrink_wf.
    + now apply History_shrink_size.
Qed.

Lemma shrink_grows_rendering_by_markers_only_witness :
  Diff_wf small_diff
  /\ (String.length (Diff.prompt default_flags (Diff.shrink small_diff))
      <= String.length (Diff.prompt default_flags small_diff)
         + String.length
             (Diff.truncation_notice (Diff_hidden (Diff.shrink small_diff))))%nat.
Proof.
  assert (Hwf : Diff_wf small_diff) by (unfold Diff_wf; simpl; lia).
  split; [exact Hwf |].
  apply (proj1 (proj2 (proj2 (proj2
           (shrink_grows_rendering_by_markers_only default_flags))))), Hwf.
Defined.

(** ** fit_tokens *)

Section FitTokensProperties.
Context {E : Type}.
Variable count_tokens : string -> string -> Z.
Variable shrinkable : Shrinkable E.
Variable max_prompt_tokens : Z.
Variable model_name : string.

(** A root whose prompt is a [str] or a [list], of text [text st], and whose
    [shrink] returns, leaving the state [step st]. *)
Variable text : E -> string.
Variable step : E -> E.
Hypothesis prompt_text :
  forall st, prompt_str_of (prompt shrinkable st) = Ok (text st).
Hypothesis shrink_returns : forall st, shrink shrinkable st = Ok (step st).

(** The root after [i] calls of [shrink], and whether its rendering fits the
    budget. *)
Let shrunk (i : nat) (st : E) : E := Nat.iter i step st.
Let fits (st : E) : bool :=
  count_tokens (text st) model_name <=? max_prompt_tokens.

Lemma shrunk_S i st : shrunk (S i) st = shrunk i (step st).
Proof. unfold shrunk. now rewrite Nat.iter_succ_r. Qed.

(** The loop returns at the first rendering that fits. *)
Lemma fit_loop_returns n i st last calls :
  (i < n)%nat ->
  (forall j, (j < i)%nat -> fits (shrunk j st) = false) ->
  fits (shrunk i st) = true ->
  fit_loop count_tokens shrinkable n max_prompt_tokens model_name st last calls
  = (FitReturn (prompt shrinkable (shrunk i st)), shrunk i st,
     calls + Z.of_nat i).
Proof.
  revert i st last calls. induction n as [|n IH]; intros i st last calls Hi Hover Hfit.
  - lia.
  - cbn [fit_loop]. rewrite prompt_text. destruct i as [|i].
    + unfold fits in Hfit. simpl in Hfit. rewrite Hfit.
      simpl. now rewrite Z.add_0_r.
    + pose proof (Hover 0%nat ltac:(lia)) as H0. unfold fits in H0.
      simpl in H0. rewrite H0, shrink_returns.
      rewrite (IH i); [rewrite <- shrunk_S; f_equal; lia | lia | |].
      * intros j Hj. rewrite <- shrunk_S. apply Hover. lia.
      * now rewrite <- shrunk_S.
Qed.

(** The loop runs out when no rendering fits: it has rendered [n] times and
    called [shrink] after each. *)
Lemma fit_loop_exhausts n st last calls :
  (forall j, (j < n)%nat -> fits (shrunk j st) = false) ->
  fit_loop count_tokens shrinkable n max_prompt_tokens model_name st last calls
  = (FitExhausted
       match n with
       | O => last
       | S n' => Some (prompt shrinkable (shrunk n' st), text (shrunk n' st))
       end,
     shrunk n st, calls + Z.of_nat n).
Proof.
  revert st last calls. induction n as [|n IH]; intros st last calls Hover.
  - simpl. now rewrite Z.add_0_r.
  - cbn [fit_loop]. rewrite prompt_text.
    pose proof (Hover 0%nat ltac:(lia)) as H0. unfold fits in H0.
    simpl in H0. rewrite H0, shrink_returns, IH.
    + rewrite <- shrunk_S. destruct n as [|n'].
      * f_equal. lia.
      * rewrite <- shrunk_S. f_equal. lia.
    + intros j Hj. rewrite <- shrunk_S. apply Hover. lia.
Qed.

(** What [fit_tokens] does on such a root when it has at least one
    iteration. *)
Lemma fit_tokens_protocol st max_iterations :
  (* no budget: the rendering as it is, and no shrink call *)
  fit_tokens count_tokens shrinkable st None max_iterations model_name
  = FitOutcome (Ok (prompt shrinkable st)) st 0 []
  (* the first rendering that fits is returned at once *)
  /\ (forall i,
         Z.of_nat i < max_iterations ->
         (forall j, (j < i)%nat -> fits (shrunk j st) = false) ->
         fits (shrunk i st) = true ->
         fit_tokens count_tokens shrinkable st (Some max_prompt_tokens)
           max_iterations model_name
         = FitOutcome (Ok (prompt shrinkable (shrunk i st))) (shrunk i st)
             (Z.of_nat i) [])
  (* no rendering fits: the last one is returned, with a diagnostic *)
  /\ (1 <= max_iterations ->
      (forall j, Z.of_nat j < max_iterations -> fits (shrunk j st) = false) ->
      let last := shrunk (Z.to_nat (max_iterations - 1)) st in
      fit_tokens count_tokens shrinkable st (Some max_prompt_tokens)
        max_iterations model_name
      = FitOutcome (Ok (prompt shrinkable last))
          (shrunk (Z.to_nat max_iterations) st) max_iterations
          [fit_diagnostic max_iterations
             (count_tokens (text last) default_model) max_prompt_tokens]).
Proof.
  split; [reflexivity | split].
  - intros i Hi Hover Hfit. unfold fit_tokens.
    rewrite (fit_loop_returns _ i) by (assumption || lia). reflexivity.
  - intros Hn Hover last. unfold fit_tokens.
    rewrite fit_loop_exhausts by (intros j Hj; apply Hover; lia).
    destruct (Z.to_nat max_iterations) as [|n'] eqn:En; [lia |].
    assert (Hn' : Z.to_nat (max_iterations - 1) = n') by lia.
    subst last. rewrite Hn'. f_equal. lia.
Qed.
End FitTokensProperties.

(** C2, at the inputs where the code and the claim part: with a budget and
    no iteration ([max_iterations] 0, or less), [fit_tokens] renders nothing,
    calls [shrink] never, and raises [UnboundLocalError] while building its
    diagnostic, whatever the root. *)
Theorem fit_tokens_without_iteration_raises
    {E : Type} (count_tokens : string -> string -> Z)
    (shrinkable : Shrinkable E) (st : E) (max_prompt_tokens : Z)
    (max_iterations : Z) (model_name : string) :
  max_iterations <= 0 ->
  fit_tokens count_tokens shrinkable st (Some max_prompt_tokens)
    max_iterations model_name
  = FitOutcome (Raise UnboundLocalError) st 0 [].
Proof.
  intros Hn. unfold fit_tokens.
  assert (H0 : Z.to_nat max_iterations = 0%nat) by lia.
  now rewrite H0.
Qed.

Lemma fit_tokens_without_iteration_raises_witness :
  0 <= 0
  /\ fit_tokens count_characters text_root "a prompt" (Some 3) 0 default_model
     = FitOutcome (Raise UnboundLocalError) "a prompt" 0 [].
Proof.
  split; [lia |].
  apply (fit_tokens_without_iteration_raises count_characters text_root
           "a prompt" 3 0 default_model).
  lia.
Defined.

(** ** The rate-limit wait *)

(** The wait is the configured minimum, or the duration found in the error
    text when that is greater. *)
Lemma _extract_wait_time_spec {F} `{Number F} error_message (min_retry_wait_time : F) :
  let wait_time := _extract_wait_time error_message min_retry_wait_time in
  (search_wait_hint error_message = None -> wait_time = min_retry_wait_time)
  /\ (forall g, search_wait_hint error_message = Some g ->
                wait_time
                = if num_lt min_retry_wait_time (num_of_text g)
                  then num_of_text g else min_retry_wait_time).
Proof.
  unfold _extract_wait_time.
  destruct (search_wait_hint error_message) as [g|]; cbv zeta.
  - split; [discriminate |]. now intros g' [= <-].
  - split; [reflexivity | discriminate].
Qed.

Lemma Qltb_lt a b : Qltb a b = true <-> (a < b)%Q.
Proof.
  unfold Qltb. split.
  - intros H. apply negb_true_iff in H. apply Qnot_le_lt.
    intros Hle. apply Qle_bool_iff in Hle. congruence.
  - intros H. apply negb_true_iff.
    destruct (Qle_bool b a) eqn:E; [|reflexivity].
    apply Qle_bool_iff in E. now apply Qle_not_lt in E.
Qed.


(** The exact rationals are ordered totally. *)
Lemma Q_Number_total (a b : Q) : num_ge a b = false -> num_lt a b = true.
Proof.
  cbn [num_ge num_lt Q_Number]. unfold Qltb. intros H.
  destruct (Qle_bool a b) eqn:E.
  - apply Qle_bool_iff in E. apply negb_true_iff.
    destruct (Qle_bool b a) eqn:E'; [congruence | reflexivity].
  - destruct (Qle_bool b a) eqn:E'; [congruence |].
    exfalso. destruct (Qlt_le_dec a b) as [Hlt | Hle].
    + apply Qlt_le_weak, Qle_bool_iff in Hlt. congruence.
    + apply Qle_bool_iff in Hle. congruence.
Qed.

(** ** The retry driver *)

Section RetryProperties.
Context {F W V : Type} `{Number F}.
Variable chat : list message -> W -> reply * W.
Variable n_retry : Z.
Variable parser : string -> W -> (V * bool * string) * W.
Variable min_retry_wait_time : F.
Variable rate_limit_max_wait_time : F.

Let loop := retry_loop chat n_retry parser min_retry_wait_time rate_limit_max_wait_time.
Let guard := retry_guard (W:=W) n_retry rate_limit_max_wait_time.

Lemma retry_loop_exhausted fuel st :
  guard st = false ->
  loop (S fuel) st = Some (Raise (retry_error n_retry), st).
Proof. unfold guard, retry_guard. intros Hg. simpl. now rewrite Hg. Qed.

Lemma retry_loop_rate_limited fuel st e w1 :
  guard st = true ->
  chat (messages st) (world st) = (RateLimited e, w1) ->
  let st1 := after_rate_limit min_retry_wait_time st e w1 in
  loop (S fuel) st
  = if num_ge (rate_limit_total_delay st1) rate_limit_max_wait_time
    then Some (Raise (RateLimitError e), st1)
    else loop fuel st1.
Proof.
  unfold guard, retry_guard. intros Hg Hc. simpl. rewrite Hg, Hc. reflexivity.
Qed.

Lemma retry_loop_parse_failure fuel st answer w1 value retry_message w2 :
  guard st = true ->
  chat (messages st) (world st) = (Answer answer, w1) ->
  parser (content answer) w1 = (value, false, retry_message, w2) ->
  loop (S fuel) st = loop fuel (after_parse_failure st answer retry_message w2).
Proof.
  unfold guard, retry_guard. intros Hg Hc Hp. simpl. rewrite Hg, Hc, Hp.
  unfold after_parse_failure. now rewrite <- app_assoc.
Qed.

Lemma retry_loop_success fuel st answer w1 value retry_message w2 :
  guard st = true ->
  chat (messages st) (world st) = (Answer answer, w1) ->
  parser (content answer) w1 = (value, true, retry_message, w2) ->
  loop (S fuel) st = Some (Ok value, after_success st answer w2).
Proof.
  unfold guard, retry_guard. intros Hg Hc Hp. simpl. rewrite Hg, Hc, Hp.
  reflexivity.
Qed.

(** What a run that ends has done, from any state of the loop: the parse
    failures, the rate-limit errors and the turns appended. *)
Lemma retry_loop_run fuel st r st' :
  loop fuel st = Some (r, st') ->
  exists (failures : nat) (errors : list string) (turns : list message),
    let waits := map (fun e => _extract_wait_time e min_retry_wait_time) errors in
    tries st' = tries st + Z.of_nat failures
    /\ messages st' = messages st ++ turns
    /\ Z.of_nat (length turns) = 2 * Z.of_nat failures + reply_kept r
    /\ slept st' = slept st ++ waits
    /\ rate_limit_total_delay st'
       = fold_left num_add waits (rate_limit_total_delay st)
    /\ invocations st'
       = invocations st + Z.of_nat failures + Z.of_nat (length errors)
         + reply_kept r
    /\ (forall e, r = Raise e ->
          (exists text, e = RateLimitError text
                        /\ num_ge (rate_limit_total_delay st')
                             rate_limit_max_wait_time = true)
          \/ (e = retry_error n_retry /\ guard st' = false)).
Proof.
  revert st. induction fuel as [|fuel IH]; intros st Hrun; [discriminate |].
  destruct (guard st) eqn:Hg.
  - destruct (chat (messages st) (world st)) as [[answer|e] w1] eqn:Hc.
    + destruct (parser (content answer) w1) as [[[value valid] retry_message] w2] eqn:Hp.
      destruct valid.
      * rewrite (retry_loop_success _ _ _ _ _ _ _ Hg Hc Hp) in Hrun.
        injection Hrun as <- <-.
        exists 0%nat, [], [answer]. simpl.
        rewrite !app_nil_r, !Z.add_0_r. split7; try reflexivity.
        intros e [=].
      * rewrite (retry_loop_parse_failure _ _ _ _ _ _ _ Hg Hc Hp) in Hrun.
        destruct (IH _ Hrun) as (f & es & ts & Ht & Hm & Hl & Hs & Hd & Hi & He).
        exists (S f), es, ([answer; HumanMessage retry_message] ++ ts).
        simpl in Ht, Hm, Hs, Hd, Hi. cbv zeta. split7; try assumption.
        -- lia.
        -- now rewrite Hm, <- app_assoc.
        -- rewrite length_app. simpl length. lia.
        -- lia.
    + rewrite (retry_loop_rate_limited _ _ _ _ Hg Hc) in Hrun. cbv zeta in Hrun.
      destruct (num_ge
                  (rate_limit_total_delay
                     (after_rate_limit min_retry_wait_time st e w1))
                  rate_limit_max_wait_time) eqn:Hmax.
      * injection Hrun as <- <-.
        exists 0%nat, [e], []. simpl.
        rewrite !app_nil_r, !Z.add_0_r. split7; try reflexivity.
        intros e' [= <-]. left. now exists e.
      * destruct (IH _ Hrun) as (f & es & ts & Ht & Hm & Hl & Hs & Hd & Hi & He).
        exists f, (e :: es), ts.
        simpl in Ht, Hm, Hs, Hd, Hi. cbv zeta. split7; try assumption.
        -- cbn [map]. now rewrite Hs, <- app_assoc.
        -- cbn [length]. lia.
  - rewrite (retry_loop_exhausted _ _ Hg) in Hrun.
    injection Hrun as <- <-.
    exists 0%nat, [], []. simpl. rewrite !app_nil_r, !Z.add_0_r.
    split7; try reflexivity.
    intros e [= <-]. right. auto.
Qed.

(** Numbers ordered totally: when [a >= b] fails, [a < b] holds. *)
Hypothesis num_total : forall a b : F, num_ge a b = false -> num_lt a b = true.

(** Under its delay bound, the loop ends in a retry error only with all
    [n_retry] tries used. *)
Lemma retry_loop_exhaustion fuel st e st' :
  loop fuel st = Some (Raise e, st') ->
  (forall text, e <> RateLimitError text) ->
  num_lt (rate_limit_total_delay st) rate_limit_max_wait_time = true ->
  tries st <= n_retry ->
  tries st' = n_retry.
Proof.
  revert st. induction fuel as [|fuel IH]; intros st Hrun He Hd Ht;
    [discriminate |].
  destruct (guard st) eqn:Hg.
  - assert (Hlt : tries st < n_retry).
    { unfold guard, retry_guard in Hg. apply andb_true_iff in Hg as [Hg _].
      now apply Z.ltb_lt. }
    destruct (chat (messages st) (world st)) as [[answer|text] w1] eqn:Hc.
    + destruct (parser (content answer) w1) as [[[value valid] retry_message] w2] eqn:Hp.
      destruct valid.
      * rewrite (retry_loop_success _ _ _ _ _ _ _ Hg Hc Hp) in Hrun.
        discriminate.
      * rewrite (retry_loop_parse_failure _ _ _ _ _ _ _ Hg Hc Hp) in Hrun.
        apply IH in Hrun; [exact Hrun | exact He | exact Hd | simpl; lia].
    + rewrite (retry_loop_rate_limited _ _ _ _ Hg Hc) in Hrun. cbv zeta in Hrun.
      destruct (num_ge
                  (rate_limit_total_delay
                     (after_rate_limit min_retry_wait_time st text w1))
                  rate_limit_max_wait_time) eqn:Hmax.
      * injection Hrun as <- _. now contradiction (He text).
      * apply IH in Hrun; [exact Hrun | exact He | | exact Ht].
        now apply num_total.
  - rewrite (retry_loop_exhausted _ _ Hg) in Hrun.
    injection Hrun as _ <-.
    unfold guard, retry_guard in Hg. rewrite Hd, andb_true_r in Hg.
    apply Z.ltb_ge in Hg. lia.
Qed.
End RetryProperties.

Section RetryOutcomes.
Context {F W V : Type} `{Number F}.
Variable chat : list message -> W -> reply * W.
Variable n_retry : Z.
Variable parser : string -> W -> (V * bool * string) * W.
Variable min_retry_wait_time : F.
Variable rate_limit_max_wait_time : F.

Let loop := retry_loop chat n_retry parser min_retry_wait_time rate_limit_max_wait_time.
Let guard := retry_guard (W:=W) n_retry rate_limit_max_wait_time.

(** With an endpoint that always answers and a parser that always fails, the
    loop makes one call for each try left and ends in the retry error. *)
Lemma retry_loop_always_failing (k : nat) st :
  always_answers chat -> always_fails parser ->
  num_lt (rate_limit_total_delay st) rate_limit_max_wait_time = true ->
  tries st + Z.of_nat k = n_retry ->
  exists st',
    loop (S k) st = Some (Raise (retry_error n_retry), st')
    /\ invocations st' = invocations st + Z.of_nat k
    /\ tries st' = n_retry
    /\ Z.of_nat (length (messages st'))
       = Z.of_nat (length (messages st)) + 2 * Z.of_nat k
    /\ slept st' = slept st.
Proof.
  intros Hchat Hparser. revert st.
  induction k as [|k IH]; intros st Hd Ht.
  - exists st. split; [|repeat split; lia].
    apply retry_loop_exhausted. unfold retry_guard.
    assert (Hn : (tries st <? n_retry) = false) by (apply Z.ltb_ge; lia).
    now rewrite Hn.
  - assert (Hg : guard st = true).
    { unfold guard, retry_guard. rewrite Hd, andb_true_r.
      apply Z.ltb_lt. lia. }
    destruct (Hchat (messages st) (world st)) as (answer & w1 & Hc).
    destruct (Hparser (content answer) w1) as (value & retry_message & w2 & Hp).
    destruct (IH (after_parse_failure st answer retry_message w2))
      as (st' & Hrun & Hi & Htr & Hm & Hs); [exact Hd | simpl; lia |].
    exists st'. unfold loop.
    rewrite (retry_loop_parse_failure chat n_retry parser min_retry_wait_time
               rate_limit_max_wait_time _ _ _ _ _ _ _ Hg Hc Hp).
    split; [exact Hrun |]. simpl in Hi, Hm, Hs.
    rewrite length_app in Hm. simpl length in Hm.
    repeat split; try assumption; lia.
Qed.
End RetryOutcomes.

Section RetryProtocol.
Context {F W V : Type} `{Number F}.
Variable chat : list message -> W -> reply * W.
Variable n_retry : Z.
Variable parser : string -> W -> (V * bool * string) * W.
Variable min_retry_wait_time : F.
Variable rate_limit_max_wait_time : F.

Let loop := retry_loop chat n_retry parser min_retry_wait_time rate_limit_max_wait_time.
Let run := retry chat n_retry parser min_retry_wait_time rate_limit_max_wait_time.
Let guard := retry_guard (W:=W) n_retry rate_limit_max_wait_time.

(** C1. [retry], for any endpoint, conversation and parser, and for numbers
    of any arithmetic.
    - On a rate-limit error it sleeps the wait taken from the error text,
      [max] of [min_retry_wait_time] and the duration found, adds it to the
      accrued delay, re-raises the error once the accrued delay has reached
      [rate_limit_max_wait_time], and otherwise calls again with the try
      counter and the conversation as they were.
    - On a reply that does not parse it appends the reply and a turn made of
      the parser's message, and counts one try.
    - On a reply that parses it appends the reply and returns the value.
    - With [n_retry] tries used it raises the retry error; with a parser that
      always fails, and an endpoint that always answers, this happens after
      [n_retry] calls of the endpoint.
    - A parser that fails twice and then succeeds leaves the conversation
      five turns longer, with two tries used.
    - Any run that ends has appended two turns for each failure, and one more
      if it returned, has called the endpoint once for each failure and each
      rate-limit error, and once more if it returned, and has slept the wait
      of each error, the waits adding up to the accrued delay. *)
Theorem retry_follows_protocol :
  (* a rate-limit error *)
  (forall fuel st e w1,
      guard st = true ->
      chat (messages st) (world st) = (RateLimited e, w1) ->
      let wait_time := _extract_wait_time e min_retry_wait_time in
      let st1 := after_rate_limit min_retry_wait_time st e w1 in
      (search_wait_hint e = None -> wait_time = min_retry_wait_time)
      /\ (forall g, search_wait_hint e = Some g ->
                    wait_time
                    = if num_lt min_retry_wait_time (num_of_text g)
                      then num_of_text g else min_retry_wait_time)
      /\ slept st1 = slept st ++ [wait_time]
      /\ rate_limit_total_delay st1
         = num_add (rate_limit_total_delay st) wait_time
      /\ tries st1 = tries st
      /\ messages st1 = messages st
      /\ (num_ge (rate_limit_total_delay st1) rate_limit_max_wait_time = true ->
          loop (S fuel) st = Some (Raise (RateLimitError e), st1))
      /\ (num_ge (rate_limit_total_delay st1) rate_limit_max_wait_time = false ->
          loop (S fuel) st = loop fuel st1))
  (* a reply that does not parse *)
  /\ (forall fuel st answer w1 value retry_message w2,
         guard st = true ->
         chat (messages st) (world st) = (Answer answer, w1) ->
         parser (content answer) w1 = (value, false, retry_message, w2) ->
         let st2 := after_parse_failure st answer retry_message w2 in
         loop (S fuel) st = loop fuel st2
         /\ messages st2 = messages st ++ [answer; HumanMessage retry_message]
         /\ tries st2 = tries st + 1
         /\ rate_limit_total_delay st2 = rate_limit_total_delay st)
  (* a reply that parses *)
  /\ (forall fuel st answer w1 value retry_message w2,
         guard st = true ->
         chat (messages st) (world st) = (Answer answer, w1) ->
         parser (content answer) w1 = (value, true, retry_message, w2) ->
         let st3 := after_success st answer w2 in
         loop (S fuel) st = Some (Ok value, st3)
         /\ messages st3 = messages st ++ [answer]
         /\ tries st3 = tries st)
  (* all tries used *)
  /\ (forall fuel st,
         n_retry <= tries st ->
         loop (S fuel) st = Some (Raise (retry_error n_retry), st))
  (* a parser that always fails *)
  /\ (forall ms w,
         always_answers chat -> always_fails parser ->
         0 <= n_retry -> num_lt num_zero rate_limit_max_wait_time = true ->
         exists st',
           run (S (Z.to_nat n_retry)) ms w
           = Some (Raise (retry_error n_retry), st')
           /\ invocations st' = n_retry
           /\ tries st' = n_retry
           /\ Z.of_nat (length (messages st'))
              = Z.of_nat (length ms) + 2 * n_retry
           /\ slept st' = [])
  (* a parser that fails twice and then succeeds *)
  /\ (forall ms w a1 w1 v1 m1 w1' a2 w2 v2 m2 w2' a3 w3 v3 m3 w3',
         3 <= n_retry -> num_lt num_zero rate_limit_max_wait_time = true ->
         chat ms w = (Answer a1, w1) ->
         parser (content a1) w1 = (v1, false, m1, w1') ->
         chat (ms ++ [a1; HumanMessage m1]) w1' = (Answer a2, w2) ->
         parser (content a2) w2 = (v2, false, m2, w2') ->
         chat (ms ++ [a1; HumanMessage m1; a2; HumanMessage m2]) w2'
         = (Answer a3, w3) ->
         parser (content a3) w3 = (v3, true, m3, w3') ->
         exists st',
           run 3%nat ms w = Some (Ok v3, st')
           /\ messages st'
              = ms ++ [a1; HumanMessage m1; a2; HumanMessage m2; a3]
           /\ length (messages st') = (length ms + 5)%nat
           /\ tries st' = 2
           /\ invocations st' = 3)
  (* any run that ends *)
  /\ (forall fuel ms w r st',
         run fuel ms w = Some (r, st') ->
         exists (failures : nat) (errors : list string) (turns : list message),
           let waits :=
             map (fun e => _extract_wait_time e min_retry_wait_time) errors in
           tries st' = Z.of_nat failures
           /\ messages st' = ms ++ turns
           /\ Z.of_nat (length turns) = 2 * Z.of_nat failures + reply_kept r
           /\ slept st' = waits
           /\ rate_limit_total_delay st' = fold_left num_add waits num_zero
           /\ invocations st'
              = Z.of_nat failures + Z.of_nat (length errors) + reply_kept r
           /\ (forall e, r = Raise e ->
                 (exists text, e = RateLimitError text
                    /\ num_ge (rate_limit_total_delay st')
                         rate_limit_max_wait_time = true)
                 \/ (e = retry_error n_retry
                     /\ ((forall a b : F, num_ge a b = false -> num_lt a b = true) ->
                         0 <= n_retry ->
                         num_lt num_zero rate_limit_max_wait_time = true ->
                         tries st' = n_retry)))).
Proof.
  split; [|split; [|split; [|split; [|split; [|split]]]]].
  - intros fuel st e w1 Hg Hc wait_time st1.
    destruct (_extract_wait_time_spec e min_retry_wait_time) as (Hnone & Hsome).
    split; [exact Hnone | split; [exact Hsome |]].
    do 4 (split; [reflexivity |]).
    pose proof (retry_loop_rate_limited chat n_retry parser min_retry_wait_time
                  rate_limit_max_wait_time fuel st e w1 Hg Hc) as Hstep.
    cbv zeta in Hstep. fold loop st1 in Hstep.
    split; intros Hmax; now rewrite Hmax in Hstep.
  - intros fuel st answer w1 value retry_message w2 Hg Hc Hp st2.
    split; [|repeat split].
    now apply (retry_loop_parse_failure chat n_retry parser min_retry_wait_time
                 rate_limit_max_wait_time fuel st answer w1 value).
  - intros fuel st answer w1 value retry_message w2 Hg Hc Hp st3.
    split; [|repeat split].
    now apply (retry_loop_success chat n_retry parser min_retry_wait_time
                 rate_limit_max_wait_time fuel st answer w1 value retry_message).
  - intros fuel st Ht. apply retry_loop_exhausted. unfold retry_guard.
    assert (Hn : (tries st <? n_retry) = false) by (apply Z.ltb_ge; lia).
    now rewrite Hn.
  - intros ms w Hchat Hparser Hn Hmax.
    destruct (retry_loop_always_failing chat n_retry parser min_retry_wait_time
                rate_limit_max_wait_time (Z.to_nat n_retry) (retry_init ms w)
                Hchat Hparser) as (st' & Hrun & Hi & Ht & Hm & Hs).
    + exact Hmax.
    + simpl. lia.
    + exists st'. split; [exact Hrun |]. simpl in Hi, Hm, Hs.
      repeat split; try assumption; lia.
  - intros ms w a1 w1 v1 m1 w1' a2 w2 v2 m2 w2' a3 w3 v3 m3 w3'
      Hn Hmax Hc1 Hp1 Hc2 Hp2 Hc3 Hp3.
    assert (Hg : forall st : retry_state F W,
               tries st < 3 -> rate_limit_total_delay st = num_zero ->
               guard st = true).
    { intros st Ht Hd. unfold guard, retry_guard. rewrite Hd, Hmax.
      assert (Hlt : (tries st <? n_retry) = true) by (apply Z.ltb_lt; lia).
      now rewrite Hlt. }
    set (st1 := after_parse_failure (retry_init ms w) a1 m1 w1').
    set (st2 := after_parse_failure st1 a2 m2 w2').
    exists (after_success st2 a3 w3'). split.
    + unfold run, retry.
      rewrite (retry_loop_parse_failure chat n_retry parser min_retry_wait_time
                 rate_limit_max_wait_time _ _ a1 w1 v1 m1 w1');
        [|apply Hg; simpl; [lia | reflexivity] | exact Hc1 | exact Hp1].
      fold st1.
      rewrite (retry_loop_parse_failure chat n_retry parser min_retry_wait_time
                 rate_limit_max_wait_time _ _ a2 w2 v2 m2 w2');
        [|apply Hg; simpl; [lia | reflexivity] | exact Hc2 | exact Hp2].
      fold st2.
      apply (retry_loop_success chat n_retry parser min_retry_wait_time
               rate_limit_max_wait_time _ _ a3 w3 v3 m3 w3');
        [apply Hg; simpl; [lia | reflexivity] | | exact Hp3].
      simpl. rewrite <- app_assoc. exact Hc3.
    + simpl. rewrite <- !app_assoc. simpl.
      repeat split. rewrite length_app. simpl. lia.
  - intros fuel ms w r st' Hrun.
    destruct (retry_loop_run chat n_retry parser min_retry_wait_time
                rate_limit_max_wait_time fuel (retry_init ms w) r st' Hrun)
      as (f & es & ts & Ht & Hm & Hl & Hs & Hd & Hi & He).
    exists f, es, ts. simpl in Ht, Hm, Hs, Hd, Hi. cbv zeta.
    split7; try assumption; try lia.
    intros e ->. destruct (He e eq_refl) as [Hrl | [-> Hguard]];
      [now left | right].
    split; [reflexivity |]. intros Htotal Hn Hmax.
    apply (retry_loop_exhaustion chat n_retry parser min_retry_wait_time
             rate_limit_max_wait_time Htotal fuel (retry_init ms w) _ st' Hrun).
    + intros text. discriminate.
    + exact Hmax.
    + simpl. lia.
Qed.
End RetryProtocol.

Lemma retry_follows_protocol_witness :
  exists st',
    retry (scripted_chat three_replies) 3 action_parser 60%Q 1800%Q 3 first_turn 0%nat
    = Some (Ok {["action" := PStr "click"]}, st')
    /\ messages st'
       = first_turn
         ++ [reply_without_tag;
             HumanMessage "Missing the key <action> in the answer.";
             reply_with_two_tags;
             HumanMessage
               "Found multiple instances of the key action. You should have only one of them.";
             reply_as_asked]
    /\ length (messages st') = (length first_turn + 5)%nat
    /\ tries st' = 2
    /\ invocations st' = 3.
Proof.
  refine (proj1 (proj2 (proj2 (proj2 (proj2 (proj2
            (retry_follows_protocol (scripted_chat three_replies) 3
               action_parser 60%Q 1800%Q))))))
            first_turn 0%nat
            reply_without_tag 1%nat _ _ 1%nat
            reply_with_two_tags 2%nat _ _ 2%nat
            reply_as_asked 3%nat _ EmptyString 3%nat _ _ _ _ _ _ _ _);
    first [reflexivity | lia].
Defined.

(** ** Searching a text *)

Lemma strip_prefix_Some p s r : strip_prefix p s = Some r <-> s = p +:+ r.
Proof.
  revert s. induction p as [|a p IH]; intros s.
  - rewrite append_nil_l. simpl. split; congruence.
  - rewrite append_cons. destruct s as [|b s]; simpl; [split; discriminate |].
    destruct (Ascii.eqb_spec a b) as [-> | Hab].
    + rewrite IH. split; congruence.
    + split; [discriminate | congruence].
Qed.

Lemma str_find_Some p s a b :
  str_find p s = Some (a, b) <-> first_occurrence p s a b.
Proof.
  unfold first_occurrence. split.
  - revert a. induction s as [|c s IH]; intros a; simpl.
    + destruct (strip_prefix p "") as [r|] eqn:Ep; [|discriminate].
      intros [= <- <-]. apply strip_prefix_Some in Ep.
      split; [now rewrite append_nil_l | simpl; lia].
    + destruct (strip_prefix p (String c s)) as [r|] eqn:Ep.
      * intros [= <- <-]. apply strip_prefix_Some in Ep.
        split; [now rewrite append_nil_l | simpl; lia].
      * destruct (str_find p s) as [[before after]|]; [|discriminate].
        intros [= <- <-]. destruct (IH before eq_refl) as [Hs Hleft].
        split; [now rewrite append_cons, <- Hs |].
        intros [|c' a'] b' Hocc.
        -- rewrite append_nil_l in Hocc. apply strip_prefix_Some in Hocc.
           congruence.
        -- rewrite append_cons in Hocc. injection Hocc as _ Hocc.
           apply Hleft in Hocc. simpl. lia.
  - revert s. induction a as [|c a IH]; intros s [Hs Hleft].
    + rewrite append_nil_l in Hs. apply strip_prefix_Some in Hs.
      destruct s; simpl; now rewrite Hs.
    + rewrite append_cons in Hs. subst s. simpl.
      destruct (strip_prefix p (String c (a +:+ p +:+ b))) as [r|] eqn:Ep.
      * apply strip_prefix_Some in Ep.
        specialize (Hleft EmptyString r). rewrite append_nil_l in Hleft.
        specialize (Hleft Ep). simpl in Hleft. lia.
      * rewrite (IH (a +:+ p +:+ b)); [reflexivity |].
        split; [reflexivity |]. intros a' b' Hocc.
        specialize (Hleft (String c a') b'). rewrite append_cons in Hleft.
        rewrite Hocc in Hleft. specialize (Hleft eq_refl). simpl in Hleft. lia.
Qed.

Lemma str_find_None p s : str_find p s = None <-> no_occurrence p s.
Proof.
  unfold no_occurrence. split.
  - induction s as [|c s IH]; simpl.
    + destruct (strip_prefix p "") as [r|] eqn:Ep; [discriminate |].
      intros _ [|c a] b Hs.
      * rewrite append_nil_l in Hs. apply strip_prefix_Some in Hs. congruence.
      * rewrite append_cons in Hs. discriminate.
    + destruct (strip_prefix p (String c s)) as [r|] eqn:Ep; [discriminate |].
      destruct (str_find p s) as [[before after]|]; [discriminate |].
      intros _ [|c' a] b Hs.
      * rewrite append_nil_l in Hs. apply strip_prefix_Some in Hs. congruence.
      * rewrite append_cons in Hs. injection Hs as _ Hs.
        now apply (IH eq_refl a b).
  - intros Hno. destruct (str_find p s) as [[a b]|] eqn:E; [|reflexivity].
    apply str_find_Some in E as [Hs _]. now apply Hno in Hs.
Qed.

Lemma str_find_length p s a b :
  str_find p s = Some (a, b) ->
  String.length s = (String.length a + String.length p + String.length b)%nat.
Proof.
  intros H. apply str_find_Some in H as [-> _].
  rewrite !length_append. lia.
Qed.

(** ** The matches of a tag pair *)

Lemma re_findall_tag_name key text :
  re_findall_tag key text = findall_name (key_name key) text.
Proof. reflexivity. Qed.

Lemma open_tag_length name : (1 <= String.length (open_tag name))%nat.
Proof. unfold open_tag. rewrite length_append. simpl. lia. Qed.

(** Enough fuel is as good as more. *)
Lemma findall_tag_fuel name f1 f2 text :
  (String.length text <= f1)%nat -> (String.length text <= f2)%nat ->
  findall_tag f1 (open_tag name) (close_tag name) text
  = findall_tag f2 (open_tag name) (close_tag name) text.
Proof.
  revert f2 text. induction f1 as [|f1 IH]; intros f2 text H1 H2.
  - destruct text; [|simpl in H1; lia].
    destruct f2; reflexivity.
  - destruct f2 as [|f2].
    + destruct text; [reflexivity | simpl in H2; lia].
    + simpl. destruct (str_find (open_tag name) text) as [[pre r]|] eqn:Eo;
        [|reflexivity].
      destruct (str_find (close_tag name) r) as [[inner r']|] eqn:Ec;
        [|reflexivity].
      apply str_find_length in Eo, Ec. pose proof (open_tag_length name).
      f_equal. apply IH; lia.
Qed.

(** The matches, from left to right: the leftmost opening tag, the nearest
    closing tag behind it, and on from there. *)
Lemma findall_name_unfold name text :
  findall_name name text
  = match str_find (open_tag name) text with
    | None => []
    | Some (_, r) =>
        match str_find (close_tag name) r with
        | None => []
        | Some (inner, r') => inner :: findall_name name r'
        end
    end.
Proof.
  unfold findall_name. destruct text as [|c text]; [reflexivity |].
  cbn [String.length findall_tag].
  destruct (str_find (open_tag name) (String c text)) as [[pre r]|] eqn:Eo;
    [|reflexivity].
  destruct (str_find (close_tag name) r) as [[inner r']|] eqn:Ec;
    [|reflexivity].
  apply str_find_length in Eo, Ec. pose proof (open_tag_length name).
  simpl in Eo. f_equal. apply findall_tag_fuel; lia.
Qed.

(** No opening tag, no match. *)
Lemma findall_name_no_open name text :
  no_occurrence (open_tag name) text -> findall_name name text = [].
Proof.
  intros H. apply str_find_None in H. now rewrite findall_name_unfold, H.
Qed.

(** An opening tag with no closing tag behind it is no match. *)
Lemma findall_name_unclosed name text pre rest :
  first_occurrence (open_tag name) text pre rest ->
  no_occurrence (close_tag name) rest ->
  findall_name name text = [].
Proof.
  intros Ho Hc. apply str_find_Some in Ho. apply str_find_None in Hc.
  now rewrite findall_name_unfold, Ho, Hc.
Qed.

(** The leftmost tag pair is the first match; the others are those of the
    text behind it. *)
Lemma findall_name_pair name text pre rest inner post :
  first_occurrence (open_tag name) text pre rest ->
  first_occurrence (close_tag name) rest inner post ->
  findall_name name text = inner :: findall_name name post.
Proof.
  intros Ho Hc. apply str_find_Some in Ho, Hc.
  now rewrite findall_name_unfold, Ho, Hc.
Qed.

(** ** The parser *)

Lemma key_in_In name keys :
  key_in name keys = true <-> In name (map key_name keys).
Proof.
  unfold key_in. rewrite existsb_exists, in_map_iff. split.
  - intros (k & Hk & E). apply String.eqb_eq in E. eauto.
  - intros (k & E & Hk). exists k. split; [exact Hk |].
    now apply String.eqb_eq.
Qed.

Lemma key_in_cons name k keys :
  key_in name (k :: keys) = String.eqb name (key_name k) || key_in name keys.
Proof. reflexivity. Qed.

Lemma extract_fold_lookup text keys (d : gmap string (list string)) name :
  fold_left (extract_step text) keys d !! name
  = if key_in name keys then
      match findall_name name text with
      | [] => d !! name
      | matches => Some (map strip matches)
      end
    else d !! name.
Proof.
  revert d. induction keys as [|k ks IH]; intros d; [reflexivity |].
  cbn [fold_left]. rewrite IH, key_in_cons.
  unfold extract_step. rewrite re_findall_tag_name.
  destruct (String.eqb_spec name (key_name k)) as [-> | Hne]; cbn [orb].
  - destruct (findall_name (key_name k) text) as [|m ms] eqn:Ef.
    + now destruct (key_in (key_name k) ks).
    + rewrite lookup_insert_eq. now destruct (key_in (key_name k) ks).
  - destruct (findall_name (key_name k) text) as [|m ms]; [reflexivity |].
    rewrite lookup_insert_ne by congruence. reflexivity.
Qed.

(** What [extract_html_tags] stores: for each key with a match, its matches,
    stripped; nothing else. *)
Lemma extract_html_tags_lookup text keys name :
  extract_html_tags text keys !! name
  = if key_in name keys then
      match findall_name name text with
      | [] => None
      | matches => Some (map strip matches)
      end
    else None.
Proof.
  unfold extract_html_tags.
  change (fold_left _ keys ∅) with (fold_left (extract_step text) keys ∅).
  rewrite extract_fold_lookup, lookup_empty.
  now destruct (key_in name keys), (findall_name name text).
Qed.

Lemma extract_html_tags_nonempty text keys name matches :
  extract_html_tags text keys !! name = Some matches -> matches <> [].
Proof.
  rewrite extract_html_tags_lookup.
  destruct (key_in name keys); [|discriminate].
  destruct (findall_name name text); [discriminate |].
  intros [= <-]. discriminate.
Qed.

Lemma parse_key_missing optional_keys merge_multiple d msgs key :
  d !! key_name key = None ->
  parse_key optional_keys merge_multiple (d, msgs) key
  = Ok (d, msgs ++ key_messages optional_keys merge_multiple None key).
Proof.
  intros H. unfold parse_key, key_messages. rewrite H.
  destruct (negb _); [reflexivity | now rewrite app_nil_r].
Qed.

Lemma parse_key_found optional_keys merge_multiple d msgs key matches :
  d !! key_name key = Some (PList matches) -> matches <> [] ->
  parse_key optional_keys merge_multiple (d, msgs) key
  = Ok (<[key_name key := key_value merge_multiple matches]> d,
        msgs ++ key_messages optional_keys merge_multiple (Some matches) key).
Proof.
  intros H Hne. unfold parse_key, key_messages, key_value. rewrite H.
  destruct matches as [|m ms]; [contradiction |].
  cbn [index0 mbind result_bind pylen join_val].
  destruct (1 <? Z.of_nat (length (m :: ms))); cbn [andb];
    [|now rewrite app_nil_r].
  destruct merge_multiple; cbn [negb]; [|reflexivity].
  now rewrite insert_insert_eq, app_nil_r.
Qed.

(** The loop of [parse_html_tags] over keys with different names, on a
    dictionary that still holds, for these keys, the matches found. *)
Lemma parse_keys_spec optional_keys merge_multiple
    (found : gmap string (list string)) keys :
  List.NoDup (map key_name keys) ->
  (forall name matches, found !! name = Some matches -> matches <> []) ->
  forall (d : gmap string pyval) (msgs : list string),
    (forall k, In k keys -> d !! key_name k = PList <$> found !! key_name k) ->
    exists d',
      parse_keys optional_keys merge_multiple keys (d, msgs)
      = Ok (d',
            msgs ++ flat_map
                      (fun k => key_messages optional_keys merge_multiple
                                  (found !! key_name k) k) keys)
      /\ forall name,
          d' !! name
          = if key_in name keys
            then key_value merge_multiple <$> found !! name
            else d !! name.
Proof.
  intros Hnodup Hfound.
  induction keys as [|k ks IH]; intros d msgs Hd.
  - exists d. simpl. now rewrite app_nil_r.
  - apply List.NoDup_cons_iff in Hnodup as [Hk Hks]. specialize (IH Hks).
    assert (Hother : forall k', In k' ks -> key_name k' <> key_name k).
    { intros k' Hin E. apply Hk. rewrite <- E. now apply in_map. }
    pose proof (Hd k (or_introl eq_refl)) as Hdk.
    cbn [parse_keys flat_map].
    destruct (found !! key_name k) as [matches|] eqn:Ef; simpl in Hdk.
    + rewrite (parse_key_found _ _ _ _ _ matches Hdk (Hfound _ _ Ef)).
      cbn [mbind result_bind].
      destruct (IH (<[key_name k := key_value merge_multiple matches]> d)
                  (msgs ++ key_messages optional_keys merge_multiple (Some matches) k))
        as (d' & Hrun & Hlook).
      { intros k' Hin. rewrite lookup_insert_ne by (apply not_eq_sym; auto).
        apply Hd. now right. }
      exists d'. split; [now rewrite Hrun, <- app_assoc |].
      intros name. rewrite Hlook, key_in_cons.
      destruct (String.eqb_spec name (key_name k)) as [-> | Hne]; cbn [orb].
      * assert (Hnot : key_in (key_name k) ks = false).
        { destruct (key_in (key_name k) ks) eqn:E; [|reflexivity].
          apply key_in_In in E. contradiction. }
        now rewrite Hnot, lookup_insert_eq, Ef.
      * rewrite lookup_insert_ne by congruence. reflexivity.
    + rewrite (parse_key_missing _ _ _ _ _ Hdk). cbn [mbind result_bind].
      destruct (IH d (msgs ++ key_messages optional_keys merge_multiple None k))
        as (d' & Hrun & Hlook).
      { intros k' Hin. apply Hd. now right. }
      exists d'. split; [now rewrite Hrun, <- app_assoc |].
      intros name. rewrite Hlook, key_in_cons.
      destruct (String.eqb_spec name (key_name k)) as [-> | Hne]; cbn [orb];
        [|reflexivity].
      assert (Hnot : key_in (key_name k) ks = false).
      { destruct (key_in (key_name k) ks) eqn:E; [|reflexivity].
        apply key_in_In in E. contradiction. }
      now rewrite Hnot, Hdk, Ef.
Qed.

(** What the loop of [parse_html_tags] ends with, for keys with different
    names: each key found holds its value, and the messages are those of the
    keys, in their order. *)
Lemma parse_html_tags_loop_spec text keys optional_keys merge_multiple :
  List.NoDup (map key_name (keys ++ optional_keys)) ->
  parse_html_tags_loop text keys optional_keys merge_multiple
  = Ok (key_value merge_multiple
          <$> extract_html_tags text (keys ++ optional_keys),
        all_messages text keys optional_keys merge_multiple).
Proof.
  intros Hnodup. unfold parse_html_tags_loop.
  set (all_keys := keys ++ optional_keys) in *.
  set (found := extract_html_tags text all_keys).
  destruct (parse_keys_spec optional_keys merge_multiple found all_keys Hnodup
              (extract_html_tags_nonempty text all_keys)
              (PList <$> found) [])
    as (d' & Hrun & Hlook).
  { intros k _. apply lookup_fmap. }
  rewrite Hrun. cbn [app]. f_equal. f_equal.
  apply map_eq. intros name. rewrite Hlook, !lookup_fmap.
  destruct (key_in name all_keys) eqn:E; [reflexivity |].
  unfold found. rewrite extract_html_tags_lookup, E. reflexivity.
Qed.

Lemma findall_name_tagged name contents text :
  tagged name contents text -> findall_name name text = contents.
Proof.
  induction 1 as [text Hno | text pre rest inner post contents Ho Hc _ IH].
  - now apply findall_name_no_open.
  - rewrite (findall_name_pair _ _ _ _ _ _ Ho Hc). now rewrite IH.
Qed.

Lemma parse_html_tags_spec text keys optional_keys merge_multiple :
  List.NoDup (map key_name (keys ++ optional_keys)) ->
  let msgs := all_messages text keys optional_keys merge_multiple in
  parse_html_tags text keys optional_keys merge_multiple
  = Ok (key_value merge_multiple
          <$> extract_html_tags text (keys ++ optional_keys),
        Z.of_nat (length msgs) =? 0, str_join nl msgs).
Proof.
  intros Hnodup msgs. unfold parse_html_tags.
  now rewrite parse_html_tags_loop_spec.
Qed.

Lemma In_key_in (k : tag_key) keys : In k keys -> key_in k keys = true.
Proof. intros H. apply key_in_In. now apply in_map. Qed.

(** A required key is not an optional one, when the names differ. *)
Lemma required_not_optional (k : tag_key) keys optional_keys :
  List.NoDup (map key_name (keys ++ optional_keys)) ->
  In k keys -> key_in k optional_keys = false.
Proof.
  intros Hnodup Hin. destruct (key_in k optional_keys) eqn:E; [|reflexivity].
  apply key_in_In in E. rewrite map_app in Hnodup.
  apply (in_map key_name) in Hin.
  revert Hnodup Hin E. generalize (map key_name keys) as ns.
  generalize (map key_name optional_keys) as os. intros os ns.
  induction ns as [|n ns IH]; intros Hnodup Hin E; [contradiction |].
  simpl in Hnodup. apply List.NoDup_cons_iff in Hnodup as [Hn Hns].
  destruct Hin as [-> | Hin]; [|now apply IH].
  exfalso. apply Hn. apply in_or_app. now right.
Qed.

Lemma key_messages_In text keys optional_keys merge_multiple (k : tag_key) msg :
  In k (keys ++ optional_keys) ->
  In msg (key_messages optional_keys merge_multiple
            (extract_html_tags text (keys ++ optional_keys) !! key_name k) k) ->
  In msg (all_messages text keys optional_keys merge_multiple).
Proof.
  intros Hk Hmsg. unfold all_messages. apply in_flat_map. eauto.
Qed.

Lemma no_messages_iff (msgs : list string) :
  (Z.of_nat (length msgs) =? 0) = true <-> msgs = [].
Proof.
  destruct msgs; simpl; split; try reflexivity; try discriminate.
Qed.

Lemma some_message_invalid (msgs : list string) msg :
  In msg msgs -> (Z.of_nat (length msgs) =? 0) = false.
Proof. destruct msgs; [contradiction | reflexivity]. Qed.

(** The text [<action>click</action>] alone, or with text around it that
    holds no other opening tag, is one tag pair with the content [click]. *)
Lemma click_is_tagged pre post :
  first_occurrence (open_tag "action")
    (pre +:+ "<action>click</action>" +:+ post) pre ("click</action>" +:+ post) ->
  no_occurrence (open_tag "action") post ->
  tagged "action" ["click"] (pre +:+ "<action>click</action>" +:+ post).
Proof.
  intros Ho Hno.
  apply (tagged_pair _ _ pre ("click</action>" +:+ post) "click" post);
    [exact Ho | | now apply tagged_end].
  apply str_find_Some. reflexivity.
Qed.

(** C3. [parse_html_tags], for keys with different names.  It is valid
    exactly when no message was gathered, and its message is the gathered
    messages joined by a line feed.  A required key without a match adds a
    message that starts with "Missing the key"; a key with several matches
    adds the message about multiple instances unless they are merged, in
    which case its value is the matches joined by a line feed; an optional
    key without a match is not in the result.  [parse_html_tags_raise] raises
    a [ParseError] with that message exactly when the result is not valid,
    and returns the same dictionary otherwise.  A text that holds
    [<action>click</action>] as its only [action] pair parses, with the key
    [action], to the dictionary with [click] under [action], and is valid. *)
Theorem parse_html_tags_validates
    (text : string) (keys optional_keys : list tag_key) (merge_multiple : bool) :
  List.NoDup (map key_name (keys ++ optional_keys)) ->
  let msgs := all_messages text keys optional_keys merge_multiple in
  let d := key_value merge_multiple
             <$> extract_html_tags text (keys ++ optional_keys) in
  let valid := Z.of_nat (length msgs) =? 0 in
  parse_html_tags text keys optional_keys merge_multiple
  = Ok (d, valid, str_join nl msgs)
  /\ (valid = true <-> msgs = [])
  /\ (forall k : tag_key,
         In k keys -> findall_name k text = [] ->
         In (missing_message k) msgs
         /\ missing_message k
            = "Missing the key" +:+ " <" +:+ k +:+ "> in the answer."
         /\ valid = false
         /\ d !! key_name k = None)
  /\ (forall k : tag_key,
         In k (keys ++ optional_keys) ->
         (2 <= length (findall_name k text))%nat ->
         (merge_multiple = false ->
          In (multiple_message k) msgs /\ valid = false)
         /\ (merge_multiple = true ->
             d !! key_name k
             = Some (PStr (str_join nl (map strip (findall_name k text))))))
  /\ (forall k : tag_key,
         In k optional_keys -> findall_name k text = [] ->
         d !! key_name k = None)
  /\ parse_html_tags_raise text keys optional_keys merge_multiple
     = (if valid then Ok d else Raise (ParseError (str_join nl msgs)))
  /\ (forall pre post merge,
         first_occurrence (open_tag "action")
           (pre +:+ "<action>click</action>" +:+ post) pre
           ("click</action>" +:+ post) ->
         no_occurrence (open_tag "action") post ->
         parse_html_tags (pre +:+ "<action>click</action>" +:+ post)
           [action_key] [] merge
         = Ok ({["action" := PStr "click"]}, true, EmptyString)).
Proof.
  intros Hnodup msgs d valid.
  pose proof (parse_html_tags_spec text keys optional_keys merge_multiple Hnodup)
    as Hparse. cbv zeta in Hparse. fold msgs d valid in Hparse.
  split; [exact Hparse |].
  split; [apply no_messages_iff |].
  split; [|split; [|split; [|split]]].
  - intros k Hk Hnone.
    assert (Hlook : extract_html_tags text (keys ++ optional_keys) !! key_name k
                    = None).
    { rewrite extract_html_tags_lookup, Hnone.
      now destruct (key_in k (keys ++ optional_keys)). }
    assert (Hin : In (missing_message k) msgs).
    { apply (key_messages_In text keys optional_keys merge_multiple k).
      - apply in_or_app. now left.
      - rewrite Hlook. unfold key_messages.
        rewrite (required_not_optional k keys optional_keys Hnodup Hk).
        now left. }
    split; [exact Hin | split; [reflexivity | split]].
    + exact (some_message_invalid msgs _ Hin).
    + unfold d. now rewrite lookup_fmap, Hlook.
  - intros k Hk Hmany.
    assert (Hlook : extract_html_tags text (keys ++ optional_keys) !! key_name k
                    = Some (map strip (findall_name k text))).
    { rewrite extract_html_tags_lookup, (In_key_in k _ Hk).
      destruct (findall_name k text); [simpl in Hmany; lia | reflexivity]. }
    assert (Hlen : (1 <? Z.of_nat (length (map strip (findall_name k text))))
                   = true).
    { rewrite length_map. apply Z.ltb_lt. lia. }
    split; intros ->.
    + assert (Hin : In (multiple_message k) msgs).
      { apply (key_messages_In text keys optional_keys false k _ Hk).
        rewrite Hlook. unfold key_messages. rewrite Hlen. now left. }
      split; [exact Hin | exact (some_message_invalid msgs _ Hin)].
    + unfold d. rewrite lookup_fmap, Hlook. cbn [fmap option_fmap option_map].
      unfold key_value. rewrite Hlen.
      destruct (map strip (findall_name k text)) eqn:E; [|reflexivity].
      apply (f_equal (@length _)) in E. rewrite length_map in E.
      simpl in E. lia.
  - intros k Hk Hnone. unfold d.
    rewrite lookup_fmap, extract_html_tags_lookup, Hnone.
    now destruct (key_in k (keys ++ optional_keys)).
  - unfold parse_html_tags_raise. rewrite Hparse. cbn [mbind result_bind].
    now destruct valid.
  - intros pre post merge Ho Hno.
    rewrite parse_html_tags_spec by (repeat constructor; simpl; tauto).
    pose proof (findall_name_tagged _ _ _ (click_is_tagged pre post Ho Hno))
      as Hfind.
    assert (Hfound : extract_html_tags
                       (pre +:+ "<action>click</action>" +:+ post)
                       ([action_key] ++ [])
                     = {["action" := ["click"]]}).
    { apply map_eq. intros name. rewrite extract_html_tags_lookup.
      cbn [app key_in existsb orb key_name action_key].
      destruct (String.eqb_spec name "action") as [-> | Hne]; cbn [orb].
      - now rewrite Hfind, lookup_singleton_eq.
      - now rewrite lookup_singleton_ne by congruence. }
    unfold all_messages. rewrite Hfound.
    cbn [app flat_map key_name action_key]. rewrite lookup_singleton_eq.
    rewrite map_fmap_singleton. destruct merge; reflexivity.
Qed.

Lemma parse_html_tags_validates_witness :
  let text := "Sure. <action>click</action> <think>a</think><think>b</think>" in
  List.NoDup (map key_name ([action_key] ++ [think_key]))
  /\ parse_html_tags text [action_key] [think_key] true
     = Ok ({["action" := PStr "click"; "think" := PStr ("a" +:+ nl +:+ "b")]},
           true, EmptyString).
Proof.
  intros text.
  assert (Hnodup : List.NoDup (map key_name ([action_key] ++ [think_key]))).
  { repeat constructor; simpl; intuition discriminate. }
  split; [exact Hnodup |].
  exact (proj1 (parse_html_tags_validates text [action_key] [think_key] true
                  Hnodup)).
Defined.

(** C7. The extraction looks for every key of the union of the required and
    the optional keys, and for no other name, and stores the stripped
    matches of each key that has one.  The matches of a key are the contents
    of its tag pairs, taken from left to right: the leftmost opening tag
    [<key>], the nearest closing tag [</key>] behind it, and on from behind
    that closing tag; so a text made of tag pairs that follow one another
    yields all their contents.  The tags are compared character by
    character, so case matters, and a content may hold line boundaries.  A
    key with exactly one match ends with the stripped content of that pair. *)
Theorem extraction_matches_tag_pairs
    (text : string) (keys optional_keys : list tag_key) :
  (forall name,
      extract_html_tags text (keys ++ optional_keys) !! name
      = if key_in name (keys ++ optional_keys) then
          match findall_name name text with
          | [] => None
          | matches => Some (map strip matches)
          end
        else None)
  /\ (forall k : tag_key,
         re_findall_tag k text = findall_name k text
         /\ open_tag k = "<" +:+ k +:+ ">"
         /\ close_tag k = "</" +:+ k +:+ ">")
  /\ (forall k : tag_key,
         no_occurrence (open_tag k) text -> findall_name k text = [])
  /\ (forall (k : tag_key) pre rest,
         first_occurrence (open_tag k) text pre rest ->
         no_occurrence (close_tag k) rest ->
         findall_name k text = [])
  /\ (forall (k : tag_key) pre rest inner post,
         first_occurrence (open_tag k) text pre rest ->
         first_occurrence (close_tag k) rest inner post ->
         findall_name k text = inner :: findall_name k post)
  /\ (forall (k : tag_key) contents,
         tagged k contents text -> findall_name k text = contents)
  /\ findall_name action_key "<Action>click</Action>" = []
  /\ findall_name think_key ("<think>a" +:+ nl +:+ "b</think>")
     = ["a" +:+ nl +:+ "b"]
  /\ (forall (k : tag_key) inner merge_multiple,
         List.NoDup (map key_name (keys ++ optional_keys)) ->
         In k (keys ++ optional_keys) ->
         findall_name k text = [inner] ->
         exists d valid retry_message,
           parse_html_tags text keys optional_keys merge_multiple
           = Ok (d, valid, retry_message)
           /\ d !! key_name k = Some (PStr (strip inner))).
Proof.
  split; [apply extract_html_tags_lookup |].
  split; [intros k; repeat split |].
  split; [intros k; apply findall_name_no_open |].
  split; [intros k pre rest; apply findall_name_unclosed |].
  split; [intros k pre rest inner post; apply findall_name_pair |].
  split; [intros k contents; apply findall_name_tagged |].
  split; [reflexivity | split; [reflexivity |]].
  intros k inner merge_multiple Hnodup Hk Hone.
  rewrite parse_html_tags_spec by exact Hnodup.
  eexists _, _, _. split; [reflexivity |].
  rewrite lookup_fmap, extract_html_tags_lookup, (In_key_in k _ Hk), Hone.
  reflexivity.
Qed.

Lemma extraction_matches_tag_pairs_witness :
  let text := "Sure. <action> click </action> <think>a</think><think>b</think>" in
  exists d valid retry_message,
    parse_html_tags text [action_key] [think_key] false
    = Ok (d, valid, retry_message)
    /\ d !! "action" = Some (PStr "click").
Proof.
  intros text.
  refine (proj2 (proj2 (proj2 (proj2 (proj2 (proj2 (proj2 (proj2
            (extraction_matches_tag_pairs text [action_key] [think_key]))))))))
            action_key " click " false _ _ _).
  - repeat constructor; simpl; intuition discriminate.
  - now left.
  - reflexivity.
Defined.

(** * Further properties *)

(** ** retry_raise *)

Section RetryRaiseProperties.
Context {F W V : Type} `{Number F}.
Variable chat : list message -> W -> reply * W.
Variable n_retry : Z.
Variable min_retry_wait_time : F.
Variable rate_limit_max_wait_time : F.

(** The two loops do the same on parsers that do the same. *)
Lemma retry_raise_loop_raising
    (parser : string -> W -> (V * bool * string) * W)
    (parser_r : string -> W -> result V * W) :
  (forall text w, parser_r text w = raising parser text w) ->
  forall fuel st,
    retry_raise_loop chat n_retry parser_r min_retry_wait_time
      rate_limit_max_wait_time fuel st
    = retry_loop chat n_retry parser min_retry_wait_time
        rate_limit_max_wait_time fuel st.
Proof.
  intros Hp. induction fuel as [|fuel IH]; intros st; [reflexivity |].
  cbn [retry_raise_loop retry_loop].
  destruct (_ && _); [|reflexivity].
  destruct (chat (messages st) (world st)) as [[answer|e] w1].
  - rewrite Hp. unfold raising.
    destruct (parser (content answer) w1) as [[[value valid] retry_message] w2].
    destruct valid; [reflexivity | apply IH].
  - cbv zeta. destruct (num_ge _ _); [reflexivity | apply IH].
Qed.

(** X1. [retry_raise] with a parser that raises a [ParseError] where the
    parser of [retry] is not valid, and returns its value where it is, runs
    as [retry] does: the same result, conversation, waits and counters. *)
Theorem retry_raise_runs_as_retry
    (parser : string -> W -> (V * bool * string) * W)
    (parser_r : string -> W -> result V * W) :
  (forall text w, parser_r text w = raising parser text w) ->
  forall fuel ms w,
    retry_raise chat n_retry parser_r min_retry_wait_time
      rate_limit_max_wait_time fuel ms w
    = retry chat n_retry parser min_retry_wait_time
        rate_limit_max_wait_time fuel ms w.
Proof.
  intros Hp fuel ms w. unfold retry_raise, retry.
  now apply retry_raise_loop_raising.
Qed.

(** How a run of [retry_raise] ends when it raises. *)
Lemma retry_raise_loop_raises (parser : string -> W -> result V * W) fuel st e st' :
  retry_raise_loop chat n_retry parser min_retry_wait_time
    rate_limit_max_wait_time fuel st = Some (Raise e, st') ->
  (exists text, e = RateLimitError text
                /\ num_ge (rate_limit_total_delay st')
                     rate_limit_max_wait_time = true)
  \/ (e = retry_error n_retry
      /\ retry_guard n_retry rate_limit_max_wait_time st' = false)
  \/ (exists ms answer w1 w2,
         messages st' = ms ++ [answer]
         /\ parser (content answer) w1 = (Raise e, w2)
         /\ world st' = w2
         /\ forall m, e <> ParseError m).
Proof.
  revert st. induction fuel as [|fuel IH]; intros st; [discriminate |].
  cbn [retry_raise_loop].
  destruct (_ && _) eqn:Hg.
  - destruct (chat (messages st) (world st)) as [[answer|text] w1].
    + destruct (parser (content answer) w1) as [[value|e0] w2] eqn:Hp.
      * discriminate.
      * destruct e0; try apply IH;
          intros [= <- <-]; right; right;
          exists (messages st), answer, w1, w2;
          (split; [reflexivity | split; [exact Hp | split; [reflexivity |]]]);
          intros m; discriminate.
    + cbv zeta.
      destruct (num_ge
                  (rate_limit_total_delay
                     (RetryState (tries st)
                        (num_add (rate_limit_total_delay st)
                           (_extract_wait_time text min_retry_wait_time))
                        (messages st) w1
                        (slept st ++ [_extract_wait_time text min_retry_wait_time])
                        (invocations st + 1)))
                  rate_limit_max_wait_time) eqn:Hmax; [|apply IH].
      intros [= <- <-]. left. exists text. split; [reflexivity | exact Hmax].
  - intros [= <- <-]. right; left. split; [reflexivity | exact Hg].
Qed.

(** X2. No [ParseError] leaves [retry_raise].  A run that raises ends with
    the rate-limit error of the endpoint once the accrued delay has reached
    the maximum, with the retry error once the loop condition fails, or with
    an exception of the parser that is not a [ParseError], raised on the
    last reply, which is then the last turn of the conversation. *)
Theorem retry_raise_keeps_ParseError_in
    (parser : string -> W -> result V * W) fuel ms w e st' :
  retry_raise chat n_retry parser min_retry_wait_time rate_limit_max_wait_time
    fuel ms w = Some (Raise e, st') ->
  (forall m, e <> ParseError m)
  /\ ((exists text, e = RateLimitError text
                    /\ num_ge (rate_limit_total_delay st')
                         rate_limit_max_wait_time = true)
      \/ (e = retry_error n_retry
          /\ retry_guard n_retry rate_limit_max_wait_time st' = false)
      \/ (exists ms' answer w1,
             messages st' = ms' ++ [answer]
             /\ parser (content answer) w1 = (Raise e, world st'))).
Proof.
  intros Hrun. apply retry_raise_loop_raises in Hrun.
  destruct Hrun as [(text & -> & Hmax) | [(-> & Hg) | (ms' & answer & w1 & w2 & Hm & Hp & Hw & He)]].
  - split; [discriminate |]. left. now exists text.
  - split; [discriminate |]. right; left. now split.
  - split; [exact He |]. right; right. exists ms', answer, w1.
    split; [exact Hm | now rewrite Hw].
Qed.
End RetryRaiseProperties.

Lemma action_parser_r_raising text w :
  action_parser_r text w = raising action_parser text w.
Proof.
  unfold action_parser_r, raising, action_parser, parse_html_tags_raise.
  rewrite parse_html_tags_spec by (repeat constructor; simpl; tauto).
  cbn [mbind result_bind]. now destruct (_ =? 0).
Qed.

Lemma retry_raise_runs_as_retry_witness :
  (forall text w, action_parser_r text w = raising action_parser text w)
  /\ retry_raise (scripted_chat three_replies) 3 action_parser_r 60%Q 1800%Q
       3 first_turn 0%nat
     = retry (scripted_chat three_replies) 3 action_parser 60%Q 1800%Q
         3 first_turn 0%nat.
Proof.
  split; [exact action_parser_r_raising |].
  apply (retry_raise_runs_as_retry (scripted_chat three_replies) 3 60%Q 1800%Q
           action_parser action_parser_r action_parser_r_raising).
Defined.

Lemma retry_raise_keeps_ParseError_in_witness :
  retry_raise (scripted_chat three_replies) 2 action_parser_r 60%Q 1800%Q
    3 first_turn 0%nat
  = Some (Raise (retry_error 2),
          RetryState 2 0%Q
            (first_turn
             ++ [reply_without_tag;
                 HumanMessage "Missing the key <action> in the answer.";
                 reply_with_two_tags;
                 HumanMessage
                   "Found multiple instances of the key action. You should have only one of them."])
            2%nat [] 2)
  /\ forall m, retry_error 2 <> ParseError m.
Proof.
  assert (Hrun : retry_raise (scripted_chat three_replies) 2 action_parser_r
                   60%Q 1800%Q 3 first_turn 0%nat
                 = Some (Raise (retry_error 2),
                         RetryState 2 0%Q
                           (first_turn
                            ++ [reply_without_tag;
                                HumanMessage "Missing the key <action> in the answer.";
                                reply_with_two_tags;
                                HumanMessage
                                  "Found multiple instances of the key action. You should have only one of them."])
                           2%nat [] 2))
    by reflexivity.
  split; [exact Hrun |].
  exact (proj1 (retry_raise_keeps_ParseError_in (scripted_chat three_replies) 2
                  60%Q 1800%Q action_parser_r 3%nat first_turn 0%nat _ _ Hrun)).
Defined.

(** ** Whether the loop of retry ends *)



Section RetryEnds.
Context {W V : Type}.
Variable chat : list message -> W -> reply * W.
Variable n_retry : Z.
Variable min_retry_wait_time : Q.
Variable rate_limit_max_wait_time : Q.
Variable waits : nat.
Hypothesis min_positive : (0 < min_retry_wait_time)%Q.
Hypothesis waits_suffice :
  (rate_limit_max_wait_time
   <= inject_Z (Z.of_nat waits) * min_retry_wait_time)%Q.



End RetryEnds.


Section RetrySpins.
Context {W V : Type}.
Variable chat : list message -> W -> reply * W.
Variable n_retry : Z.
Variable rate_limit_max_wait_time : Q.

Lemma retry_raise_loop_spins (parser : string -> W -> result V * W) e :
  always_rate_limited chat e -> search_wait_hint e = None ->
  (0 < rate_limit_max_wait_time)%Q ->
  forall fuel st,
    tries st < n_retry -> (rate_limit_total_delay st == 0)%Q ->
    retry_raise_loop chat n_retry parser 0%Q rate_limit_max_wait_time fuel st
    = None.
Proof.
  intros Hchat Hhint Hmax.
  induction fuel as [|fuel IH]; intros st Ht Hd; [reflexivity |].
  cbn [retry_raise_loop].
  assert (Hg : (tries st <? n_retry)
               && num_lt (rate_limit_total_delay st) rate_limit_max_wait_time
               = true).
  { apply andb_true_iff. split; [now apply Z.ltb_lt |].
    cbn [num_lt Q_Number]. apply Qltb_lt. lra. }
  rewrite Hg. destruct (Hchat (messages st) (world st)) as [w1 ->].
  cbv zeta. unfold _extract_wait_time. rewrite Hhint.
  cbn [rate_limit_total_delay num_add num_ge Q_Number].
  destruct (Qle_bool rate_limit_max_wait_time (rate_limit_total_delay st + 0))
    eqn:E.
  - apply Qle_bool_iff in E. lra.
  - apply IH; [exact Ht |]. cbn [rate_limit_total_delay]. lra.
Qed.

(** X4. With a minimum wait of 0, an endpoint that is rate limited at every
    call, with an error text that names no duration, keeps [retry] and
    [retry_raise] in their loop without end: every wait is 0, the accrued
    delay stays 0, and no number of iterations ends the run. *)
Theorem retry_spins_without_minimum_wait
    (parser : string -> W -> result V * W)
    (tuple_parser : string -> W -> (V * bool * string) * W) e :
  always_rate_limited chat e -> search_wait_hint e = None ->
  0 < n_retry -> (0 < rate_limit_max_wait_time)%Q ->
  forall fuel ms w,
    retry_raise chat n_retry parser 0%Q rate_limit_max_wait_time fuel ms w = None
    /\ retry chat n_retry tuple_parser 0%Q rate_limit_max_wait_time fuel ms w
       = None.
Proof.
  intros Hchat Hhint Hn Hmax fuel ms w.
  assert (Hspin : forall p : string -> W -> result V * W,
             retry_raise chat n_retry p 0%Q rate_limit_max_wait_time fuel ms w
             = None).
  { intros p. unfold retry_raise.
    apply (retry_raise_loop_spins p e Hchat Hhint Hmax); [exact Hn | reflexivity]. }
  split; [apply Hspin |].
  unfold retry.
  rewrite <- (retry_raise_loop_raising chat n_retry 0%Q rate_limit_max_wait_time
                tuple_parser (raising tuple_parser) (fun _ _ => eq_refl)).
  apply Hspin.
Qed.
End RetrySpins.

Lemma retry_spins_without_minimum_wait_witness :
  always_rate_limited busy_chat "Rate limit reached."
  /\ search_wait_hint "Rate limit reached." = None
  /\ 0 < 3 /\ (0 < 1800)%Q
  /\ retry busy_chat 3 action_parser 0%Q 1800%Q 1000 first_turn 0%nat = None.
Proof.
  assert (Hchat : always_rate_limited busy_chat "Rate limit reached.")
    by (intros ms w; now exists (S w)).
  split; [exact Hchat | split; [reflexivity | split; [lia | split; [reflexivity |]]]].
  apply (retry_spins_without_minimum_wait busy_chat 3 1800%Q action_parser_r
           action_parser "Rate limit reached." Hchat eq_refl ltac:(lia) eq_refl).
Defined.

(** ** The wait hint *)

Lemma span_digits_spec s ds r :
  span_digits s = (ds, r) ->
  s = ds +:+ r
  /\ forallb is_digit (list_ascii_of_string ds) = true
  /\ match r with
     | EmptyString => True
     | String c _ => is_digit c = false
     end.
Proof.
  revert ds r. induction s as [|c s IH]; intros ds r; simpl.
  - intros [= <- <-]. auto.
  - destruct (is_digit c) eqn:Hc.
    + destruct (span_digits s) as [ds' r'].
      intros [= <- <-]. destruct (IH ds' r' eq_refl) as (-> & Hds & Hr).
      rewrite append_cons. simpl. rewrite Hc. auto.
    + intros [= <- <-]. rewrite append_nil_l. simpl. auto.
Qed.

Lemma span_digits_app ds r :
  forallb is_digit (list_ascii_of_string ds) = true ->
  match r with
  | EmptyString => True
  | String c _ => is_digit c = false
  end ->
  span_digits (ds +:+ r) = (ds, r).
Proof.
  intros Hds Hr. induction ds as [|c ds IH].
  - rewrite append_nil_l. destruct r as [|c r]; [reflexivity |].
    simpl. now rewrite Hr.
  - simpl in Hds. apply andb_true_iff in Hds as [Hc Hds].
    rewrite append_cons. simpl. now rewrite Hc, IH.
Qed.

Lemma is_digits_spec s :
  is_digits s = true
  <-> s <> EmptyString /\ forallb is_digit (list_ascii_of_string s) = true.
Proof.
  unfold is_digits. rewrite andb_true_iff, negb_true_iff.
  split; intros [H1 H2]; (split; [|exact H2]).
  - intros ->. discriminate.
  - destruct s; [contradiction | reflexivity].
Qed.

(** The matcher at one position is sound. *)
Lemma match_decimal_s_sound s g :
  match_decimal_s s = Some g ->
  decimal_text g /\ exists post, s = g +:+ "s" +:+ post.
Proof.
  unfold match_decimal_s.
  destruct (span_digits s) as [ds r1] eqn:E1.
  apply span_digits_spec in E1 as (-> & Hds & Hr1).
  destruct ds as [|d ds]; [discriminate |].
  assert (Hip : is_digits (String d ds) = true)
    by (apply is_digits_spec; split; [discriminate | exact Hds]).
  destruct r1 as [|c r2]; [discriminate |].
  destruct (Ascii.eqb_spec c ".") as [-> | Hdot].
  - destruct (span_digits r2) as [fs r3] eqn:E2.
    apply span_digits_spec in E2 as (-> & Hfs & Hr3).
    destruct fs as [|f fs]; [discriminate |].
    unfold startswith.
    destruct (strip_prefix "s" r3) as [post|] eqn:E3; [|discriminate].
    apply strip_prefix_Some in E3. subst r3.
    intros [= <-]. split.
    + apply decimal_point; [exact Hip |].
      apply is_digits_spec. split; [discriminate | exact Hfs].
    + exists post. now rewrite !append_assoc.
  - destruct (Ascii.eqb_spec c "s") as [-> | Hs]; [|discriminate].
    intros [= <-]. split; [now apply decimal_whole |].
    now exists r2.
Qed.

(** The matcher at one position is complete. *)
Lemma match_decimal_s_complete g post :
  decimal_text g -> match_decimal_s (g +:+ "s" +:+ post) = Some g.
Proof.
  intros [ip Hip | ip fp Hip Hfp]; unfold match_decimal_s.
  - apply is_digits_spec in Hip as [Hne Hip].
    rewrite (span_digits_app ip ("s" +:+ post) Hip) by reflexivity.
    destruct ip; [contradiction | reflexivity].
  - apply is_digits_spec in Hip as [Hne Hip].
    apply is_digits_spec in Hfp as [Hnf Hfp].
    rewrite !append_assoc.
    rewrite (span_digits_app ip ("." +:+ fp +:+ "s" +:+ post) Hip) by reflexivity.
    destruct ip as [|i ip]; [contradiction |].
    change ("." +:+ fp +:+ "s" +:+ post)
      with (String "." (fp +:+ "s" +:+ post)).
    cbv beta iota. change (Ascii.eqb "." ".") with true. cbv iota.
    rewrite (span_digits_app fp ("s" +:+ post) Hfp) by reflexivity.
    destruct fp as [|f fp]; [contradiction |].
    reflexivity.
Qed.

Lemma match_wait_hint_sound s g :
  match_wait_hint s = Some g ->
  decimal_text g /\ exists post, s = wait_hint g +:+ post.
Proof.
  unfold match_wait_hint.
  destruct (strip_prefix "try again in " s) as [r|] eqn:E; [|discriminate].
  apply strip_prefix_Some in E. subst s.
  intros Hm. apply match_decimal_s_sound in Hm as (Hg & post & ->).
  split; [exact Hg |]. exists post. unfold wait_hint.
  now rewrite !append_assoc.
Qed.

Lemma match_wait_hint_complete g post :
  decimal_text g -> match_wait_hint (wait_hint g +:+ post) = Some g.
Proof.
  intros Hg. unfold match_wait_hint, wait_hint.
  rewrite !append_assoc.
  assert (E : strip_prefix "try again in " ("try again in " +:+ g +:+ "s" +:+ post)
              = Some (g +:+ "s" +:+ post)) by now apply strip_prefix_Some.
  rewrite E. now apply match_decimal_s_complete.
Qed.

(** The search finds the leftmost hint. *)
Lemma search_wait_hint_Some e g :
  search_wait_hint e = Some g ->
  decimal_text g
  /\ exists pre post,
      e = pre +:+ wait_hint g +:+ post
      /\ forall pre' g' post',
          decimal_text g' -> e = pre' +:+ wait_hint g' +:+ post' ->
          (String.length pre <= String.length pre')%nat.
Proof.
  induction e as [|c e IH].
  - simpl. discriminate.
  - cbn [search_wait_hint].
    destruct (match_wait_hint (String c e)) as [g0|] eqn:Em.
    + intros [= <-]. apply match_wait_hint_sound in Em as (Hg & post & Hs).
      split; [exact Hg |]. exists EmptyString, post.
      split; [now rewrite append_nil_l | simpl; lia].
    + intros Hs. destruct (IH Hs) as (Hg & pre & post & -> & Hleft).
      split; [exact Hg |]. exists (String c pre), post.
      split; [now rewrite append_cons |].
      intros [|c' pre'] g' post' Hg' He.
      * rewrite append_nil_l in He. rewrite He in Em.
        rewrite match_wait_hint_complete in Em by exact Hg'. discriminate.
      * rewrite append_cons in He. injection He as _ He.
        specialize (Hleft pre' g' post' Hg' He). simpl. lia.
Qed.

Lemma search_wait_hint_None e :
  search_wait_hint e = None <->
  forall pre g post, decimal_text g -> e <> pre +:+ wait_hint g +:+ post.
Proof.
  split.
  - induction e as [|c e IH].
    + intros _ [|c pre] g post Hg He.
      * rewrite append_nil_l in He. discriminate He.
      * rewrite append_cons in He. discriminate He.
    + cbn [search_wait_hint].
      destruct (match_wait_hint (String c e)) as [g0|] eqn:Em; [discriminate |].
      intros Hs [|c' pre] g post Hg He.
      * rewrite append_nil_l in He. rewrite He in Em.
        rewrite match_wait_hint_complete in Em by exact Hg. discriminate.
      * rewrite append_cons in He. injection He as _ He.
        now apply (IH Hs pre g post Hg).
  - intros Hno. destruct (search_wait_hint e) as [g|] eqn:Es; [|reflexivity].
    apply search_wait_hint_Some in Es as (Hg & pre & post & He & _).
    now apply Hno in He.
Qed.

(** X5. [_extract_wait_time] reads the leftmost hint of the error text.  When
    the text holds [try again in <g>s], with [g] a decimal number written
    [digits] or [digits.digits], the wait is the greater of the minimum and
    [float(g)] for the leftmost such [g]; [g] is always a text that [float]
    accepts.  When the text holds no such hint, and only then, nothing is
    read from it, and the wait is the minimum. *)
Theorem _extract_wait_time_reads_leftmost_hint {F} `{Number F}
    (error_message : string) (min_retry_wait_time : F) :
  (forall g,
      search_wait_hint error_message = Some g ->
      decimal_text g
      /\ (exists pre post,
             error_message = pre +:+ wait_hint g +:+ post
             /\ forall pre' g' post',
                 decimal_text g' ->
                 error_message = pre' +:+ wait_hint g' +:+ post' ->
                 (String.length pre <= String.length pre')%nat)
      /\ _extract_wait_time error_message min_retry_wait_time
         = py_max min_retry_wait_time (num_of_text g))
  /\ (search_wait_hint error_message = None <->
      forall pre g post,
        decimal_text g -> error_message <> pre +:+ wait_hint g +:+ post)
  /\ ((forall pre g post,
          decimal_text g -> error_message <> pre +:+ wait_hint g +:+ post) ->
      _extract_wait_time error_message min_retry_wait_time
      = min_retry_wait_time)
  /\ (forall pre g post,
         decimal_text g ->
         error_message = pre +:+ wait_hint g +:+ post ->
         exists g', search_wait_hint error_message = Some g').
Proof.
  split; [|split; [apply search_wait_hint_None | split]].
  - intros g Hs. destruct (search_wait_hint_Some _ _ Hs) as (Hg & Hocc).
    split; [exact Hg | split; [exact Hocc |]].
    unfold _extract_wait_time. now rewrite Hs.
  - intros Hno. apply search_wait_hint_None in Hno.
    unfold _extract_wait_time. now rewrite Hno.
  - intros pre g post Hg He.
    destruct (search_wait_hint error_message) as [g'|] eqn:Es; [now exists g' |].
    exfalso. now apply (proj1 (search_wait_hint_None error_message) Es pre g post).
Qed.

Lemma _extract_wait_time_reads_leftmost_hint_witness :
  search_wait_hint "Rate limit reached. Please try again in 7.5s, or in 12s."
  = Some "7.5"
  /\ decimal_text "7.5"
  /\ _extract_wait_time
       "Rate limit reached. Please try again in 7.5s, or in 12s." 5%Q
     = py_max 5%Q (num_of_text "7.5").
Proof.
  assert (Hs : search_wait_hint
                 "Rate limit reached. Please try again in 7.5s, or in 12s."
               = Some "7.5") by reflexivity.
  split; [exact Hs |].
  destruct (proj1 (_extract_wait_time_reads_leftmost_hint
                     "Rate limit reached. Please try again in 7.5s, or in 12s."
                     5%Q) "7.5" Hs) as (Hg & _ & Hw).
  split; [exact Hg | exact Hw].
Defined.

(** ** Stripping *)

Lemma lstrip_first s c : first_char (lstrip s) = Some c -> is_space c = false.
Proof.
  induction s as [|a s IH]; simpl; [discriminate |].
  destruct (is_space a) eqn:Ha; [exact IH |].
  simpl. now intros [= <-].
Qed.

(** [lstrip] takes white space off the front. *)
Lemma lstrip_suffix s :
  exists a, s = a +:+ lstrip s /\ forallb is_space (list_ascii_of_string a) = true.
Proof.
  induction s as [|c s IH]; simpl.
  - now exists EmptyString.
  - destruct (is_space c) eqn:Hc.
    + destruct IH as (a & Hs & Ha). exists (String c a).
      rewrite append_cons, <- Hs. simpl. now rewrite Hc.
    + now exists EmptyString.
Qed.

Lemma last_char_cons c s :
  last_char (String c s) = match s with EmptyString => Some c | _ => last_char s end.
Proof. destruct s; reflexivity. Qed.

Lemma last_char_append a s :
  s <> EmptyString -> last_char (a +:+ s) = last_char s.
Proof.
  intros Hs. induction a as [|c a IH]; [reflexivity |].
  rewrite append_cons, last_char_cons.
  destruct (a +:+ s) eqn:E; [|exact IH].
  destruct a; [rewrite append_nil_l in E; contradiction | discriminate].
Qed.

Lemma rstrip_last s c : last_char (rstrip s) = Some c -> is_space c = false.
Proof.
  induction s as [|a s IH]; simpl; [discriminate |].
  destruct (rstrip s) as [|b r] eqn:E.
  - destruct (is_space a) eqn:Ha; simpl; [discriminate |].
    now intros [= <-].
  - rewrite last_char_cons. exact IH.
Qed.

(** [rstrip] takes white space off the back. *)
Lemma rstrip_prefix s :
  exists b, s = rstrip s +:+ b /\ forallb is_space (list_ascii_of_string b) = true.
Proof.
  induction s as [|c s IH]; simpl.
  - now exists EmptyString.
  - destruct IH as (b & Hs & Hb).
    destruct (rstrip s) as [|d r] eqn:E.
    + rewrite append_nil_l in Hs. subst s.
      destruct (is_space c) eqn:Hc.
      * exists (String c b). rewrite append_nil_l. simpl. now rewrite Hc.
      * exists b. now rewrite append_cons, append_nil_l.
    + exists b. now rewrite append_cons, <- Hs.
Qed.

Lemma lstrip_fixed s :
  (forall c, first_char s = Some c -> is_space c = false) -> lstrip s = s.
Proof.
  destruct s as [|c s]; [reflexivity |]. simpl. intros H.
  now rewrite (H c eq_refl).
Qed.

Lemma rstrip_fixed s :
  (forall c, last_char s = Some c -> is_space c = false) -> rstrip s = s.
Proof.
  induction s as [|c s IH]; [reflexivity |]. intros H.
  rewrite last_char_cons in H. simpl.
  destruct s as [|d s].
  - simpl. now rewrite (H c eq_refl).
  - rewrite IH by exact H. reflexivity.
Qed.

(** What [strip] returns has no white space at either end, and stands in
    the text between white space. *)
Lemma strip_stripped s : stripped (strip s).
Proof.
  unfold strip. split; [apply lstrip_first |].
  intros c Hc. destruct (lstrip_suffix (rstrip s)) as (a & Hs & _).
  destruct (lstrip (rstrip s)) as [|d r] eqn:E; [discriminate |].
  apply (rstrip_last s). rewrite Hs.
  now rewrite last_char_append by discriminate.
Qed.

Lemma stripped_strip s : stripped s -> strip s = s.
Proof.
  intros [Hf Hl]. unfold strip. rewrite (rstrip_fixed s Hl).
  now apply lstrip_fixed.
Qed.

Lemma strip_substring s :
  exists a b,
    s = a +:+ strip s +:+ b
    /\ forallb is_space (list_ascii_of_string a) = true
    /\ forallb is_space (list_ascii_of_string b) = true.
Proof.
  destruct (rstrip_prefix s) as (b & Hs & Hb).
  destruct (lstrip_suffix (rstrip s)) as (a & Hr & Ha).
  exists a, b. unfold strip. split; [|auto].
  rewrite Hs at 1. rewrite Hr at 1. now rewrite append_assoc.
Qed.

(** ** What extract_html_tags stores *)

Lemma no_occurrence_substring p s a b :
  no_occurrence p (a +:+ s +:+ b) -> no_occurrence p s.
Proof.
  intros H x y Hs. apply (H (a +:+ x) (y +:+ b)).
  rewrite Hs. now rewrite !append_assoc.
Qed.

(** What stands before the first occurrence holds no occurrence. *)
Lemma first_occurrence_before p s a b :
  p <> EmptyString -> first_occurrence p s a b -> no_occurrence p a.
Proof.
  intros Hp [Hs Hleft] x y Ha.
  specialize (Hleft x (y +:+ p +:+ b)).
  rewrite Hs, Ha, !append_assoc in Hleft. specialize (Hleft eq_refl).
  rewrite !length_append in Hleft.
  destruct p; [contradiction | simpl in Hleft; lia].
Qed.

Lemma close_tag_not_empty name : close_tag name <> EmptyString.
Proof. discriminate. Qed.

(** No match holds the closing tag. *)
Lemma findall_tag_no_close name fuel text :
  Forall (no_occurrence (close_tag name))
    (findall_tag fuel (open_tag name) (close_tag name) text).
Proof.
  revert text. induction fuel as [|fuel IH]; intros text; [constructor |].
  simpl. destruct (str_find (open_tag name) text) as [[pre r]|]; [|constructor].
  destruct (str_find (close_tag name) r) as [[inner r']|] eqn:Ec; [|constructor].
  constructor; [|apply IH].
  apply str_find_Some in Ec.
  exact (first_occurrence_before _ _ _ _ (close_tag_not_empty name) Ec).
Qed.

Lemma Forall_map_strip (P : string -> Prop) (xs : list string) :
  Forall (fun x => P (strip x)) xs -> Forall P (map strip xs).
Proof. induction 1; simpl; constructor; assumption. Qed.

(** X6. What [extract_html_tags] stores.  Every key of the dictionary is one
    of the keys asked for, and has at least one match in the text; its value
    is a list that is not empty, of texts that have no white space at either
    end (stripping them again changes nothing) and that do not hold the
    closing tag of the key. *)
Theorem extract_html_tags_stores_stripped_matches
    (text : string) (keys : list tag_key) (name : string) (items : list string) :
  extract_html_tags text keys !! name = Some items ->
  In name (map key_name keys)
  /\ items <> []
  /\ length items = length (findall_name name text)
  /\ Forall (fun item =>
               stripped item /\ strip item = item
               /\ no_occurrence (close_tag name) item) items.
Proof.
  rewrite extract_html_tags_lookup.
  destruct (key_in name keys) eqn:Hk; [|discriminate].
  apply key_in_In in Hk.
  destruct (findall_name name text) as [|m ms] eqn:Ef; [discriminate |].
  intros [= <-]. split; [exact Hk | split; [discriminate | split]].
  - apply (List.length_map strip (m :: ms)).
  - apply (Forall_map_strip _ (m :: ms)). rewrite <- Ef.
    pose proof (findall_tag_no_close name (String.length text) text) as Hno.
    revert Hno. unfold findall_name. apply List.Forall_impl.
    intros inner Hinner. split; [apply strip_stripped | split].
    + apply stripped_strip, strip_stripped.
    + destruct (strip_substring inner) as (a & b & Hs & _).
      apply (no_occurrence_substring _ _ a b). now rewrite <- Hs.
Qed.

Lemma extract_html_tags_stores_stripped_matches_witness :
  let text := "<think> plan </think> then <think>act</think>" in
  extract_html_tags text [think_key] !! "think" = Some ["plan"; "act"]
  /\ Forall (fun item =>
               stripped item /\ strip item = item
               /\ no_occurrence (close_tag "think") item) ["plan"; "act"].
Proof.
  intros text.
  assert (Hl : extract_html_tags text [think_key] !! "think"
               = Some ["plan"; "act"]) by reflexivity.
  split; [exact Hl |].
  exact (proj2 (proj2 (proj2
           (extract_html_tags_stores_stripped_matches text [think_key] "think"
              ["plan"; "act"] Hl)))).
Defined.

(** ** A key given twice *)

(** What [extract_html_tags] stores for one key, asked for once or more. *)
Lemma extract_html_tags_one_name text (k : tag_key) keys :
  keys <> [] -> Forall (fun k' => k' = k) keys ->
  extract_html_tags text keys
  = match findall_name k text with
    | [] => ∅
    | matches => {[key_name k := map strip matches]}
    end.
Proof.
  intros Hne Hall. apply map_eq. intros name.
  rewrite extract_html_tags_lookup.
  assert (Hin : key_in name keys = String.eqb name (key_name k)).
  { destruct keys as [|k0 ks]; [contradiction |]. clear Hne.
    inversion Hall as [|? ? Hk0 Hks]; subst. clear Hall.
    rewrite key_in_cons.
    induction Hks as [|k' ks' -> _ IH].
    - unfold key_in. simpl. now rewrite orb_false_r.
    - now rewrite key_in_cons, orb_assoc, orb_diag. }
  rewrite Hin.
  destruct (String.eqb_spec name (key_name k)) as [Heq | Hne'].
  - rewrite Heq. destruct (findall_name k text); [now rewrite lookup_empty |].
    now rewrite lookup_singleton_eq.
  - destruct (findall_name k text); [now rewrite lookup_empty |].
    now rewrite lookup_singleton_ne by congruence.
Qed.

(** [parse_key] on a dictionary that holds the key alone. *)
Lemma parse_key_singleton optional_keys merge_multiple (k : tag_key) val msgs :
  parse_key optional_keys merge_multiple ({[key_name k := val]}, msgs) k
  = match index0 val with
    | Raise e => Raise e
    | Ok v0 =>
        if 1 <? pylen val then
          if merge_multiple
          then Ok ({[key_name k := PStr (join_val nl val)]}, msgs)
          else Ok ({[key_name k := v0]}, msgs ++ [multiple_message k])
        else Ok ({[key_name k := v0]}, msgs)
    end.
Proof.
  unfold parse_key. rewrite lookup_singleton_eq.
  destruct (index0 val) as [v0 | e]; [| reflexivity].
  unfold mbind, result_bind. rewrite !insert_singleton_eq.
  now destruct merge_multiple, (1 <? pylen val).
Qed.

(** X7. A key given twice is parsed twice.  When the key is listed twice
    (twice among the required keys, or once there and once among the
    optional ones) and the text holds one pair of its tags, the second pass
    takes the text stored by the first for a list of matches: an empty
    content raises [IndexError]; a content of one character is kept; a
    longer content is cut to its first character and reported as multiple
    instances, or, when multiple instances are merged, replaced by its
    characters joined by line feeds. *)
Theorem repeated_key_is_parsed_twice
    (text : string) (k : tag_key) (keys optional_keys : list tag_key)
    (merge_multiple : bool) (inner : string) :
  keys ++ optional_keys = [k; k] ->
  findall_name k text = [inner] ->
  parse_html_tags text keys optional_keys merge_multiple
  = match strip inner with
    | EmptyString => Raise IndexError
    | String c EmptyString =>
        Ok ({[key_name k := PStr (String c EmptyString)]}, true, EmptyString)
    | String c rest =>
        if merge_multiple
        then Ok ({[key_name k := PStr (join_val nl (PStr (String c rest)))]},
                 true, EmptyString)
        else Ok ({[key_name k := PStr (String c EmptyString)]},
                 false, multiple_message k)
    end.
Proof.
  intros Hkeys Hone. unfold parse_html_tags, parse_html_tags_loop.
  rewrite Hkeys.
  rewrite (extract_html_tags_one_name text k [k; k])
    by (try discriminate; repeat constructor).
  rewrite Hone. cbn [map]. rewrite map_fmap_singleton.
  cbn [parse_keys]. rewrite parse_key_singleton.
  change (index0 (PList [strip inner])) with (Ok (PStr (strip inner))).
  change (pylen (PList [strip inner])) with 1.
  change (1 <? 1) with false. cbv iota.
  unfold mbind at 2. unfold result_bind at 2. cbv beta iota.
  rewrite parse_key_singleton.
  destruct (strip inner) as [|c rest]; [reflexivity |].
  change (index0 (PStr (String c rest))) with (Ok (PStr (String c EmptyString))).
  destruct rest as [|c' rest'].
  - reflexivity.
  - assert (Hlen : (1 <? pylen (PStr (String c (String c' rest')))) = true).
    { apply Z.ltb_lt. unfold pylen, len. simpl String.length. lia. }
    rewrite Hlen. now destruct merge_multiple.
Qed.

Lemma repeated_key_is_parsed_twice_witness :
  [action_key] ++ [action_key] = [action_key; action_key]
  /\ findall_name action_key "<action>click</action>" = ["click"]
  /\ parse_html_tags "<action>click</action>" [action_key] [action_key] false
     = Ok ({["action" := PStr "c"]}, false,
           "Found multiple instances of the key action. You should have only one of them.").
Proof.
  split; [reflexivity | split; [reflexivity |]].
  exact (repeated_key_is_parsed_twice "<action>click</action>" action_key
           [action_key] [action_key] false "click" eq_refl eq_refl).
Defined.

(** ** The parsers of the prompt elements *)

(** The value of a key whose multiple instances are merged. *)
Lemma key_value_merged m ms :
  key_value true (m :: ms) = PStr (str_join nl (m :: ms)).
Proof.
  unfold key_value. destruct ms as [|m' ms']; [reflexivity |].
  assert (Hlen : (1 <? Z.of_nat (length (m :: m' :: ms'))) = true)
    by (apply Z.ltb_lt; simpl length; lia).
  now rewrite Hlen.
Qed.

(** X8. [Think._parse_answer] never raises.  From a text without a pair of
    [think] tags it returns the empty dictionary; otherwise the dictionary
    with, under [think], the stripped contents of all the pairs joined by
    line feeds. *)
Theorem Think_parse_answer_never_raises (text_answer : string) :
  Think._parse_answer text_answer
  = Ok match findall_name "think" text_answer with
       | [] => ∅
       | matches => {["think" := PStr (str_join nl (map strip matches))]}
       end.
Proof.
  unfold Think._parse_answer, parse_html_tags_raise.
  rewrite parse_html_tags_spec by (repeat constructor; simpl; tauto).
  unfold all_messages. cbn [app flat_map].
  rewrite (extract_html_tags_one_name text_answer think_key [think_key])
    by (try discriminate; repeat constructor).
  change (findall_name think_key text_answer)
    with (findall_name "think" text_answer).
  destruct (findall_name "think" text_answer) as [|m ms].
  - rewrite lookup_empty, fmap_empty. reflexivity.
  - cbn [key_name think_key]. rewrite lookup_singleton_eq, map_fmap_singleton.
    change (map strip (m :: ms)) with (strip m :: map strip ms).
    rewrite key_value_merged.
    unfold key_messages. cbn [negb]. rewrite andb_false_r. reflexivity.
Qed.

(** X9. [ActionSpace._parse_answer] raises nothing but a [ParseError].  A
    text without a pair of [action] tags raises the one about the missing
    key, and the action set is not asked.  Otherwise the action is the
    stripped contents of all the pairs joined by line feeds (several pairs
    are merged, never reported); it is returned under [action] when the
    action set maps it to code, and the exception of the action set is
    turned into a [ParseError] that quotes it when it does not. *)
Theorem ActionSpace_parse_answer_outcomes
    (to_python_code : pyval -> option string) (text_answer : string) :
  ActionSpace._parse_answer to_python_code text_answer
  = match findall_name "action" text_answer with
    | [] => Raise (ParseError "Missing the key <action> in the answer.")
    | matches =>
        let action := PStr (str_join nl (map strip matches)) in
        match to_python_code action with
        | None => Ok {["action" := action]}
        | Some e =>
            Raise (ParseError
                     ("Error while parsing action" +:+ nl +:+ ": " +:+ e +:+ nl
                      +:+ "Make sure your answer is restricted to the allowed actions."))
        end
    end.
Proof.
  unfold ActionSpace._parse_answer, parse_html_tags_raise.
  rewrite parse_html_tags_spec by (repeat constructor; simpl; tauto).
  unfold all_messages. cbn [app flat_map].
  rewrite (extract_html_tags_one_name text_answer action_key [action_key])
    by (try discriminate; repeat constructor).
  change (findall_name action_key text_answer)
    with (findall_name "action" text_answer).
  destruct (findall_name "action" text_answer) as [|m ms].
  - rewrite lookup_empty. reflexivity.
  - cbn [key_name action_key]. rewrite lookup_singleton_eq, map_fmap_singleton.
    change (map strip (m :: ms)) with (strip m :: map strip ms).
    rewrite key_value_merged.
    unfold key_messages. cbn [negb]. rewrite andb_false_r.
    cbn [app length].
    unfold mbind, result_bind.
    change (negb (Z.of_nat 0 =? 0)%Z) with false. cbv iota.
    rewrite lookup_singleton_eq.
    destruct (to_python_code _); reflexivity.
Qed.

(** X10. [PromptElement._parse_answer], the method of the base class, never
    returns on a visible element: it calls itself until the interpreter
    raises [RecursionError], whatever the number of calls it allows.  On a
    hidden element it returns the empty dictionary. *)
Theorem PromptElement_parse_answer_recurses
    (flags : ObsFlags) (self : PromptElement.t) (text_answer : string) :
  (is_visible flags (PromptElement._visible self) = true ->
   forall depth,
     PromptElement_parse_answer depth flags self text_answer
     = Raises RecursionError)
  /\ (is_visible flags (PromptElement._visible self) = false ->
      forall depth,
        PromptElement_parse_answer (S depth) flags self text_answer
        = Returns ∅).
Proof.
  split; intros Hv depth.
  - induction depth as [|depth IH]; [reflexivity |].
    simpl. now rewrite Hv.
  - simpl. now rewrite Hv.
Qed.

(** ** Code blocks *)

Lemma span_word_spec s ws r :
  span_word s = (ws, r) ->
  s = ws +:+ r
  /\ is_words ws = true
  /\ match r with
     | EmptyString => True
     | String c _ => is_word c = false
     end.
Proof.
  revert ws r. induction s as [|c s IH]; intros ws r; simpl.
  - intros [= <- <-]. auto.
  - destruct (is_word c) eqn:Hc.
    + destruct (span_word s) as [ws' r'].
      intros [= <- <-]. destruct (IH _ _ eq_refl) as (-> & Hws & Hr).
      repeat split; [| exact Hr].
      unfold is_words. simpl. now rewrite Hc.
    + intros [= <- <-]. repeat split. exact Hc.
Qed.

Lemma span_word_app ws r :
  is_words ws = true ->
  match r with
  | EmptyString => True
  | String c _ => is_word c = false
  end ->
  span_word (ws +:+ r) = (ws, r).
Proof.
  intros Hws Hr. induction ws as [|c ws IH].
  - rewrite append_nil_l. destruct r as [|c r]; [reflexivity |].
    simpl. now rewrite Hr.
  - unfold is_words in Hws. simpl in Hws.
    apply andb_true_iff in Hws as [Hc Hws].
    rewrite append_cons. simpl. now rewrite Hc, (IH Hws).
Qed.

(** What a match of the pattern at the start of a text is. *)
Lemma match_code_block_Some s lang body rest :
  match_code_block s = Some (lang, body, rest)
  <-> exists r2,
        s = fence +:+ lang +:+ nl +:+ r2
        /\ is_words lang = true
        /\ first_occurrence fence r2 body rest.
Proof.
  unfold match_code_block. split.
  - destruct (strip_prefix fence s) as [r|] eqn:E; [|discriminate].
    apply strip_prefix_Some in E. subst s.
    destruct (span_word r) as [ws r1] eqn:Es.
    apply span_word_spec in Es as (-> & Hws & _).
    destruct r1 as [|c r2]; [discriminate |].
    destruct (Ascii.eqb_spec c (ascii_of_nat 10)) as [-> | _]; [|discriminate].
    destruct (str_find fence r2) as [[b r3]|] eqn:Ef; [|discriminate].
    intros [= <- <- <-]. exists r2. apply str_find_Some in Ef.
    repeat split; auto; apply Ef.
  - intros (r2 & -> & Hws & Hf). apply str_find_Some in Hf.
    assert (E : strip_prefix fence (fence +:+ lang +:+ nl +:+ r2)
                = Some (lang +:+ nl +:+ r2)) by now apply strip_prefix_Some.
    rewrite E. rewrite (span_word_app lang (nl +:+ r2) Hws) by reflexivity.
    change (nl +:+ r2) with (String (ascii_of_nat 10) r2). cbv beta iota.
    rewrite Ascii.eqb_refl. now rewrite Hf.
Qed.

Lemma match_code_block_length s lang body rest :
  match_code_block s = Some (lang, body, rest) ->
  (String.length rest < String.length s)%nat.
Proof.
  intros H. apply match_code_block_Some in H as (r2 & -> & _ & -> & _).
  rewrite !length_append. simpl. lia.
Qed.

(** Enough fuel is as good as more. *)
Lemma findall_code_blocks_fuel f1 f2 text :
  (String.length text <= f1)%nat -> (String.length text <= f2)%nat ->
  findall_code_blocks f1 text = findall_code_blocks f2 text.
Proof.
  revert f2 text. induction f1 as [|f1 IH]; intros f2 text H1 H2.
  - destruct text; [|simpl in H1; lia].
    destruct f2; reflexivity.
  - destruct f2 as [|f2].
    + destruct text; [reflexivity | simpl in H2; lia].
    + simpl. destruct (match_code_block text) as [[[lang body] rest]|] eqn:Em.
      * apply match_code_block_length in Em. f_equal. apply IH; lia.
      * destruct text as [|c text]; [reflexivity |].
        simpl in H1, H2. apply IH; lia.
Qed.

(** The matches, from left to right. *)
Lemma extract_code_blocks_unfold text :
  extract_code_blocks text
  = match match_code_block text with
    | Some (lang, body, rest) => (lang, strip body) :: extract_code_blocks rest
    | None =>
        match text with
        | EmptyString => []
        | String _ rest => extract_code_blocks rest
        end
    end.
Proof.
  unfold extract_code_blocks. destruct text as [|c text]; [reflexivity |].
  cbn [String.length findall_code_blocks].
  destruct (match_code_block (String c text)) as [[[lang body] rest]|] eqn:Em.
  - apply match_code_block_length in Em. simpl in Em. cbn [map fst snd].
    f_equal. f_equal. apply findall_code_blocks_fuel; lia.
  - reflexivity.
Qed.

(** Two texts that are one text, cut at two places. *)
Lemma append_split u v x w :
  u +:+ v = x +:+ w -> (String.length u <= String.length x)%nat ->
  exists d, x = u +:+ d /\ v = d +:+ w.
Proof.
  revert x. induction u as [|c u IH]; intros x H Hlen.
  - exists x. now rewrite !append_nil_l in *.
  - destruct x as [|c' x]; [simpl in Hlen; lia |].
    rewrite !append_cons in H. injection H as -> H.
    simpl in Hlen. destruct (IH x H) as (d & -> & ->); [lia |].
    now exists d.
Qed.

(** A text that holds no two fences one behind the other holds no block. *)
Lemma extract_code_blocks_none text :
  (forall a b c, text <> a +:+ fence +:+ b +:+ fence +:+ c) ->
  extract_code_blocks text = [].
Proof.
  induction text as [|ch text IH]; intros Hno; [reflexivity |].
  rewrite extract_code_blocks_unfold.
  destruct (match_code_block (String ch text)) as [[[lang body] rest]|] eqn:Em.
  - apply match_code_block_Some in Em as (r2 & Hs & _ & -> & _).
    exfalso. apply (Hno EmptyString (lang +:+ nl +:+ body) rest).
    rewrite Hs, append_nil_l. now rewrite !append_assoc.
  - apply IH. intros a b c Ht. apply (Hno (String ch a) b c).
    now rewrite Ht.
Qed.

(** What every match of the pattern is made of. *)
Lemma findall_code_blocks_parts fuel text :
  Forall (fun m : string * string =>
            is_words (fst m) = true
            /\ no_occurrence fence (snd m)
            /\ exists pre post,
                 text = pre +:+ fence +:+ fst m +:+ nl +:+ snd m +:+ fence +:+ post)
    (findall_code_blocks fuel text).
Proof.
  revert text. induction fuel as [|fuel IH]; intros text; [constructor |].
  simpl. destruct (match_code_block text) as [[[lang body] rest]|] eqn:Em.
  - apply match_code_block_Some in Em as (r2 & -> & Hws & Hf).
    constructor.
    + cbn [fst snd]. split; [exact Hws |]. split.
      * apply (first_occurrence_before fence r2 body rest); [discriminate | exact Hf].
      * destruct Hf as [-> _]. exists EmptyString, rest. reflexivity.
    + eapply List.Forall_impl; [| apply (IH rest)].
      intros [l b] (Hl & Hb & pre & post & Hr). cbn [fst snd] in *.
      split; [exact Hl |]. split; [exact Hb |].
      destruct Hf as [-> _].
      exists (fence +:+ lang +:+ nl +:+ body +:+ fence +:+ pre), post.
      rewrite Hr. now rewrite !append_assoc.
  - destruct text as [|c text]; [constructor |].
    eapply List.Forall_impl; [| apply (IH text)].
    intros [l b] (Hl & Hb & pre & post & Hr). cbn [fst snd] in *.
    split; [exact Hl |]. split; [exact Hb |].
    exists (String c pre), post. now rewrite Hr.
Qed.

(** X11. What [extract_code_blocks] returns.  Every pair is a language tag
    of word characters only (possibly none) and a body without white space
    at its ends and without a fence in it, and the text holds the block: a
    fence, the tag, a line feed, the body within white space, and a fence.
    A text that does not hold two fences one behind the other gives the
    empty list: a block that is not closed is not returned. *)
Theorem extract_code_blocks_returns_fenced_blocks (text : string) :
  Forall (fun block : string * string =>
            let (lang, body) := block in
            is_words lang = true
            /\ stripped body
            /\ no_occurrence fence body
            /\ code_block_in text lang body)
    (extract_code_blocks text)
  /\ ((forall a b c, text <> a +:+ fence +:+ b +:+ fence +:+ c) ->
      extract_code_blocks text = []).
Proof.
  split; [| apply extract_code_blocks_none].
  unfold extract_code_blocks. apply List.Forall_map.
  eapply List.Forall_impl; [| apply findall_code_blocks_parts].
  intros [lang raw] (Hl & Hraw & pre & post & Ht). cbn [fst snd] in *.
  destruct (strip_substring raw) as (a & b & Hs & Ha & Hb).
  split; [exact Hl |]. split; [apply strip_stripped |]. split.
  - apply (no_occurrence_substring fence (strip raw) a b). now rewrite <- Hs.
  - exists pre, a, b, post. split; [| split; assumption].
    rewrite Ht. rewrite Hs at 1. now rewrite !append_assoc.
Qed.

Lemma str_find_unfold p s :
  str_find p s
  = match strip_prefix p s with
    | Some after => Some (EmptyString, after)
    | None =>
        match s with
        | EmptyString => None
        | String c s' =>
            match str_find p s' with
            | Some (before, after) => Some (String c before, after)
            | None => None
            end
        end
    end.
Proof. destruct s; reflexivity. Qed.

(** What stands before the leftmost fence is passed over. *)
Lemma extract_code_blocks_skip text pre r :
  str_find fence text = Some (pre, r) ->
  extract_code_blocks text = extract_code_blocks (fence +:+ r).
Proof.
  revert pre. induction text as [|c text IH]; intros pre;
    rewrite str_find_unfold.
  - change (strip_prefix fence EmptyString) with (@None string). discriminate.
  - destruct (strip_prefix fence (String c text)) as [after|] eqn:E.
    + intros [= <- <-]. apply strip_prefix_Some in E. now rewrite E.
    + destruct (str_find fence text) as [[before after]|] eqn:Ef; [|discriminate].
      intros [= <- <-]. rewrite extract_code_blocks_unfold.
      unfold match_code_block. rewrite E. now apply (IH before).
Qed.

(** X12. The first block.  When the leftmost fence of the text is followed
    by word characters (possibly none) and a line feed, and a fence stands
    behind that line feed, [extract_code_blocks] returns first the pair of
    these word characters and of the stripped text up to the nearest such
    fence, and then the blocks of what follows that fence. *)
Theorem extract_code_blocks_leading_block
    (text pre lang r2 body post : string) :
  first_occurrence fence text pre (lang +:+ nl +:+ r2) ->
  is_words lang = true ->
  first_occurrence fence r2 body post ->
  extract_code_blocks text = (lang, strip body) :: extract_code_blocks post.
Proof.
  intros Hopen Hws Hclose. apply str_find_Some in Hopen.
  rewrite (extract_code_blocks_skip _ _ _ Hopen).
  rewrite extract_code_blocks_unfold.
  assert (Em : match_code_block (fence +:+ lang +:+ nl +:+ r2)
               = Some (lang, body, post)).
  { apply match_code_block_Some. now exists r2. }
  now rewrite Em.
Qed.

Lemma extract_code_blocks_leading_block_witness :
  extract_code_blocks
    ("Run this:" +:+ nl +:+ "```python" +:+ nl +:+ "  print(1)" +:+ nl
     +:+ "```" +:+ nl +:+ "and tell me.")
  = [("python", "print(1)")].
Proof.
  rewrite (extract_code_blocks_leading_block
             ("Run this:" +:+ nl +:+ "```python" +:+ nl +:+ "  print(1)" +:+ nl
              +:+ "```" +:+ nl +:+ "and tell me.")
             ("Run this:" +:+ nl) "python"
             ("  print(1)" +:+ nl +:+ "```" +:+ nl +:+ "and tell me.")
             ("  print(1)" +:+ nl) (nl +:+ "and tell me.")).
  - reflexivity.
  - apply str_find_Some. reflexivity.
  - reflexivity.
  - apply str_find_Some. reflexivity.
Defined.

(** ** The constructors of the composites *)

Lemma Diff_init_fields ndiff previous new prefix max_line_diff shrink_speed
    visible d :
  Diff.init ndiff previous new prefix max_line_diff shrink_speed visible = Ok d ->
  Diff.max_line_diff d = max_line_diff /\ Diff.shrink_speed d = shrink_speed.
Proof.
  unfold Diff.init.
  destruct (diff ndiff previous new) as [[h l]|e]; [|discriminate].
  now intros [= <-].
Qed.

Lemma Diff_shrink_fields d :
  Diff.shrink_speed (Diff.shrink d) = Diff.shrink_speed d
  /\ Diff.max_line_diff (Diff.shrink d)
     = Z.max 1 (Diff.max_line_diff d - Diff.shrink_speed d).
Proof. split; reflexivity. Qed.

Lemma HistoryStep_shrink_fields s :
  HistoryStep.html_diff (HistoryStep.shrink s)
  = Diff.shrink (HistoryStep.html_diff s)
  /\ HistoryStep.ax_tree_diff (HistoryStep.shrink s)
     = Diff.shrink (HistoryStep.ax_tree_diff s).
Proof. split; reflexivity. Qed.

Lemma History_shrink_steps h :
  History.history_steps (History.shrink h)
  = map HistoryStep.shrink (History.history_steps h).
Proof. reflexivity. Qed.

(** The ceiling of a Diff after [n] calls of [shrink]. *)
Lemma Diff_shrink_iter n d :
  0 <= Diff.shrink_speed d -> 1 <= Diff.max_line_diff d ->
  Diff.shrink_speed (Nat.iter n Diff.shrink d) = Diff.shrink_speed d
  /\ Diff.max_line_diff (Nat.iter n Diff.shrink d)
     = Z.max 1 (Diff.max_line_diff d - Z.of_nat n * Diff.shrink_speed d).
Proof.
  intros Hs Hm. induction n as [|n [IHs IHm]].
  - simpl. split; [reflexivity | lia].
  - rewrite !Nat.iter_succ.
    destruct (Diff_shrink_fields (Nat.iter n Diff.shrink d)) as [-> ->].
    split; [exact IHs |]. rewrite IHs, IHm. nia.
Qed.

Lemma History_shrink_iter n h :
  History.history_steps (Nat.iter n History.shrink h)
  = map (Nat.iter n HistoryStep.shrink) (History.history_steps h).
Proof.
  induction n as [|n IH].
  - simpl. now rewrite map_id.
  - rewrite Nat.iter_succ, History_shrink_steps, IH, map_map. reflexivity.
Qed.

Lemma HistoryStep_shrink_iter n s :
  HistoryStep.html_diff (Nat.iter n HistoryStep.shrink s)
  = Nat.iter n Diff.shrink (HistoryStep.html_diff s)
  /\ HistoryStep.ax_tree_diff (Nat.iter n HistoryStep.shrink s)
     = Nat.iter n Diff.shrink (HistoryStep.ax_tree_diff s).
Proof.
  induction n as [|n [IH1 IH2]]; [split; reflexivity |].
  rewrite !Nat.iter_succ.
  destruct (HistoryStep_shrink_fields (Nat.iter n HistoryStep.shrink s))
    as [-> ->].
  now rewrite IH1, IH2.
Qed.

Section ConstructorProperties.
Variable ndiff : list string -> list string -> list string.
Variable repr : string -> string.

(** What [HistoryStep.__init__] stores. *)
Lemma HistoryStep_init_fields previous_obs current_obs action memory thought
    flags shrink_speed step :
  HistoryStep_init ndiff previous_obs current_obs action memory thought flags
    shrink_speed = Returns step ->
  HistoryStep.action step = action
  /\ HistoryStep.memory step = memory
  /\ HistoryStep.thought step = thought
  /\ HistoryStep.shrink_speed step = shrink_speed
  /\ Diff.max_line_diff (HistoryStep.html_diff step) = 20
  /\ Diff.shrink_speed (HistoryStep.html_diff step) = shrink_speed
  /\ Diff.max_line_diff (HistoryStep.ax_tree_diff step) = 20
  /\ Diff.shrink_speed (HistoryStep.ax_tree_diff step) = shrink_speed.
Proof.
  unfold HistoryStep_init, mbind, outcome_bind.
  destruct (getitem previous_obs (html_type flags)) as [ph|e]; [|discriminate].
  destruct (getitem current_obs (html_type flags)) as [ch|e]; [|discriminate].
  destruct (Diff.init ndiff ph ch _ _ _ _) as [dh|e] eqn:Eh;
    cbn [of_result]; [|discriminate].
  destruct (getitem previous_obs "axtree_txt") as [pa|e]; [|discriminate].
  destruct (getitem current_obs "axtree_txt") as [ca|e]; [|discriminate].
  destruct (Diff.init ndiff pa ca _ _ _ _) as [da|e] eqn:Ea;
    cbn [of_result]; [|discriminate].
  destruct (getitem current_obs "last_action_error") as [er|e]; [|discriminate].
  intros [= <-]. cbn.
  apply Diff_init_fields in Eh as [-> ->].
  apply Diff_init_fields in Ea as [-> ->].
  repeat split.
Qed.

Lemma getindex_Returns {A} (xs : list A) i x :
  getindex xs i = Returns x <-> xs !! i = Some x.
Proof.
  unfold getindex. destruct (xs !! i); split; congruence.
Qed.

(** What the turn [i + 1] of the loop of [History.__init__] appends. *)
Lemma History_step_fields history_obs actions memories thoughts flags i step :
  History_step ndiff history_obs actions memories thoughts flags (S i)
  = Returns step ->
  actions !! i = Some (HistoryStep.action step)
  /\ memories !! i = Some (HistoryStep.memory step)
  /\ thoughts !! i = Some (HistoryStep.thought step)
  /\ HistoryStep.shrink_speed step = 1
  /\ Diff.max_line_diff (HistoryStep.html_diff step) = 20
  /\ Diff.shrink_speed (HistoryStep.html_diff step) = 1
  /\ Diff.max_line_diff (HistoryStep.ax_tree_diff step) = 20
  /\ Diff.shrink_speed (HistoryStep.ax_tree_diff step) = 1.
Proof.
  unfold History_step, mbind, outcome_bind.
  replace (S i - 1)%nat with i by lia.
  destruct (getindex history_obs i) as [po|e]; [|discriminate].
  destruct (getindex history_obs (S i)) as [co|e]; [|discriminate].
  destruct (getindex actions i) as [a|e] eqn:Ea; [|discriminate].
  destruct (getindex memories i) as [m|e] eqn:Em; [|discriminate].
  destruct (getindex thoughts i) as [t|e] eqn:Et; [|discriminate].
  apply getindex_Returns in Ea, Em, Et.
  intros H. apply HistoryStep_init_fields in H as (-> & -> & -> & H).
  auto.
Qed.

Lemma History_loop_spec history_obs actions memories thoughts flags
    indices steps out :
  History_loop ndiff history_obs actions memories thoughts flags indices steps
  = Returns out ->
  exists new,
    out = steps ++ new
    /\ Forall2 (fun i step =>
                  History_step ndiff history_obs actions memories thoughts
                    flags i = Returns step)
         indices new.
Proof.
  revert steps. induction indices as [|i rest IH]; intros steps; simpl.
  - intros [= <-]. exists []. split; [now rewrite app_nil_r | constructor].
  - unfold mbind, outcome_bind.
    destruct (History_step ndiff history_obs actions memories thoughts flags i)
      as [step|e] eqn:Es; [|discriminate].
    intros H. apply IH in H as (new & -> & Hnew).
    exists (step :: new). split; [now rewrite <- app_assoc | now constructor].
Qed.

(** What [History.__init__] builds when it returns. *)
Lemma History_init_Returns history_obs actions memories thoughts flags
    shrink_speed h :
  History_init ndiff history_obs actions memories thoughts flags shrink_speed
  = Returns h ->
  length history_obs = S (length actions)
  /\ length (memories_of actions memories) = length actions
  /\ History.shrink_speed h = shrink_speed
  /\ History._visible h = VCallable use_history
  /\ length (History.history_steps h) = length actions
  /\ forall i step,
       History.history_steps h !! i = Some step ->
       History_step ndiff history_obs actions (memories_of actions memories)
         thoughts flags (S i) = Returns step.
Proof.
  unfold History_init. fold (memories_of actions memories).
  destruct (Nat.eqb_spec (length history_obs) (length actions + 1)) as [Ha|];
    [|discriminate].
  destruct (Nat.eqb_spec (length history_obs)
              (length (memories_of actions memories) + 1)) as [Hm|];
    [|discriminate].
  cbn [negb]. unfold mbind, outcome_bind.
  destruct (History_loop _ _ _ _ _ _ _ _) as [steps|e] eqn:El; [|discriminate].
  intros [= <-]. cbn.
  apply History_loop_spec in El as (new & -> & Hnew). rewrite app_nil_l.
  pose proof (Forall2_length _ _ _ Hnew) as Hlen. rewrite length_seq in Hlen.
  repeat split; try lia.
  intros i step Hi.
  destruct (Forall2_lookup_r _ _ _ _ _ Hnew Hi) as (j & Hj & Hstep).
  apply lookup_seq in Hj as [-> _]. exact Hstep.
Qed.

(** X13. The steps [History.__init__] builds.  When it returns, there is one
    observation more than there are actions, there are as many memories as
    actions when memories are given, and at least as many thoughts; the
    history holds one step for each action, with the action, the thought and
    the memory of that index.  The shrink speed given to the history is
    stored and not passed on: every step and its two Diffs have the speed 1,
    and the Diffs the ceiling of 20 lines. *)
Theorem History_init_builds_steps_of_speed_one
    (history_obs : list obs_dict) (actions : list string)
    (memories : option (list (option string))) (thoughts : list string)
    (flags : ObsFlags) (shrink_speed : Z) (h : History.t) :
  History_init ndiff history_obs actions memories thoughts flags shrink_speed
  = Returns h ->
  length history_obs = S (length actions)
  /\ (forall ms, memories = Some ms -> length ms = length actions)
  /\ (length actions <= length thoughts)%nat
  /\ History.shrink_speed h = shrink_speed
  /\ length (History.history_steps h) = length actions
  /\ forall i step,
       History.history_steps h !! i = Some step ->
       actions !! i = Some (HistoryStep.action step)
       /\ thoughts !! i = Some (HistoryStep.thought step)
       /\ memories_of actions memories !! i = Some (HistoryStep.memory step)
       /\ HistoryStep.shrink_speed step = 1
       /\ Diff.shrink_speed (HistoryStep.html_diff step) = 1
       /\ Diff.max_line_diff (HistoryStep.html_diff step) = 20
       /\ Diff.shrink_speed (HistoryStep.ax_tree_diff step) = 1
       /\ Diff.max_line_diff (HistoryStep.ax_tree_diff step) = 20.
Proof.
  intros H.
  apply History_init_Returns in H as (Hobs & Hmem & Hs & _ & Hlen & Hsteps).
  split; [exact Hobs |]. split; [now intros ms -> |].
  assert (Hfields : forall i step,
             History.history_steps h !! i = Some step ->
             actions !! i = Some (HistoryStep.action step)
             /\ thoughts !! i = Some (HistoryStep.thought step)
             /\ memories_of actions memories !! i = Some (HistoryStep.memory step)
             /\ HistoryStep.shrink_speed step = 1
             /\ Diff.shrink_speed (HistoryStep.html_diff step) = 1
             /\ Diff.max_line_diff (HistoryStep.html_diff step) = 20
             /\ Diff.shrink_speed (HistoryStep.ax_tree_diff step) = 1
             /\ Diff.max_line_diff (HistoryStep.ax_tree_diff step) = 20).
  { intros i step Hi. apply Hsteps, History_step_fields in Hi.
    tauto. }
  split; [| auto].
  destruct (length actions) as [|n] eqn:En; [lia |].
  destruct (lookup_lt_is_Some_2 (History.history_steps h) n) as [step Hstep];
    [lia |].
  destruct (Hfields n step Hstep) as (_ & Ht & _).
  apply lookup_lt_Some in Ht. lia.
Qed.

(** X14. Shrinking a history.  After [n] calls of [History.shrink] on a
    history as constructed, whatever shrink speed it was given, every Diff
    of every step shows at most [20 - n] lines, and at most 1 from the 19th
    call on; the steps stay as many. *)
Theorem History_shrink_lowers_every_ceiling_by_one
    (history_obs : list obs_dict) (actions : list string)
    (memories : option (list (option string))) (thoughts : list string)
    (flags : ObsFlags) (shrink_speed : Z) (h : History.t) (n : nat) :
  History_init ndiff history_obs actions memories thoughts flags shrink_speed
  = Returns h ->
  let h' := Nat.iter n History.shrink h in
  length (History.history_steps h') = length actions
  /\ Forall (fun step =>
               Diff.max_line_diff (HistoryStep.html_diff step)
               = Z.max 1 (20 - Z.of_nat n)
               /\ Diff.max_line_diff (HistoryStep.ax_tree_diff step)
                  = Z.max 1 (20 - Z.of_nat n))
       (History.history_steps h').
Proof.
  intros H h'. subst h'.
  apply History_init_Returns in H as (_ & _ & _ & _ & Hlen & Hsteps).
  rewrite History_shrink_iter. split; [now rewrite length_map |].
  apply List.Forall_map. apply Forall_lookup. intros i step Hi.
  apply Hsteps, History_step_fields in Hi
    as (_ & _ & _ & _ & Hm1 & Hs1 & Hm2 & Hs2).
  destruct (HistoryStep_shrink_iter n step) as [-> ->].
  destruct (Diff_shrink_iter n (HistoryStep.html_diff step)) as [_ ->]; [lia.. |].
  destruct (Diff_shrink_iter n (HistoryStep.ax_tree_diff step)) as [_ ->]; [lia.. |].
  rewrite Hm1, Hs1, Hm2, Hs2. split; f_equal; lia.
Qed.

(** ** The grace period of an Observation *)

Lemma Trunkater_called_add n m t :
  Trunkater_called n (Trunkater_called m t) = Trunkater_called (m + n) t.
Proof. unfold Trunkater_called. simpl. f_equal. lia. Qed.

Lemma Observation_called_add n m o :
  Observation_called n (Observation_called m o) = Observation_called (m + n) o.
Proof.
  unfold Observation_called. simpl. now rewrite !Trunkater_called_add.
Qed.

Lemma Trunkater_called_0 t : Trunkater_called 0 t = t.
Proof. destruct t. unfold Trunkater_called. simpl. f_equal. lia. Qed.

Lemma Observation_called_0 o : Observation_called 0 o = o.
Proof.
  destruct o. unfold Observation_called. simpl. now rewrite !Trunkater_called_0.
Qed.

(** A call before the grace period is over counts, and does nothing else. *)
Lemma Trunkater_shrink_in_grace flags t :
  Trunkater.shrink_calls t < Trunkater.start_trunkate_iteration t ->
  Trunkater.shrink flags t = Ok (Trunkater_called 1 t).
Proof.
  intros H. unfold Trunkater.shrink. apply Z.leb_gt in H.
  now rewrite H, andb_false_r.
Qed.

Lemma Observation_shrink_in_grace flags o :
  Trunkater.shrink_calls (Observation.html o)
  < Trunkater.start_trunkate_iteration (Observation.html o) ->
  Trunkater.shrink_calls (Observation.ax_tree o)
  < Trunkater.start_trunkate_iteration (Observation.ax_tree o) ->
  Observation.shrink flags o = Ok (Observation_called 1 o).
Proof.
  intros Hh Ha. unfold Observation.shrink.
  rewrite (Trunkater_shrink_in_grace flags _ Ha).
  unfold mbind, result_bind.
  now rewrite (Trunkater_shrink_in_grace flags _ Hh).
Qed.

Lemma Observation_shrinks_in_grace calls o :
  Trunkater.shrink_calls (Observation.html o) + Z.of_nat (length calls)
  <= Trunkater.start_trunkate_iteration (Observation.html o) ->
  Trunkater.shrink_calls (Observation.ax_tree o) + Z.of_nat (length calls)
  <= Trunkater.start_trunkate_iteration (Observation.ax_tree o) ->
  Observation_shrinks calls o
  = Ok (Observation_called (Z.of_nat (length calls)) o).
Proof.
  revert o. induction calls as [|f fs IH]; intros o Hh Ha.
  - simpl. now rewrite Observation_called_0.
  - cbn [Observation_shrinks]. cbn [length] in Hh, Ha.
    rewrite Observation_shrink_in_grace by lia.
    unfold mbind, result_bind. rewrite IH by (simpl; lia).
    rewrite Observation_called_add. f_equal. f_equal. cbn [length]. lia.
Qed.

(** What [Observation.__init__] builds when it returns. *)
Lemma Observation_init_Returns obs flags o :
  Observation_init repr obs flags = Returns o ->
  Trunkater.shrink_calls (Observation.html o) = 0
  /\ Trunkater.start_trunkate_iteration (Observation.html o) = 5
  /\ Trunkater.shrink_calls (Observation.ax_tree o) = 0
  /\ Trunkater.start_trunkate_iteration (Observation.ax_tree o) = 10.
Proof.
  unfold Observation_init, mbind, outcome_bind.
  destruct (getitem obs (html_type flags)); [|discriminate].
  destruct (getitem obs "axtree_txt"); [|discriminate].
  destruct (getitem obs "last_action_error"); [|discriminate].
  destruct (getitem obs "focused_element_bid"); [|discriminate].
  intros [= <-]. repeat split.
Qed.

(** X15. The grace period of an Observation.  On an observation as
    constructed, the first five calls of [shrink] return and change nothing
    but the call counters of the HTML and of the accessibility tree: under any
    flags the observation renders as before. *)
Theorem Observation_first_shrink_calls_change_nothing
    (obs : obs_dict) (flags : ObsFlags) (o : Observation.t)
    (calls : list ObsFlags) :
  Observation_init repr obs flags = Returns o ->
  (length calls <= 5)%nat ->
  exists o',
    Observation_shrinks calls o = Ok o'
    /\ o' = Observation_called (Z.of_nat (length calls)) o
    /\ forall flags', Observation.prompt flags' o' = Observation.prompt flags' o.
Proof.
  intros H Hn. apply Observation_init_Returns in H as (Hc & Hs & Hc' & Hs').
  exists (Observation_called (Z.of_nat (length calls)) o).
  split; [apply Observation_shrinks_in_grace; lia |].
  split; reflexivity.
Qed.

Section FitObservation.
Variable count_tokens : string -> string -> Z.
Variable flags : ObsFlags.
Variable max_prompt_tokens : Z.
Variable model_name : string.

(** The loop of [fit_tokens] on an observation over the budget, for as many
    turns as the grace period has calls left. *)
Lemma fit_loop_in_grace n o last calls :
  Trunkater.shrink_calls (Observation.html o) + Z.of_nat n
  <= Trunkater.start_trunkate_iteration (Observation.html o) ->
  Trunkater.shrink_calls (Observation.ax_tree o) + Z.of_nat n
  <= Trunkater.start_trunkate_iteration (Observation.ax_tree o) ->
  max_prompt_tokens < count_tokens (Observation.prompt flags o) model_name ->
  fit_loop count_tokens (Observation_root flags) n max_prompt_tokens
    model_name o last calls
  = (FitExhausted
       match n with
       | O => last
       | S _ => Some (FStr (Observation.prompt flags o),
                      Observation.prompt flags o)
       end,
     Observation_called (Z.of_nat n) o, calls + Z.of_nat n).
Proof.
  revert o last calls. induction n as [|n IH]; intros o last calls Hh Ha Hover.
  - simpl. now rewrite Observation_called_0, Z.add_0_r.
  - cbn [fit_loop Observation_root prompt shrink prompt_str_of].
    apply Z.leb_gt in Hover. rewrite Hover.
    rewrite Observation_shrink_in_grace by lia.
    rewrite IH.
    + rewrite Observation_called_add.
      change (Observation.prompt flags (Observation_called 1 o))
        with (Observation.prompt flags o).
      replace (1 + Z.of_nat n) with (Z.of_nat (S n)) by lia.
      replace (calls + 1 + Z.of_nat n) with (calls + Z.of_nat (S n)) by lia.
      now destruct n.
    + simpl. lia.
    + simpl. lia.
    + apply Z.leb_gt. exact Hover.
Qed.

(** X16. [fit_tokens] on an Observation with up to five iterations.  When
    the observation as constructed is over the budget, a call of
    [fit_tokens] with it as the root and [max_iterations] from 1 to 5 calls
    [shrink] that many times to no effect: it returns the prompt of the
    observation as it was, states its number of tokens (counted with the
    default model) in the diagnostic, and leaves the observation with
    nothing but its call counters changed. *)
Theorem fit_tokens_cannot_shrink_an_Observation_in_five_iterations
    (obs : obs_dict) (o : Observation.t) (max_iterations : Z) :
  Observation_init repr obs flags = Returns o ->
  1 <= max_iterations <= 5 ->
  max_prompt_tokens < count_tokens (Observation.prompt flags o) model_name ->
  fit_tokens count_tokens (Observation_root flags) o (Some max_prompt_tokens)
    max_iterations model_name
  = FitOutcome (Ok (FStr (Observation.prompt flags o)))
      (Observation_called max_iterations o) max_iterations
      [fit_diagnostic max_iterations
         (count_tokens (Observation.prompt flags o) default_model)
         max_prompt_tokens].
Proof.
  intros H Hn Hover.
  apply Observation_init_Returns in H as (Hc & Hs & Hc' & Hs').
  unfold fit_tokens. rewrite fit_loop_in_grace by (assumption || lia).
  rewrite Z2Nat.id by lia.
  destruct (Z.to_nat max_iterations) eqn:E; [lia |]. reflexivity.
Qed.
End FitObservation.
End ConstructorProperties.

Lemma History_init_builds_steps_of_speed_one_witness :
  exists h,
    one_click = Returns h
    /\ History.shrink_speed h = 5
    /\ length (History.history_steps h) = 1%nat
    /\ forall i step,
         History.history_steps h !! i = Some step ->
         HistoryStep.shrink_speed step = 1
         /\ Diff.shrink_speed (HistoryStep.html_diff step) = 1.
Proof.
  eexists. split; [vm_compute; reflexivity |].
  match goal with
  | |- History.shrink_speed ?h = _ /\ _ =>
      pose proof (History_init_builds_steps_of_speed_one ndiff_plain
                    [page_before; page_after] ["click('12')"] None
                    ["I click the button."] default_flags 5 h
                    ltac:(vm_compute; reflexivity))
        as (_ & _ & _ & Hs & Hl & Hsteps)
  end.
  split; [exact Hs |]. split; [exact Hl |].
  intros i step Hi. destruct (Hsteps i step Hi) as (_ & _ & _ & H1 & H2 & _).
  now split.
Defined.

Lemma History_shrink_lowers_every_ceiling_by_one_witness :
  exists h,
    one_click = Returns h
    /\ Forall (fun step =>
                 Diff.max_line_diff (HistoryStep.html_diff step) = 1
                 /\ Diff.max_line_diff (HistoryStep.ax_tree_diff step) = 1)
         (History.history_steps (Nat.iter 19 History.shrink h)).
Proof.
  eexists. split; [vm_compute; reflexivity |].
  match goal with
  | |- Forall _ (History.history_steps (Nat.iter 19 History.shrink ?h)) =>
      exact (proj2 (History_shrink_lowers_every_ceiling_by_one ndiff_plain
                      [page_before; page_after] ["click('12')"] None
                      ["I click the button."] default_flags 5 h 19
                      ltac:(vm_compute; reflexivity)))
  end.
Defined.

Lemma Observation_first_shrink_calls_change_nothing_witness :
  exists o,
    Observation_init repr_plain page_after default_flags = Returns o
    /\ exists o',
         Observation_shrinks (repeat default_flags 5) o = Ok o'
         /\ Observation.prompt default_flags o'
            = Observation.prompt default_flags o.
Proof.
  eexists. split; [vm_compute; reflexivity |].
  match goal with
  | |- exists o', Observation_shrinks _ ?o = _ /\ _ =>
      destruct (Observation_first_shrink_calls_change_nothing repr_plain
                  page_after default_flags o (repeat default_flags 5)
                  ltac:(vm_compute; reflexivity) ltac:(simpl; lia))
        as (o' & Hrun & _ & Hp)
  end.
  exists o'. split; [exact Hrun | apply Hp].
Defined.

Lemma fit_tokens_cannot_shrink_an_Observation_in_five_iterations_witness :
  exists o,
    Observation_init repr_plain page_after default_flags = Returns o
    /\ fit_value
         (fit_tokens count_characters (Observation_root default_flags) o
            (Some 10) 5 default_model)
       = Ok (FStr (Observation.prompt default_flags o)).
Proof.
  eexists. split; [vm_compute; reflexivity |].
  match goal with
  | |- fit_value (fit_tokens _ _ ?o _ _ _) = _ =>
      rewrite (fit_tokens_cannot_shrink_an_Observation_in_five_iterations
                 repr_plain count_characters default_flags 10 default_model
                 page_after o 5
                 ltac:(vm_compute; reflexivity) ltac:(lia)
                 ltac:(vm_compute; reflexivity))
  end.
  reflexivity.
Defined.

(** ** The lines diff keeps *)

Lemma strip_space_cons c s : is_space c = true -> strip (String c s) = strip s.
Proof.
  intros Hc. unfold strip. cbn [rstrip].
  destruct (rstrip s) as [|d r]; cbn [lstrip]; now rewrite Hc.
Qed.

(** The two leading spaces of a common line of the delta do not count. *)
Lemma is_plus_common content :
  is_plus ("  " +:+ content) = is_plus content
  /\ is_minus ("  " +:+ content) = is_minus content.
Proof.
  change ("  " +:+ content) with (String " " (String " " content)).
  unfold is_minus, is_plus. now rewrite !strip_space_cons by reflexivity.
Qed.

Lemma filter_plus_minus_length delta :
  length (List.filter (fun l => is_plus l || is_minus l) delta)
  = (length (List.filter is_plus delta) + length (List.filter is_minus delta))%nat.
Proof.
  induction delta as [|l ls IH]; [reflexivity |].
  cbn [List.filter]. destruct (is_plus l) eqn:Ep.
  - assert (Hm : is_minus l = false) by (unfold is_minus; now rewrite Ep).
    rewrite Hm. cbn [orb length]. rewrite IH. lia.
  - cbn [orb]. destruct (is_minus l); cbn [length]; rewrite IH; lia.
Qed.

Lemma filter_length_In {A} (f : A -> bool) x xs :
  In x xs -> f x = true -> (1 <= length (List.filter f xs))%nat.
Proof.
  intros Hin Hf.
  assert (H : In x (List.filter f xs)) by (apply List.filter_In; now split).
  destruct (List.filter f xs); [contradiction | simpl; lia].
Qed.

Section DiffLines.
Variable ndiff : list string -> list string -> list string.

(** X17. The lines [diff] keeps and counts.  For two different texts, the
    previous one not empty, [diff] keeps the lines of the delta that start,
    after stripping, with [+] or [-], in their order, and counts the former
    as added and the latter as removed; the two counts of the header add up
    to the number of lines kept.  The mark of [ndiff] is not what is read:
    a line that [ndiff] gives as common to both texts (two leading spaces)
    is kept and counted as added when its own text starts with [+], and as
    removed when it starts with [-]. *)
Theorem diff_counts_lines_by_their_first_sign (previous new : string) :
  previous <> new -> previous <> EmptyString ->
  let delta := ndiff (splitlines previous) (splitlines new) in
  exists added removed lines,
    diff ndiff (Some previous) (Some new)
    = Ok (diff_header added removed, lines)
    /\ lines = List.filter (fun l => is_plus l || is_minus l) delta
    /\ added = Z.of_nat (length (List.filter is_plus delta))
    /\ removed = Z.of_nat (length (List.filter is_minus delta))
    /\ added + removed = Z.of_nat (length lines)
    /\ (forall content,
           In ("  " +:+ content) delta -> is_plus content = true ->
           In ("  " +:+ content) lines /\ 1 <= added)
    /\ (forall content,
           In ("  " +:+ content) delta -> is_minus content = true ->
           In ("  " +:+ content) lines /\ 1 <= removed).
Proof.
  intros Hpn Hp delta.
  exists (Z.of_nat (length (List.filter is_plus delta))),
         (Z.of_nat (length (List.filter is_minus delta))),
         (List.filter (fun l => is_plus l || is_minus l) delta).
  split; [now apply diff_changed |]. split; [reflexivity |].
  split; [reflexivity |]. split; [reflexivity |].
  split; [rewrite filter_plus_minus_length; lia |].
  split; intros content Hin Hc.
  - assert (Hl : is_plus ("  " +:+ content) = true)
      by now rewrite (proj1 (is_plus_common content)).
    split.
    + apply List.filter_In. split; [exact Hin | now rewrite Hl].
    + pose proof (filter_length_In is_plus _ _ Hin Hl). lia.
  - assert (Hl : is_minus ("  " +:+ content) = true)
      by now rewrite (proj2 (is_plus_common content)).
    split.
    + apply List.filter_In. split; [exact Hin | now rewrite Hl, orb_true_r].
    + pose proof (filter_length_In is_minus _ _ Hin Hl). lia.
Qed.
End DiffLines.

Lemma diff_counts_lines_by_their_first_sign_witness :
  diff ndiff_plain (Some ("+1" +:+ nl +:+ "b")) (Some ("+1" +:+ nl +:+ "x"))
  = Ok ("2 lines added and 1 lines removed:", ["  +1"; "- b"; "+ x"]).
Proof.
  destruct (diff_counts_lines_by_their_first_sign ndiff_plain
              ("+1" +:+ nl +:+ "b") ("+1" +:+ nl +:+ "x")
              ltac:(discriminate) ltac:(discriminate))
    as (added & removed & lines & Hd & -> & -> & -> & _).
  exact Hd.
Defined.

(** ** Truncating again and again *)

(** At the default speed, of 3 lines or more at least 2 are kept. *)
Lemma default_speed_keeps_two n :
  3 <= n <= 100000 ->
  exists k, Trunkater.new_line_count n default_shrink_speed = Ok k
            /\ 2 <= k < n.
Proof.
  intros Hn. destruct (Z_lt_le_dec n 5) as [Hsmall | Hbig].
  - assert (Hcases : n = 3 \/ n = 4) by lia.
    destruct Hcases as [-> | ->]; exists 2;
      (split; [vm_compute; reflexivity | lia]).
  - destruct (default_speed_near_seven_tenths n ltac:(lia)) as (k & Hk & _ & Hlo & Hhi).
    exists k. split; [exact Hk |].
    assert (3 <= 7 * n / 10) by (apply Z.div_le_lower_bound; lia).
    assert (7 * n / 10 < n) by (apply Z.div_lt_upper_bound; lia).
    lia.
Qed.

(** One truncating call at the default speed on a prompt of 3 lines or
    more. *)
Lemma Trunkater_default_step flags t :
  Trunkater.shrink_speed t = default_shrink_speed ->
  is_visible flags (Trunkater._visible t) = true ->
  Trunkater.start_trunkate_iteration t <= Trunkater.shrink_calls t ->
  let lines := splitlines (Trunkater._prompt t) in
  3 <= Z.of_nat (length lines) <= 100000 ->
  exists t' k,
    Trunkater.shrink flags t = Ok t'
    /\ (2 <= k < length lines)%nat
    /\ Trunkater._prompt t'
       = str_join nl (firstn k lines) +:+ nl
         +:+ marker_line (Trunkater.deleted_lines t')
    /\ splitlines (Trunkater._prompt t')
       = firstn k lines ++ [marker_line (Trunkater.deleted_lines t')]
    /\ Trunkater.deleted_lines t'
       = Trunkater.deleted_lines t + (Z.of_nat (length lines) - Z.of_nat k)
    /\ Trunkater.shrink_speed t' = default_shrink_speed
    /\ Trunkater._visible t' = Trunkater._visible t
    /\ Trunkater.start_trunkate_iteration t' <= Trunkater.shrink_calls t'.
Proof.
  intros Hs Hv Hg lines Hn.
  destruct (default_speed_keeps_two (Z.of_nat (length lines)) ltac:(lia))
    as (k & Hk & Hk2).
  rewrite <- Hs in Hk.
  destruct (Trunkater_shrink_past_grace flags t k Hv Hg Hk)
    as (t' & Hrun & Hp & Hd & Hc).
  pose proof (Trunkater_lines_after_shrink flags t t' k Hv Hg Hk Hrun
                ltac:(fold lines; lia)) as Hl.
  exists t', (Z.to_nat k). fold lines in Hp, Hd, Hl.
  rewrite slice_to_nonneg in Hp by lia. rewrite <- Hd in Hp, Hl.
  split; [exact Hrun |]. split; [lia |]. split; [exact Hp |].
  split; [exact Hl |]. split; [rewrite Hd; lia |].
  destruct (Trunkater_shrink_Ok _ _ _ Hrun) as [(_ & k' & _ & ->) | (_ & ->)];
    cbn; repeat split; auto; lia.
Qed.

(** The calls after the first, on the lines kept so far and a marker. *)
Lemma Trunkater_default_later_calls lines0 calls :
  forall t c,
    Trunkater.shrink_speed t = default_shrink_speed ->
    Forall (fun flags => is_visible flags (Trunkater._visible t) = true) calls ->
    Trunkater.start_trunkate_iteration t <= Trunkater.shrink_calls t ->
    (2 <= c < length lines0)%nat -> Z.of_nat (length lines0) <= 100000 ->
    splitlines (Trunkater._prompt t)
    = firstn c lines0 ++ [marker_line (Trunkater.deleted_lines t)] ->
    Trunkater._prompt t
    = str_join nl (firstn c lines0) +:+ nl
      +:+ marker_line (Trunkater.deleted_lines t) ->
    exists t' c',
      Trunkater_shrinks calls t = Ok t'
      /\ (2 <= c' <= c)%nat
      /\ Trunkater._prompt t'
         = str_join nl (firstn c' lines0) +:+ nl
           +:+ marker_line (Trunkater.deleted_lines t')
      /\ Trunkater.deleted_lines t'
         = Trunkater.deleted_lines t + (Z.of_nat c - Z.of_nat c')
           + Z.of_nat (length calls).
Proof.
  induction calls as [|flags rest IH]; intros t c Hs Hv Hg Hc Hn Hl Hp.
  - exists t, c. simpl. repeat split; auto; lia.
  - apply Forall_cons in Hv as [Hv Hrest].
    assert (Hlen : length (splitlines (Trunkater._prompt t)) = S c).
    { rewrite Hl, length_app, length_take_le by lia. simpl. lia. }
    destruct (Trunkater_default_step flags t Hs Hv Hg ltac:(lia))
      as (t1 & k & Hrun & Hk & Hp1 & Hl1 & Hd1 & Hs1 & Hv1 & Hg1).
    rewrite Hlen in Hk, Hd1. rewrite Hl in Hp1, Hl1.
    assert (Hkeep : firstn k (firstn c lines0
                                ++ [marker_line (Trunkater.deleted_lines t)])
                    = firstn k lines0).
    { rewrite take_app_le by (rewrite length_take_le; lia).
      rewrite take_take. f_equal. lia. }
    rewrite Hkeep in Hp1, Hl1.
    destruct (IH t1 k Hs1) as (t' & c' & Hrun' & Hc' & Hp' & Hd'); auto;
      try lia.
    { rewrite Hv1. exact Hrest. }
    exists t', c'. cbn [Trunkater_shrinks]. rewrite Hrun.
    split; [exact Hrun' |]. split; [lia |]. split; [exact Hp' |].
    rewrite Hd', Hd1. cbn [length]. lia.
Qed.

(** X18. Truncating again and again at the default speed.  A Trunkater with
    the speed 0.3 and a prompt of 3 to 100000 lines, past its grace period
    and visible at each call: after one call or more its prompt is the first
    [c] lines of the original prompt and one marker line, with [c] at least
    2 and less than the number of lines there were, so the first two lines
    are never deleted.  Each call after the first takes the marker of the
    call before for a line it deletes: the number the marker states is the
    number of lines deleted plus the number of calls after the first. *)
Theorem Trunkater_keeps_two_lines_and_counts_its_markers
    (t : Trunkater.t) (calls : list ObsFlags) :
  Trunkater.shrink_speed t = default_shrink_speed ->
  Trunkater.start_trunkate_iteration t <= Trunkater.shrink_calls t ->
  Forall (fun flags => is_visible flags (Trunkater._visible t) = true) calls ->
  calls <> [] ->
  let lines := splitlines (Trunkater._prompt t) in
  3 <= Z.of_nat (length lines) <= 100000 ->
  exists t' c,
    Trunkater_shrinks calls t = Ok t'
    /\ (2 <= c < length lines)%nat
    /\ Trunkater._prompt t'
       = str_join nl (firstn c lines) +:+ nl
         +:+ marker_line (Trunkater.deleted_lines t')
    /\ Trunkater.deleted_lines t'
       = Trunkater.deleted_lines t
         + (Z.of_nat (length lines) - Z.of_nat c)
         + (Z.of_nat (length calls) - 1).
Proof.
  intros Hs Hg Hv Hne lines Hn.
  destruct calls as [|flags rest]; [contradiction |].
  apply Forall_cons in Hv as [Hv Hrest].
  destruct (Trunkater_default_step flags t Hs Hv Hg Hn)
    as (t1 & k & Hrun & Hk & Hp1 & Hl1 & Hd1 & Hs1 & Hv1 & Hg1).
  fold lines in Hk, Hp1, Hl1, Hd1.
  destruct (Trunkater_default_later_calls lines rest t1 k Hs1)
    as (t' & c' & Hrun' & Hc' & Hp' & Hd'); auto; try lia.
  { rewrite Hv1. exact Hrest. }
  exists t', c'. cbn [Trunkater_shrinks]. rewrite Hrun.
  split; [exact Hrun' |]. split; [lia |]. split; [exact Hp' |].
  rewrite Hd', Hd1. cbn [length]. lia.
Qed.

Lemma Trunkater_keeps_two_lines_and_counts_its_markers_witness :
  exists t',
    Trunkater_shrinks (repeat default_flags 10) trunkater20 = Ok t'
    /\ Trunkater._prompt t'
       = "1" +:+ nl +:+ "2" +:+ nl
         +:+ "... Deleted 27 lines to reduce prompt size.".
Proof.
  destruct (Trunkater_keeps_two_lines_and_counts_its_markers trunkater20
              (repeat default_flags 10) eq_refl ltac:(simpl; lia)
              ltac:(repeat constructor) ltac:(discriminate)
              ltac:(split; vm_compute; discriminate))
    as (t' & c & Hrun & Hc & Hp & Hd).
  exists t'. split; [exact Hrun |].
  assert (Hrun' : Trunkater_shrinks (repeat default_flags 10) trunkater20
                  = Ok t') by exact Hrun.
  vm_compute in Hrun'. injection Hrun' as <-. vm_compute. reflexivity.
Defined.

(** ** The tokenizer asked for *)

Lemma split_char_not_nil sep s : split_char sep s <> [].
Proof.
  destruct s as [|c s]; simpl; [discriminate |].
  destruct (Ascii.eqb c sep); [discriminate |].
  destruct (split_char sep s); discriminate.
Qed.

(** A text without the separator is its only part. *)
Lemma split_char_whole sep s : has_char sep s = false -> split_char sep s = [s].
Proof.
  induction s as [|c s IH]; [reflexivity |]. simpl.
  intros H. apply orb_false_iff in H as [Hc Hs].
  now rewrite Hc, (IH Hs).
Qed.

(** The first part ends at the first separator. *)
Lemma split_char_first sep a r :
  has_char sep a = false ->
  split_char sep (a +:+ String sep r) = a :: split_char sep r.
Proof.
  induction a as [|c a IH]; intros H.
  - rewrite append_nil_l. simpl. now rewrite Ascii.eqb_refl.
  - simpl in H. apply orb_false_iff in H as [Hc Ha].
    rewrite append_cons. simpl. now rewrite Hc, (IH Ha).
Qed.

(** A text with the separator has two parts or more. *)
Lemma split_char_two sep s :
  has_char sep s = true -> exists x y ys, split_char sep s = x :: y :: ys.
Proof.
  induction s as [|d s IH]; [discriminate |]. simpl.
  destruct (Ascii.eqb d sep) eqn:Ed.
  - intros _. pose proof (split_char_not_nil sep s).
    destruct (split_char sep s) as [|y ys]; [contradiction |].
    now exists EmptyString, y, ys.
  - simpl. intros Hs. destruct (IH Hs) as (x & y & ys & ->).
    now exists (String d x), y, ys.
Qed.

Lemma has_char_middle sep p m : has_char sep (p +:+ String sep m) = true.
Proof.
  induction p as [|d p IH].
  - rewrite append_nil_l. simpl. now rewrite Ascii.eqb_refl.
  - rewrite append_cons. simpl. now rewrite IH, orb_true_r.
Qed.

(** The last part begins behind the last separator. *)
Lemma split_char_last sep p m :
  has_char sep m = false ->
  List.last (split_char sep (p +:+ String sep m)) EmptyString = m.
Proof.
  intros Hm. induction p as [|c p IH].
  - rewrite append_nil_l. simpl. rewrite Ascii.eqb_refl.
    rewrite (split_char_whole sep m Hm). reflexivity.
  - rewrite append_cons. cbn [split_char].
    destruct (split_char_two sep _ (has_char_middle sep p m))
      as (x & y & ys & Hs).
    rewrite Hs in IH |- *. destruct (Ascii.eqb c sep); exact IH.
Qed.

(** The four prefixes exclude one another. *)
Lemma startswith_append p r : startswith (p +:+ r) p = true.
Proof.
  unfold startswith.
  assert (E : strip_prefix p (p +:+ r) = Some r) by now apply strip_prefix_Some.
  now rewrite E.
Qed.

Lemma startswith_inv s p :
  startswith s p = true -> exists r, s = p +:+ r.
Proof.
  unfold startswith. destruct (strip_prefix p s) as [r|] eqn:E; [|discriminate].
  intros _. exists r. now apply strip_prefix_Some.
Qed.

(** X19. The tokenizer [get_tokenizer_old] asks for.  For a model name that
    starts with [openai], it asks tiktoken for what stands behind the last
    slash of the name, or for the whole name when it holds no slash.  For a
    name that starts with [azure], it asks tiktoken for what stands between
    the first slash and the next (or the end), and raises [IndexError]
    exactly when the name holds no slash: no other name makes it raise. *)
Theorem get_tokenizer_old_reads_the_name (model_name : string) :
  (startswith model_name "openai" = true ->
   (has_char "/" model_name = false ->
    get_tokenizer_old model_name = Ok (Tiktoken model_name, []))
   /\ (forall p m,
          model_name = p +:+ "/" +:+ m -> has_char "/" m = false ->
          get_tokenizer_old model_name = Ok (Tiktoken m, [])))
  /\ (startswith model_name "azure" = true ->
      forall a m rest,
        model_name = a +:+ "/" +:+ m +:+ rest ->
        has_char "/" a = false -> has_char "/" m = false ->
        rest = EmptyString \/ startswith rest "/" = true ->
        get_tokenizer_old model_name = Ok (Tiktoken m, []))
  /\ (get_tokenizer_old model_name = Raise IndexError
      <-> startswith model_name "azure" = true
          /\ has_char "/" model_name = false).
Proof.
  split; [|split].
  - intros Ho. apply startswith_inv in Ho as (r & ->).
    unfold get_tokenizer_old.
    change (startswith ("openai" +:+ r) "test") with false.
    rewrite startswith_append. cbv iota. split.
    + intros Hno. now rewrite split_char_whole.
    + intros p m Hm Hno. rewrite Hm.
      change ("/" +:+ m) with (String "/" m).
      now rewrite split_char_last.
  - intros Ha. apply startswith_inv in Ha as (r & Hr).
    intros a m rest Hm Hnoa Hnom Hrest.
    unfold get_tokenizer_old. rewrite Hr.
    change (startswith ("azure" +:+ r) "test") with false.
    change (startswith ("azure" +:+ r) "openai") with false.
    rewrite startswith_append. cbv iota. rewrite <- Hr, Hm.
    change ("/" +:+ m +:+ rest) with (String "/" (m +:+ rest)).
    rewrite split_char_first by exact Hnoa.
    destruct Hrest as [-> | Hs].
    + rewrite append_nil_r, split_char_whole by exact Hnom. reflexivity.
    + apply startswith_inv in Hs as (rest' & ->).
      change ("/" +:+ rest') with (String "/" rest').
      rewrite split_char_first by exact Hnom. reflexivity.
  - unfold get_tokenizer_old. split.
    + destruct (startswith model_name "test"); [discriminate |].
      destruct (startswith model_name "openai"); [discriminate |].
      destruct (startswith model_name "azure"); [| destruct (startswith model_name "reka"); discriminate].
      destruct (has_char "/" model_name) eqn:Hc; [| auto].
      destruct (split_char_two "/" _ Hc) as (x & y & ys & ->). discriminate.
    + intros [Ha Hno]. pose proof Ha as Ha'.
      apply startswith_inv in Ha' as (r & Hr).
      rewrite Hr.
      change (startswith ("azure" +:+ r) "test") with false.
      change (startswith ("azure" +:+ r) "openai") with false.
      rewrite startswith_append. cbv iota. rewrite <- Hr.
      now rewrite split_char_whole.
Qed.

Lemma get_tokenizer_old_reads_the_name_witness :
  get_tokenizer_old "azure/gpt-35-turbo/2024" = Ok (Tiktoken "gpt-35-turbo", [])
  /\ get_tokenizer_old "openai/org/gpt-4" = Ok (Tiktoken "gpt-4", [])
  /\ get_tokenizer_old "azure-gpt-4" = Raise IndexError.
Proof.
  pose proof (get_tokenizer_old_reads_the_name "azure/gpt-35-turbo/2024")
    as (_ & Ha & _).
  pose proof (get_tokenizer_old_reads_the_name "openai/org/gpt-4")
    as (Ho & _ & _).
  pose proof (get_tokenizer_old_reads_the_name "azure-gpt-4") as (_ & _ & Hr).
  split; [| split].
  - exact (Ha eq_refl "azure" "gpt-35-turbo" "/2024" eq_refl eq_refl eq_refl
             (or_intror eq_refl)).
  - exact (proj2 (Ho eq_refl) "openai/org" "gpt-4" eq_refl eq_refl).
  - apply Hr. split; reflexivity.
Defined.

(** ** The flags an Observation reads *)

Lemma getitem_Returns obs key v :
  getitem obs key = Returns v <-> obs !! key = Some v.
Proof. unfold getitem. destruct (obs !! key); split; congruence. Qed.

Lemma getitem_Raises obs key e :
  getitem obs key = Raises e <-> obs !! key = None /\ e = KeyError key.
Proof.
  unfold getitem. destruct (obs !! key); split;
    try discriminate; try (intros [? ?]; discriminate).
  - intros [= <-]. now split.
  - intros [_ ->]. reflexivity.
Qed.

Section ObservationFlags.
Variable repr : string -> string.

(** X20. The flags an Observation reads, and when.  [Observation.__init__]
    returns exactly when the observation holds the four keys it reads (the
    HTML of the type the flags name, [axtree_txt], [last_action_error] and
    [focused_element_bid]), and raises the [KeyError] of one that is missing
    otherwise.  The prompt rendered later shows the HTML, the accessibility
    tree and the error by the flags as they are at the rendering (the error
    only when its text is not empty), and the focused element by the flag as
    it was at the construction; the type of the HTML and the note on visible
    elements are those of the construction too. *)
Theorem Observation_reads_flags_at_rendering_but_focus_at_construction
    (obs : obs_dict) (flags : ObsFlags) :
  (forall e,
      Observation_init repr obs flags = Raises e ->
      exists key,
        e = KeyError key /\ obs !! key = None
        /\ In key [html_type flags; "axtree_txt"; "last_action_error";
                   "focused_element_bid"])
  /\ (forall html ax_tree error bid,
         obs !! html_type flags = Some html ->
         obs !! "axtree_txt" = Some ax_tree ->
         obs !! "last_action_error" = Some error ->
         obs !! "focused_element_bid" = Some bid ->
         exists o,
           Observation_init repr obs flags = Returns o
           /\ Trunkater._prompt (Observation.html o)
              = nl +:+ "## HTML:" +:+ nl
                +:+ visible_elements_note (filter_visible_elements_only flags)
                +:+ format html +:+ nl
           /\ forall later : ObsFlags,
                Observation.prompt later o
                = nl +:+ "# Observation of current step:" +:+ nl
                  +:+ (if use_html later
                       then Trunkater._prompt (Observation.html o)
                       else EmptyString)
                  +:+ (if use_ax_tree later
                       then Trunkater._prompt (Observation.ax_tree o)
                       else EmptyString)
                  +:+ (if use_focused_element flags
                       then PromptElement._prompt (Observation.focused_element o)
                       else EmptyString)
                  +:+ (if use_error_logs later && truth error
                       then PromptElement._prompt (Observation.error o)
                       else EmptyString)
                  +:+ nl +:+ nl).
Proof.
  split.
  - intros e. unfold Observation_init, mbind, outcome_bind.
    destruct (getitem obs (html_type flags)) as [h|e1] eqn:E1.
    2:{ intros [= <-]. apply getitem_Raises in E1 as [Hn ->].
        exists (html_type flags). split; [reflexivity |]. split; [exact Hn |].
        simpl; tauto. }
    destruct (getitem obs "axtree_txt") as [a|e2] eqn:E2.
    2:{ intros [= <-]. apply getitem_Raises in E2 as [Hn ->].
        exists "axtree_txt". split; [reflexivity |]. split; [exact Hn |].
        simpl; tauto. }
    destruct (getitem obs "last_action_error") as [r|e3] eqn:E3.
    2:{ intros [= <-]. apply getitem_Raises in E3 as [Hn ->].
        exists "last_action_error". split; [reflexivity |]. split; [exact Hn |].
        simpl; tauto. }
    destruct (getitem obs "focused_element_bid") as [b|e4] eqn:E4.
    2:{ intros [= <-]. apply getitem_Raises in E4 as [Hn ->].
        exists "focused_element_bid". split; [reflexivity |]. split; [exact Hn |].
        simpl; tauto. }
    discriminate.
  - intros html ax_tree error bid Hh Ha He Hb.
    apply getitem_Returns in Hh, Ha, He, Hb.
    unfold Observation_init, mbind, outcome_bind. rewrite Hh, Ha, He, Hb.
    eexists. split; [reflexivity |]. split; [reflexivity |].
    intros later. reflexivity.
Qed.
End ObservationFlags.

(** ** What fit_tokens returns when it gives up *)

Section FitTokensGivesUp.
Context {E : Type}.
Variable count_tokens : string -> string -> Z.
Variable shrinkable : Shrinkable E.
Variable max_prompt_tokens : Z.
Variable model_name : string.

(** A root whose prompt is a [str] or a [list], of text [text st], and whose
    [shrink] returns, leaving the state [step st]. *)
Variable text : E -> string.
Variable step : E -> E.
Hypothesis prompt_text :
  forall st, prompt_str_of (prompt shrinkable st) = Ok (text st).
Hypothesis shrink_returns : forall st, shrink shrinkable st = Ok (step st).

(** X21. What [fit_tokens] returns when it gives up.  With one iteration or
    more, on a root whose [shrink] returns and whose rendering is over the
    budget at each of the [max_iterations] turns, [fit_tokens] calls
    [shrink] [max_iterations] times and returns the rendering made before
    the last of these calls: the last call changes the root and not the
    value returned.  The number of tokens in the diagnostic is that of the
    value returned, counted with the default model and not with
    [model_name]. *)
Theorem fit_tokens_returns_the_rendering_before_its_last_shrink
    (st : E) (max_iterations : Z) :
  1 <= max_iterations ->
  (forall j, Z.of_nat j < max_iterations ->
             max_prompt_tokens
             < count_tokens (text (Nat.iter j step st)) model_name) ->
  let returned := Nat.iter (Z.to_nat (max_iterations - 1)) step st in
  fit_tokens count_tokens shrinkable st (Some max_prompt_tokens)
    max_iterations model_name
  = FitOutcome (Ok (prompt shrinkable returned))
      (step returned) max_iterations
      [fit_diagnostic max_iterations
         (count_tokens (text returned) default_model) max_prompt_tokens].
Proof.
  intros Hn Hover returned.
  destruct (fit_tokens_protocol count_tokens shrinkable max_prompt_tokens
              model_name text step prompt_text shrink_returns st max_iterations)
    as (_ & _ & Hlast).
  rewrite Hlast; [| exact Hn |].
  - subst returned. f_equal.
    replace (Z.to_nat max_iterations)
      with (S (Z.to_nat (max_iterations - 1))) by lia.
    reflexivity.
  - intros j Hj. apply Z.leb_gt. now apply Hover.
Qed.
End FitTokensGivesUp.

Lemma fit_tokens_returns_the_rendering_before_its_last_shrink_witness :
  fit_tokens count_characters chopping_root "abcdef" (Some 2) 3 default_model
  = FitOutcome (Ok (FStr "abcd")) "abc" 3
      [fit_diagnostic 3 4 2].
Proof.
  apply (fit_tokens_returns_the_rendering_before_its_last_shrink
           count_characters chopping_root 2 default_model
           (fun s => s) chopped (fun _ => eq_refl) (fun _ => eq_refl)
           "abcdef" 3 ltac:(lia)).
  intros j Hj.
  assert (Hcases : j = 0%nat \/ j = 1%nat \/ j = 2%nat) by lia.
  destruct Hcases as [-> | [-> | ->]]; vm_compute; reflexivity.
Defined.
